(** * yt2radarr: job orchestration core of [app.py], embedded in Rocq

    The development follows the layout of [app.py]:
    - Python string primitives used by the code ([str.strip], [str.lower],
      [str.startswith], [str.endswith], [in], slicing);
    - the job store ([jobs.JobRepository]) and the registry of job controls
      ([_JOB_CONTROLS]);
    - process supervision ([_terminate_process]) and [cancel_job];
    - the filesystem helpers ([_cleanup_temp_files], the filename collision
      loops of [process_download_job], [resolve_movie_path]);
    - the metadata probe and the fetch phase of [process_download_job];
    - request validation ([_validate_request_urls], [create]);
    - file names ([sanitize_filename], [build_movie_stem]) and the display
      filter of the log ([_filter_logs_for_display]);
    - the end of a job (the handler of [JobCancelled], the [finally]
      clause, the report of success) and the settings the worker reads
      from the payload;
    - the setup form ([normalize_paths], [parse_path_overrides],
      [normalize_path_overrides], the validation of [setup]);
    - the YouTube search and its cache ([_search_youtube]);
    - standalone downloads ([_select_standalone_library_path], the choice
      of the folder) and [resolve_movie_by_metadata].

    Strings are 8-bit ([string] of the standard library); Python's Unicode
    classes are restricted to their ASCII part. *)

From Stdlib Require Import Ascii String List ZArith QArith Lia Lqa Bool.
From stdpp Require Import gmap strings list pretty.

Local Open Scope Z_scope.
Local Open Scope stdpp_scope.

(* ===================================================================== *)
(** * Part I. The embedding                                                *)
(* ===================================================================== *)

(** ** Python string primitives *)

Definition chars (s : string) : list ascii := list_ascii_of_string s.
Definition str (l : list ascii) : string := string_of_list_ascii l.

(** [str.isspace] on the ASCII range: TAB..CR, FS..US and SPACE. *)
Definition py_isspace (c : ascii) : bool :=
  let n := nat_of_ascii c in
  ((9 <=? n)%nat && (n <=? 13)%nat) || ((28 <=? n)%nat && (n <=? 32)%nat).

Fixpoint lstrip_chars (l : list ascii) : list ascii :=
  match l with
  | c :: l' => if py_isspace c then lstrip_chars l' else l
  | [] => []
  end.

Definition rstrip_chars (l : list ascii) : list ascii :=
  rev (lstrip_chars (rev l)).

(** [s.strip()] *)
Definition strip (s : string) : string :=
  str (rstrip_chars (lstrip_chars (chars s))).

(** [s.rstrip()] *)
Definition rstrip (s : string) : string := str (rstrip_chars (chars s)).

Definition is_upper (c : ascii) : bool :=
  let n := nat_of_ascii c in (65 <=? n)%nat && (n <=? 90)%nat.

Definition lower_char (c : ascii) : ascii :=
  if is_upper c then ascii_of_nat (nat_of_ascii c + 32) else c.

(** [s.lower()] *)
Definition lower (s : string) : string := str (map lower_char (chars s)).

Fixpoint prefix_chars (p l : list ascii) : bool :=
  match p, l with
  | [], _ => true
  | a :: p', b :: l' => if Ascii.eqb a b then prefix_chars p' l' else false
  | _ :: _, [] => false
  end.

(** [s.startswith(p)] *)
Definition startswith (s p : string) : bool := prefix_chars (chars p) (chars s).

(** [s.endswith(suf)] *)
Definition endswith (s suf : string) : bool :=
  prefix_chars (rev (chars suf)) (rev (chars s)).

Fixpoint contains_chars (sub l : list ascii) : bool :=
  prefix_chars sub l ||
  match l with
  | [] => false
  | _ :: l' => contains_chars sub l'
  end.

(** [sub in s] *)
Definition contains (sub s : string) : bool := contains_chars (chars sub) (chars s).

(** [s[:n]] *)
Definition slice_to (n : nat) (s : string) : string := str (take n (chars s)).

(** Truthiness of a string: [bool(s)]. *)
Definition nonempty (s : string) : bool :=
  match s with EmptyString => false | _ => true end.

(** [x or d] on strings. *)
Definition or_default (x : option string) (d : string) : string :=
  match x with
  | Some s => if nonempty s then s else d
  | None => d
  end.

Definition is_digit (c : ascii) : bool :=
  let n := nat_of_ascii c in (48 <=? n)%nat && (n <=? 57)%nat.

Definition digit_val (c : ascii) : Z := Z.of_nat (nat_of_ascii c) - 48.

(** ** The filesystem *)

Inductive node := File (content : string) | Dir.

(** Paths map to nodes; [fs_denied] holds the paths on which a mutating
    system call ([os.remove], [os.makedirs]) raises [OSError]. *)
Record filesystem := {
  fs_nodes : gmap string node;
  fs_denied : gset string
}.

Definition isdir (fs : filesystem) (p : string) : bool :=
  match fs_nodes fs !! p with Some Dir => true | _ => false end.

(** [os.remove(p)]: [None] stands for [OSError] (missing path, directory,
    or denied). *)
Definition os_remove (p : string) (fs : filesystem) : option filesystem :=
  match fs_nodes fs !! p with
  | Some (File _) =>
      if decide (p ∈ fs_denied fs) then None
      else Some {| fs_nodes := delete p (fs_nodes fs); fs_denied := fs_denied fs |}
  | _ => None
  end.

(** [_cleanup_temp_files].  [glob] is [glob.glob] on the current
    filesystem; the list it returns is computed once, before the loop. *)
Definition _cleanup_temp_files
    (glob : filesystem -> string -> list string)
    (pattern : option string) (fs : filesystem) : filesystem :=
  match pattern with
  | None => fs
  | Some pat =>
      if negb (nonempty pat) then fs
      else
        fold_left
          (fun fs leftover =>
             if endswith leftover ".part" || endswith leftover ".ytdl" then
               match os_remove leftover fs with
               | Some fs' => fs'
               | None => fs
               end
             else fs)
          (glob fs pat) fs
  end.

(** ** The job store

    [jobs.JobRepository] is imported by [app.py] but lives in [jobs.py]; the
    record and the effect of each call are taken from the store contract.
    The record keeps the fields the core reads or writes here (status,
    progress, message, logs); the cap on the number of log lines is left
    to the store. *)

Inductive job_status := Queued | Processing | Success | Failed | Cancelled.

Record job := {
  j_status : job_status;
  j_progress : Q;
  j_message : string;
  j_logs : list string
}.

(** The calls [app.py] makes on [jobs_repo], as they appear in the source:
    [append_logs], [replace_last_log], [status], [mark_failure],
    [mark_success], [mark_cancelled] and [update] of the message field. *)
Inductive store_op :=
| OpAppendLog (line : string)
| OpReplaceLastLog (line : string)
| OpStatus (st : job_status) (progress : option Q)
| OpMarkFailure (msg : string)
| OpMarkSuccess
| OpMarkCancelled (msg : string)
| OpUpdateMessage (msg : string).

(** Modelled from the spec: the effect of one [JobRepository] call on a job
    record ([jobs.py] is not part of the sources).  Logs are an ordered
    sequence with append and a single replace-last operation; the mark
    operations set the terminal status together with its message; [status]
    sets the status and, when given, the progress. *)
Definition apply_op (op : store_op) (j : job) : job :=
  match op with
  | OpAppendLog line =>
      {| j_status := j_status j; j_progress := j_progress j;
         j_message := j_message j; j_logs := j_logs j ++ [line] |}
  | OpReplaceLastLog line =>
      {| j_status := j_status j; j_progress := j_progress j;
         j_message := j_message j; j_logs := removelast (j_logs j) ++ [line] |}
  | OpStatus st p =>
      {| j_status := st; j_progress := from_option id (j_progress j) p;
         j_message := j_message j; j_logs := j_logs j |}
  | OpMarkFailure msg =>
      {| j_status := Failed; j_progress := j_progress j;
         j_message := msg; j_logs := j_logs j |}
  | OpMarkSuccess =>
      {| j_status := Success; j_progress := j_progress j;
         j_message := j_message j; j_logs := j_logs j |}
  | OpMarkCancelled msg =>
      {| j_status := Cancelled; j_progress := j_progress j;
         j_message := msg; j_logs := j_logs j |}
  | OpUpdateMessage msg =>
      {| j_status := j_status j; j_progress := j_progress j;
         j_message := msg; j_logs := j_logs j |}
  end.

Definition apply_ops (ops : list store_op) (j : job) : job :=
  fold_left (fun acc op => apply_op op acc) ops j.

(** ** Child processes and the registry of job controls *)

(** A [subprocess.Popen] handle.  What the operating system answers to the
    three calls of [_terminate_process] is fixed per handle: [terminate] or
    [kill] raising [OSError], [wait(timeout=5)] raising [TimeoutExpired]. *)
Record process := {
  pid : nat;
  terminate_raises : bool;
  wait_expires : bool;
  kill_raises : bool
}.

Inductive proc_call :=
| CallTerminate (p : nat)
| CallWait (p : nat)
| CallKill (p : nat).

(** [JobControl]; the worker thread handle plays no part in the model. *)
Record JobControl := {
  cancel_event : bool;
  proc : option process
}.

(** What the core does to the outside, in the order it does it: the
    creation of a job record, a call on the job store, the start of a
    worker thread, a call on a child process, a run of
    [_cleanup_temp_files] with its pattern. *)
Inductive effect :=
| ECreate (job_id : string)
| EStore (job_id : string) (op : store_op)
| EWorkerStart (job_id : string)
| ECall (c : proc_call)
| ECleanup (pattern : option string).

(** The state the core acts on: the job store, the table [_JOB_CONTROLS],
    the filesystem, and the journal of effects (oldest first). *)
Record world := {
  w_jobs : gmap string job;
  w_controls : gmap string JobControl;
  w_fs : filesystem;
  w_journal : list effect
}.

(** State passing. *)
Definition M (A : Type) : Type := world -> A * world.

Global Instance M_ret : MRet M := fun A a w => (a, w).
Global Instance M_bind : MBind M :=
  fun A B k m w => let (a, w') := m w in k a w'.

Definition ret {A} (a : A) : M A := mret a.

Definition when (b : bool) (m : M unit) : M unit := if b then m else ret tt.

Definition store_call (job_id : string) (op : store_op) : M unit :=
  fun w => (tt, {| w_jobs := alter (apply_op op) job_id (w_jobs w);
                   w_controls := w_controls w;
                   w_fs := w_fs w;
                   w_journal := w_journal w ++ [EStore job_id op] |}).

(** [jobs_repo.get(job_id)] *)
Definition jobs_repo_get (job_id : string) : M (option job) :=
  fun w => (w_jobs w !! job_id, w).

Definition append_job_log (job_id message : string) : M unit :=
  store_call job_id (OpAppendLog message).

Definition replace_job_log (job_id message : string) : M unit :=
  store_call job_id (OpReplaceLastLog message).

Definition _mark_job_failure (job_id message : string) : M unit :=
  store_call job_id (OpMarkFailure message).

Definition _mark_job_success (job_id : string) : M unit :=
  store_call job_id OpMarkSuccess.

Definition _mark_job_cancelled (job_id : string) : M unit :=
  store_call job_id (OpMarkCancelled "Job cancelled by user.").

Definition _job_status (job_id : string) (st : job_status) (progress : option Q)
  : M unit :=
  store_call job_id (OpStatus st progress).

Definition set_controls (f : gmap string JobControl -> gmap string JobControl)
  : M unit :=
  fun w => (tt, {| w_jobs := w_jobs w; w_controls := f (w_controls w);
                   w_fs := w_fs w; w_journal := w_journal w |}).

Definition _register_job_control (job_id : string) : M unit :=
  set_controls (insert job_id {| cancel_event := false; proc := None |}).

Definition with_process (p : option process) (c : JobControl) : JobControl :=
  {| cancel_event := cancel_event c; proc := p |}.

Definition _set_job_process (job_id : string) (p : option process) : M unit :=
  set_controls (alter (with_process p) job_id).

Definition _clear_job_process (job_id : string) : M unit :=
  set_controls (alter (with_process None) job_id).

Definition _unregister_job_control (job_id : string) : M unit :=
  set_controls (delete job_id).

Definition proc_do (c : proc_call) : M unit :=
  fun w => (tt, {| w_jobs := w_jobs w; w_controls := w_controls w;
                   w_fs := w_fs w; w_journal := w_journal w ++ [ECall c] |}).

(** [_cleanup_temp_files] as an effect on the world. *)
Definition cleanup_temp_files
    (glob : filesystem -> string -> list string) (pattern : option string)
  : M unit :=
  fun w => (tt, {| w_jobs := w_jobs w; w_controls := w_controls w;
                   w_fs := _cleanup_temp_files glob pattern (w_fs w);
                   w_journal := w_journal w ++ [ECleanup pattern] |}).

(** [_terminate_process]: [terminate()], and unless that raised, a bounded
    [wait]; [kill()] when the wait expired. *)
Definition _terminate_process (p : option process) : M unit :=
  match p with
  | None => ret tt
  | Some h =>
      proc_do (CallTerminate (pid h)) ;;
      if terminate_raises h then ret tt
      else
        proc_do (CallWait (pid h)) ;;
        if wait_expires h then proc_do (CallKill (pid h)) else ret tt
  end.

(** ** [cancel_job] *)

Record response := {
  r_code : Z;
  r_message : string;
  r_job : option job
}.

Definition is_active (st : job_status) : bool :=
  match st with Queued | Processing => true | _ => false end.

Definition set_cancel (c : JobControl) : JobControl :=
  {| cancel_event := true; proc := proc c |}.

Definition get_control (job_id : string) : M (option JobControl) :=
  fun w => (w_controls w !! job_id, w).

Definition cancel_job (job_id : string) : M response :=
  job ← jobs_repo_get job_id;
  match job with
  | None => ret {| r_code := 404; r_message := "Job not found."; r_job := None |}
  | Some j =>
      if negb (is_active (j_status j)) then
        ret {| r_code := 409;
               r_message := "Job is not active and cannot be cancelled.";
               r_job := Some j |}
      else
        control ← get_control job_id;
        match control with
        | None =>
            ret {| r_code := 409; r_message := "Job worker is no longer active.";
                   r_job := Some j |}
        | Some control =>
            let already_requested := cancel_event control in
            set_controls (insert job_id (set_cancel control)) ;;
            let process_to_terminate := proc control in
            _terminate_process process_to_terminate ;;
            let message :=
              if already_requested then "Cancellation already requested."
              else "Cancellation requested." in
            when (negb already_requested)
              (append_job_log job_id "Cancellation requested by user." ;;
               store_call job_id (OpUpdateMessage "Cancelling...")) ;;
            updated_job ← jobs_repo_get job_id;
            ret {| r_code := 202; r_message := message;
                   r_job := Some (default j updated_job) |}
        end
  end.

(** ** [posixpath] *)

Definition slash : ascii := "/"%char.

Fixpoint split_on (sep : ascii) (l : list ascii) : list (list ascii) :=
  match l with
  | [] => [[]]
  | c :: l' =>
      if Ascii.eqb c sep then [] :: split_on sep l'
      else match split_on sep l' with
           | h :: t => (c :: h) :: t
           | [] => [[c]]
           end
  end.

Fixpoint join_with (sep : list ascii) (parts : list (list ascii)) : list ascii :=
  match parts with
  | [] => []
  | [p] => p
  | p :: rest => p ++ sep ++ join_with sep rest
  end.

Definition dotdot : list ascii := chars "..".

(** The loop of [normpath] over the components; [new_comps] is kept in
    reverse (last appended first). *)
Fixpoint normpath_comps (initial_slashes : nat) (comps : list (list ascii))
    (new_comps : list (list ascii)) : list (list ascii) :=
  match comps with
  | [] => rev new_comps
  | comp :: rest =>
      if bool_decide (comp = []) || bool_decide (comp = chars ".") then
        normpath_comps initial_slashes rest new_comps
      else if negb (bool_decide (comp = dotdot))
              || (bool_decide (initial_slashes = 0%nat)
                  && bool_decide (new_comps = []))
              || match new_comps with
                 | last :: _ => bool_decide (last = dotdot)
                 | [] => false
                 end
      then normpath_comps initial_slashes rest (comp :: new_comps)
      else normpath_comps initial_slashes rest (tail new_comps)
  end.

(** [os.path.normpath] *)
Definition normpath (path : string) : string :=
  let p := chars path in
  if bool_decide (p = []) then "."
  else
    let initial_slashes : nat :=
      if prefix_chars (chars "/") p then
        if prefix_chars (chars "//") p && negb (prefix_chars (chars "///") p)
        then 2%nat else 1%nat
      else 0%nat in
    let comps := normpath_comps initial_slashes (split_on slash p) [] in
    let body := join_with [slash] comps in
    let res := repeat slash initial_slashes ++ body in
    if bool_decide (res = []) then "." else str res.

(** [os.path.join(a, b)] *)
Definition path_join (a b : string) : string :=
  if startswith b "/" then b
  else if negb (nonempty a) || endswith a "/" then a +:+ b
  else a +:+ "/" +:+ b.

Fixpoint span_not (sep : ascii) (l : list ascii) : list ascii * list ascii :=
  match l with
  | [] => ([], [])
  | c :: l' =>
      if Ascii.eqb c sep then ([], l)
      else let (a, b) := span_not sep l' in (c :: a, b)
  end.

(** [os.path.split] before the head is stripped: [(p[:i], p[i:])] with
    [i = p.rfind('/') + 1]. *)
Definition rsplit_slash (p : string) : list ascii * list ascii :=
  let (t, h) := span_not slash (rev (chars p)) in (rev h, rev t).

Fixpoint rstrip_char_rev (c : ascii) (l : list ascii) : list ascii :=
  match l with
  | x :: l' => if Ascii.eqb x c then rstrip_char_rev c l' else l
  | [] => []
  end.

(** [s.rstrip(c)] for a single character [c]. *)
Definition rstrip_char (c : ascii) (l : list ascii) : list ascii :=
  rev (rstrip_char_rev c (rev l)).

(** [os.path.dirname] *)
Definition dirname (p : string) : string :=
  let head := fst (rsplit_slash p) in
  if bool_decide (head <> []) && negb (forallb (Ascii.eqb slash) head)
  then str (rstrip_char slash head)
  else str head.

(** [os.path.basename] *)
Definition basename (p : string) : string := str (snd (rsplit_slash p)).

(** [s.replace("\\", "/")] *)
Definition backslash_to_slash (s : string) : string :=
  str (map (fun c => if Ascii.eqb c "\"%char then slash else c) (chars s)).

(** The directories [os.makedirs] creates above its argument. *)
Fixpoint ancestors (fuel : nat) (p : string) : list string :=
  match fuel with
  | O => []
  | S k =>
      let d := dirname p in
      if bool_decide (d = p) || negb (nonempty d) then []
      else d :: ancestors k d
  end.

(** [os.makedirs(p, exist_ok=True)]; [None] stands for [OSError]. *)
Definition makedirs (p : string) (fs : filesystem) : option filesystem :=
  if negb (nonempty p) || bool_decide (p ∈ fs_denied fs) then None
  else
    match fs_nodes fs !! p with
    | Some (File _) => None
    | _ =>
        Some {| fs_nodes :=
                  foldr (fun d m => match m !! d with
                                    | Some _ => m
                                    | None => <[d := Dir]> m
                                    end)
                        (fs_nodes fs) (p :: ancestors (String.length p) p);
                fs_denied := fs_denied fs |}
    end.

(** ** Configuration *)

(** One entry of [path_overrides]; a key may be missing or hold [None]. *)
Record override := {
  ov_remote : option string;
  ov_local : option string
}.

Record config := {
  radarr_url : string;
  radarr_api_key : string;
  file_paths : list string;
  path_overrides : list override;
  debug_mode : bool
}.

(** [is_configured] *)
Definition is_configured (cfg : config) : bool :=
  nonempty (radarr_url cfg) && nonempty (radarr_api_key cfg)
  && bool_decide (file_paths cfg <> []).

(** ** [resolve_movie_path] *)

(** The filesystem together with the [created] flag of
    [resolve_movie_path], which [ensure_candidate] updates. *)
Record resolver_state := {
  rs_fs : filesystem;
  rs_created : bool
}.

(** Truthiness of an [Optional[str]]. *)
Definition truthy (r : option string) : bool :=
  match r with Some s => nonempty s | None => false end.

(** The closure [ensure_candidate] of [resolve_movie_path]. *)
Definition ensure_candidate (create_if_missing : bool)
    (candidate : string) (base_dir : option string) (st : resolver_state)
  : option string * resolver_state :=
  if isdir (rs_fs st) candidate then (Some candidate, st)
  else if negb create_if_missing then (None, st)
  else
    let candidate_base :=
      if truthy base_dir then default "" base_dir else dirname candidate in
    if negb (nonempty candidate_base) || negb (isdir (rs_fs st) candidate_base)
    then (None, st)
    else
      match makedirs candidate (rs_fs st) with
      | None => (None, st)
      | Some fs' => (Some candidate, {| rs_fs := fs'; rs_created := true |})
      end.

(** The body of the loop of [_resolve_override_target] up to the call of
    [ensure_candidate]: the candidate and the base directory a rule yields
    for [normalized_original], or [None] where the loop says [continue]. *)
Definition override_candidate (normalized_original : string) (ov : override)
  : option (string * option string) :=
  let remote := strip (or_default (ov_remote ov) "") in
  let local := strip (or_default (ov_local ov) "") in
  if negb (nonempty remote) || negb (nonempty local) then None
  else
    let remote_normalized := backslash_to_slash (normpath remote) in
    let remainder :=
      if String.eqb normalized_original remote_normalized then Some ""
      else if startswith normalized_original (remote_normalized +:+ "/") then
        Some (str (drop (String.length remote_normalized + 1)
                        (chars normalized_original)))
      else None in
    match remainder with
    | None => None
    | Some remainder =>
        let candidate :=
          if nonempty remainder then normpath (path_join local remainder)
          else local in
        let base_dir :=
          if nonempty remainder then Some (dirname candidate) else None in
        Some (candidate, Some (if truthy base_dir then default "" base_dir
                               else local))
    end.

Definition ensure_fn : Type :=
  string -> option string -> resolver_state -> option string * resolver_state.

(** [_resolve_override_target] *)
Fixpoint _resolve_override_target (normalized_original : string)
    (overrides : list override) (ensure : ensure_fn) (st : resolver_state)
  : option string * resolver_state :=
  match overrides with
  | [] => (None, st)
  | ov :: rest =>
      match override_candidate normalized_original ov with
      | None => _resolve_override_target normalized_original rest ensure st
      | Some (candidate, base) =>
          let (resolved, st') := ensure candidate base st in
          if truthy resolved then (resolved, st')
          else _resolve_override_target normalized_original rest ensure st'
      end
  end.

(** [_resolve_library_target] *)
Fixpoint _resolve_library_target (folder_name : string)
    (search_paths : list string) (ensure : ensure_fn) (st : resolver_state)
  : option string * resolver_state :=
  match search_paths with
  | [] => (None, st)
  | base_path :: rest =>
      let candidate := path_join base_path folder_name in
      let (resolved, st') := ensure candidate (Some base_path) st in
      if truthy resolved then (resolved, st')
      else _resolve_library_target folder_name rest ensure st'
  end.

(** [resolve_movie_path]; the result is [((path, created), filesystem)]. *)
Definition resolve_movie_path (original_path : option string) (cfg : config)
    (create_if_missing : bool) (fs : filesystem)
  : (option string * bool) * filesystem :=
  let st0 := {| rs_fs := fs; rs_created := false |} in
  if negb (truthy original_path) then ((None, false), fs)
  else
    let normalized_path := normpath (default "" original_path) in
    let ensure := ensure_candidate create_if_missing in
    let (resolved1, st1) :=
      if isdir fs normalized_path then (Some normalized_path, st0)
      else ensure normalized_path (Some (dirname normalized_path)) st0 in
    let (resolved2, st2) :=
      match resolved1 with
      | Some _ => (resolved1, st1)
      | None =>
          let normalized_original := backslash_to_slash normalized_path in
          _resolve_override_target normalized_original (path_overrides cfg)
                                   ensure st1
      end in
    let (resolved3, st3) :=
      match resolved2 with
      | Some _ => (resolved2, st2)
      | None =>
          let folder_name :=
            basename (str (rstrip_char slash (chars normalized_path))) in
          if nonempty folder_name then
            _resolve_library_target folder_name (file_paths cfg) ensure st2
          else (None, st2)
      end in
    ((resolved3, rs_created st3), rs_fs st3).

(** ** [glob] and [fnmatch] on one directory *)

(** An entry of a directory listing ([os.scandir]); [d_exists] is what
    [os.path.exists] answers for it (false for a dangling symbolic link). *)
Record dirent := {
  d_name : string;
  d_exists : bool
}.

Definition directory := list dirent.

(** The pieces [fnmatch.translate] cuts a pattern into. *)
Inductive tok :=
| TLit (c : ascii)
| TAny
| TStar
| TClass (body : list ascii).



(** The scan [while j < n and pat[j] != ']'] of [fnmatch.translate]. *)
Fixpoint find_close (l : list ascii) : option (list ascii * list ascii) :=
  match l with
  | [] => None
  | c :: l' =>
      if Ascii.eqb c "]"%char then Some ([], l')
      else match find_close l' with
           | Some (b, r) => Some (c :: b, r)
           | None => None
           end
  end.

(** What follows an opening bracket: the body of the bracket expression
    (a leading [!] and a leading []] belong to it) and the rest of the
    pattern, or [None] when no bracket closes it. *)
Definition class_split (l : list ascii) : option (list ascii * list ascii) :=
  let (pre1, l1) :=
    match l with
    | c :: r => if Ascii.eqb c "!"%char then ([c], r) else ([], l)
    | [] => ([], l)
    end in
  let (pre2, l2) :=
    match l1 with
    | c :: r => if Ascii.eqb c "]"%char then ([c], r) else ([], l1)
    | [] => ([], l1)
    end in
  match find_close l2 with
  | Some (b, r) => Some (pre1 ++ pre2 ++ b, r)
  | None => None
  end.

Fixpoint translate_fuel (fuel : nat) (pat : list ascii) : list tok :=
  match fuel with
  | O => []
  | S k =>
      match pat with
      | [] => []
      | c :: rest =>
          if Ascii.eqb c "*"%char then TStar :: translate_fuel k rest
          else if Ascii.eqb c "?"%char then TAny :: translate_fuel k rest
          else if Ascii.eqb c "["%char then
            match class_split rest with
            | Some (body, rest') => TClass body :: translate_fuel k rest'
            | None => TLit c :: translate_fuel k rest
            end
          else TLit c :: translate_fuel k rest
      end
  end.

(** [fnmatch.translate] *)
Definition translate (pat : string) : list tok :=
  translate_fuel (String.length pat) (chars pat).

Section Fnmatch.

(** Which characters a bracket expression with the given body accepts is
    the business of the regular-expression engine; it is a parameter. *)
Variable class_match : list ascii -> ascii -> bool.

(** Matching of a whole name against a translated pattern. *)
Fixpoint match_toks (ts : list tok) (s : list ascii) : bool :=
  match ts with
  | [] => match s with [] => true | _ => false end
  | TLit c :: ts' =>
      match s with
      | c' :: s' => Ascii.eqb c c' && match_toks ts' s'
      | [] => false
      end
  | TAny :: ts' =>
      match s with
      | _ :: s' => match_toks ts' s'
      | [] => false
      end
  | TClass body :: ts' =>
      match s with
      | c' :: s' => class_match body c' && match_toks ts' s'
      | [] => false
      end
  | TStar :: ts' =>
      (fix star (s : list ascii) : bool :=
         match_toks ts' s ||
         match s with
         | [] => false
         | _ :: s' => star s'
         end) s
  end.

(** [fnmatch.fnmatch(name, pat)] ([os.path.normcase] is the identity). *)
Definition fnmatch (name pat : string) : bool :=
  match_toks (translate pat) (chars name).

(** [glob._ishidden] *)
Definition _ishidden (s : string) : bool := startswith s ".".

(** [glob._glob1]: the entries of the directory that match the pattern. *)
Definition _glob1 (dir : directory) (pattern : string) : directory :=
  let names :=
    if _ishidden pattern then dir
    else List.filter (fun d => negb (_ishidden (d_name d))) dir in
  List.filter (fun d => fnmatch (d_name d) pattern) names.

(** [any(os.path.exists(path) for path in glob_paths(os.path.join(dir,
    f"{stem}.*")))] *)
Definition stem_taken (dir : directory) (stem : string) : bool :=
  existsb d_exists (_glob1 dir (stem +:+ ".*")).

(** The candidate of round [n]: [f"{base} ({n})"]. *)
Definition suffixed (base : string) (n : nat) : string :=
  base +:+ " (" +:+ pretty n +:+ ")".

(** The [while True] loop that searches a free download stem; it yields the
    stem and the line it logs. *)
Fixpoint free_stem_loop (fuel : nat) (dir : directory)
    (download_filename_base : string) (suffix_index : nat)
  : option (string * list string) :=
  match fuel with
  | O => None
  | S k =>
      let candidate_base := suffixed download_filename_base suffix_index in
      if negb (stem_taken dir candidate_base) then
        Some (candidate_base,
              ["Selected new filename stem '" +:+ candidate_base +:+ "'."])
      else free_stem_loop k dir download_filename_base (S suffix_index)
  end.

(** The choice of the working download stem in [process_download_job],
    with the lines it logs. *)
Definition choose_download_stem (fuel : nat) (dir : directory)
    (download_filename_base : string) : option (string * list string) :=
  if stem_taken dir download_filename_base then
    match free_stem_loop fuel dir download_filename_base 1 with
    | Some (stem, logs) =>
        Some (stem,
              ("File stem '" +:+ download_filename_base +:+ "' already exists. "
               +:+ "Searching for a free filename.") :: logs)
    | None => None
    end
  else Some (download_filename_base, []).

End Fnmatch.






(** ** The logging closures of [process_download_job] *)

Definition log (job_id message : string) : M unit :=
  append_job_log job_id message.

Definition warn (job_id message : string) : M unit :=
  append_job_log job_id ("WARNING: " +:+ message).

Definition fail (job_id message : string) : M unit :=
  append_job_log job_id ("ERROR: " +:+ message) ;;
  _mark_job_failure job_id message.

Definition debug (job_id message : string) : M unit :=
  append_job_log job_id ("DEBUG: " +:+ message).

(** [acknowledge_cancellation]; the result is the new value of the
    [nonlocal] flag [cancellation_logged]. *)
Definition acknowledge_cancellation (job_id : string)
    (cancellation_logged : bool) : M bool :=
  if cancellation_logged then ret true
  else append_job_log job_id "Cancellation acknowledged; stopping job." ;;
       ret true.

(** ** Metadata entries *)

(** What [json.loads] returns. *)
#[local] Unset Elimination Schemes.
Inductive json :=
| JNull
| JBool (b : bool)
| JNum (q : Q)
| JStr (s : string)
| JArr (items : list json)
| JObj (fields : list (string * json)).
#[local] Set Elimination Schemes.

(** A parsed entry: a [dict], as its list of items. *)
Definition pydict := list (string * json).

Fixpoint dict_get (key : string) (d : pydict) : option json :=
  match d with
  | [] => None
  | (k, v) :: d' => if String.eqb k key then Some v else dict_get key d'
  end.

(** Truthiness of a JSON value. *)
Definition json_truthy (v : json) : bool :=
  match v with
  | JNull => false
  | JBool b => b
  | JNum q => negb (Qeq_bool q 0)
  | JStr s => nonempty s
  | JArr items => bool_decide (items <> [])
  | JObj fields => bool_decide (fields <> [])
  end.

(** [str(candidate.get("_type") or "video").lower()] where the value is a
    string or falsy.  For a truthy value of another JSON type [str] gives
    the text of a number, [True], or text that starts with a bracket or a
    brace: [None] stands for those, none of which names a container type. *)
Definition entry_type (candidate : pydict) : option string :=
  match dict_get "_type" candidate with
  | None => Some "video"
  | Some v =>
      if negb (json_truthy v) then Some "video"
      else match v with
           | JStr s => Some (lower s)
           | _ => None
           end
  end.

(** [entry_type in {"playlist", "multi_video", "multi"}] *)
Definition is_container (candidate : pydict) : bool :=
  match entry_type candidate with
  | Some t =>
      String.eqb t "playlist" || String.eqb t "multi_video"
      || String.eqb t "multi"
  | None => false
  end.

(** The loop [for candidate in reversed(info_entries)], given the reversed
    list: skip containers, stop at the first other entry. *)
Fixpoint first_non_container (reversed_entries : list pydict) : option pydict :=
  match reversed_entries with
  | [] => None
  | candidate :: rest =>
      if is_container candidate then first_non_container rest
      else Some candidate
  end.

(** The selection of [preferred_entry] in [process_download_job]. *)
Definition select_preferred_entry (info_entries : list pydict) : option pydict :=
  match first_non_container (rev info_entries) with
  | Some candidate => Some candidate
  | None =>
      if bool_decide (info_entries <> []) then last info_entries else None
  end.

(** [str.splitlines] on the ASCII line boundaries. *)
Definition is_linebreak (c : ascii) : bool :=
  let n := nat_of_ascii c in
  ((10 <=? n)%nat && (n <=? 13)%nat) || ((28 <=? n)%nat && (n <=? 30)%nat).

Fixpoint splitlines_chars (cur : list ascii) (l : list ascii) : list string :=
  match l with
  | [] => match cur with [] => [] | _ => [str (rev cur)] end
  | c :: l' =>
      if Ascii.eqb c "013"%char then
        match l' with
        | c' :: l'' =>
            if Ascii.eqb c' "010"%char
            then str (rev cur) :: splitlines_chars [] l''
            else str (rev cur) :: splitlines_chars [] l'
        | [] => str (rev cur) :: splitlines_chars [] l'
        end
      else if is_linebreak c then str (rev cur) :: splitlines_chars [] l'
      else splitlines_chars (c :: cur) l'
  end.

Definition splitlines (s : string) : list string := splitlines_chars [] (chars s).

(** The parsing of the probe's output into [info_entries]: one object per
    line, else the whole output as one document.  [json_loads] is
    [json.loads], with [None] for [JSONDecodeError]. *)
Definition parse_info_entries (json_loads : string -> option json)
    (info_stdout : string) : list pydict :=
  let info_entries :=
    omap (fun raw_line =>
            let stripped := strip raw_line in
            if negb (nonempty stripped) then None
            else match json_loads stripped with
                 | Some (JObj d) => Some d
                 | _ => None
                 end)
         (splitlines info_stdout) in
  if bool_decide (info_entries = []) && nonempty (strip info_stdout) then
    match json_loads info_stdout with
    | Some (JObj d) => [d]
    | _ => []
    end
  else info_entries.

(** ** The metadata probe of [process_download_job] *)

Definition METADATA_FETCH_TIMEOUT_SECONDS : Z := 120.

(** What one iteration of the supervision loop observes, in the order the
    loop asks: the cancellation flag, the monotonic clock (milliseconds
    since [start_time]), the chunks [_drain_events(0.2)] reads, whether a
    stream is still registered, [poll()], whether [wait(timeout=0.2)]
    expires, and the second drain made once the process has exited. *)
Record probe_tick := {
  t_cancel : bool;
  t_elapsed : Z;
  t_stdout : list string;
  t_stderr : list string;
  t_streams_open : bool;
  t_poll : option Z;
  t_wait_expires : bool;
  t_stdout2 : list string;
  t_stderr2 : list string;
  t_streams_open2 : bool
}.

Record probe_buffers := {
  stdout_chunks : list string;
  stderr_chunks : list string
}.

Definition drain (buf : probe_buffers) (out err : list string) : probe_buffers :=
  {| stdout_chunks := stdout_chunks buf ++ out;
     stderr_chunks := stderr_chunks buf ++ err |}.

Inductive loop_exit :=
| LoopCancelled
| LoopBroke (metadata_timed_out : bool).

Definition timeout_warning : string :=
  "yt-dlp metadata query exceeded " +:+ pretty METADATA_FETCH_TIMEOUT_SECONDS
  +:+ " seconds; " +:+ "continuing without metadata.".

(** The [while True] loop that supervises the probe.  It consumes one
    observation per iteration; [None] means the observations ran out while
    the loop was still going.  The result carries the buffers and the flag
    [cancellation_logged]. *)
Fixpoint probe_loop (job_id : string) (info_process : process)
    (ticks : list probe_tick) (buf : probe_buffers) (cancellation_logged : bool)
  : M (option (loop_exit * probe_buffers * bool)) :=
  match ticks with
  | [] => ret None
  | t :: rest =>
      if t_cancel t then
        logged ← acknowledge_cancellation job_id cancellation_logged;
        _terminate_process (Some info_process) ;;
        ret (Some (LoopCancelled, buf, logged))
      else if negb (METADATA_FETCH_TIMEOUT_SECONDS =? 0)
              && (METADATA_FETCH_TIMEOUT_SECONDS * 1000 <=? t_elapsed t) then
        warn job_id timeout_warning ;;
        _terminate_process (Some info_process) ;;
        ret (Some (LoopBroke true, buf, cancellation_logged))
      else
        let buf1 := drain buf (t_stdout t) (t_stderr t) in
        if negb (t_streams_open t) then
          match t_poll t with
          | Some _ => ret (Some (LoopBroke false, buf1, cancellation_logged))
          | None =>
              if t_wait_expires t
              then probe_loop job_id info_process rest buf1 cancellation_logged
              else ret (Some (LoopBroke false, buf1, cancellation_logged))
          end
        else
          match t_poll t with
          | Some _ =>
              let buf2 := drain buf1 (t_stdout2 t) (t_stderr2 t) in
              if negb (t_streams_open2 t)
              then ret (Some (LoopBroke false, buf2, cancellation_logged))
              else probe_loop job_id info_process rest buf2 cancellation_logged
          | None => probe_loop job_id info_process rest buf1 cancellation_logged
          end
  end.

(** The outcome of [wait(timeout=5)]. *)
Inductive wait_result :=
| WaitReturns (rc : Z)
| WaitExpired
| WaitOSError (exc : string).

(** What the probe meets outside the loop: the flag at
    [ensure_not_cancelled()], the launch ([inr exc] when [Popen] raises),
    the loop's observations, the drain of the [finally] clause, the two
    bounded waits, the attribute [returncode], and the flag after the
    probe. *)
Record probe_env := {
  e_cancel_before : bool;
  e_launch : process + string;
  e_ticks : list probe_tick;
  e_final_stdout : list string;
  e_final_stderr : list string;
  e_wait1 : wait_result;
  e_wait2 : wait_result;
  e_returncode : option Z;
  e_cancel_after : bool
}.

Record probe_output := {
  info_stdout : string;
  info_stderr : string;
  info_returncode : option Z;
  metadata_timed_out : bool
}.

Definition no_output : probe_output :=
  {| info_stdout := ""; info_stderr := ""; info_returncode := None;
     metadata_timed_out := false |}.

Definition concat_chunks (chunks : list string) : string :=
  fold_right String.append "" chunks.

(** A phase ends by the exception [JobCancelled] or goes on with a value. *)
Inductive outcome (A : Type) :=
| Raised_JobCancelled (cancellation_logged : bool)
| Went_on (a : A) (cancellation_logged : bool).
Arguments Raised_JobCancelled {A} _.
Arguments Went_on {A} _ _.

(** The [try] statement around the probe: launch, loop, final drain and
    waits, with the handler of the launch errors and the [finally] clause
    that clears the tracked process. *)
Definition run_probe (job_id : string) (env : probe_env)
    (cancellation_logged : bool) : M (option (outcome probe_output)) :=
  match e_launch env with
  | inr exc =>
      warn job_id ("Failed to query format details via yt-dlp: " +:+ exc) ;;
      _clear_job_process job_id ;;
      ret (Some (Went_on no_output cancellation_logged))
  | inl info_process =>
      _set_job_process job_id (Some info_process) ;;
      r ← probe_loop job_id info_process (e_ticks env)
            {| stdout_chunks := []; stderr_chunks := [] |} cancellation_logged;
      match r with
      | None => ret None
      | Some (LoopCancelled, _, logged) =>
          _clear_job_process job_id ;;
          ret (Some (Raised_JobCancelled logged))
      | Some (LoopBroke timed_out, buf, logged) =>
          let buf' := drain buf (e_final_stdout env) (e_final_stderr env) in
          let finish (rc : option Z) : M (option (outcome probe_output)) :=
            _clear_job_process job_id ;;
            ret (Some (Went_on
                         {| info_stdout := concat_chunks (stdout_chunks buf');
                            info_stderr := concat_chunks (stderr_chunks buf');
                            info_returncode := rc;
                            metadata_timed_out := timed_out |} logged)) in
          match e_wait1 env with
          | WaitReturns rc => finish (Some rc)
          | WaitOSError _ => finish (e_returncode env)
          | WaitExpired =>
              _terminate_process (Some info_process) ;;
              match e_wait2 env with
              | WaitReturns rc => finish (Some rc)
              | WaitExpired => finish (e_returncode env)
              | WaitOSError exc =>
                  warn job_id
                    ("Failed to query format details via yt-dlp: " +:+ exc) ;;
                  _clear_job_process job_id ;;
                  ret (Some (Went_on
                               {| info_stdout := ""; info_stderr := "";
                                  info_returncode := None;
                                  metadata_timed_out := timed_out |} logged))
              end
          end
      end
  end.

(** The five fields of the summary [_resolve_requested_format] builds. *)
Record format_summary := {
  format_id : string;
  resolution : string;
  video_codec : string;
  audio_codec : string;
  filesize : string
}.

Definition resolved_format_line (f : format_summary) : string :=
  "Resolved YouTube format: " +:+ "id=" +:+ format_id f +:+ ", "
  +:+ "resolution=" +:+ resolution f +:+ ", "
  +:+ "video_codec=" +:+ video_codec f +:+ ", "
  +:+ "audio_codec=" +:+ audio_codec f +:+ ", "
  +:+ "filesize=" +:+ filesize f.

Definition join_comma (parts : list string) : string :=
  str (join_with (chars ", ") (map chars parts)).

Fixpoint for_each {A} (l : list A) (f : A -> M unit) : M unit :=
  match l with
  | [] => ret tt
  | x :: l' => f x ;; for_each l' f
  end.

Section MetadataPhase.

(** [json.loads], [str] on the value of [_type], and
    [_resolve_requested_format] are taken as given. *)
Variable json_loads : string -> option json.
Variable py_str : json -> string.
Variable _resolve_requested_format : pydict -> format_summary.

(** Truthiness of [info_payload]. *)
Definition payload_truthy (info_payload : option pydict) : bool :=
  match info_payload with
  | Some d => bool_decide (d <> [])
  | None => false
  end.

(** From the test of the probe's return code to the line that reports the
    resolved format; the result is [(info_payload, resolved_format)], the
    empty dictionary being [None]. *)
Definition report_metadata (job_id : string) (debug_enabled : bool)
    (out : probe_output) : M (option pydict * option format_summary) :=
  res ←
    (if match info_returncode out with
        | Some rc => negb (rc =? 0)
        | None => false
        end && negb (metadata_timed_out out)
     then
       warn job_id
         ("yt-dlp metadata query exited with status "
          +:+ pretty (default 0 (info_returncode out))
          +:+ "; continuing without metadata.") ;;
       ret (None, None)
     else
       let info_entries := parse_info_entries json_loads (info_stdout out) in
       let info_payload := select_preferred_entry info_entries in
       when (bool_decide (info_entries <> []) && debug_enabled)
         (debug job_id
            ("yt-dlp metadata candidates: "
             +:+ join_comma
                   (map (fun entry =>
                           match dict_get "_type" entry with
                           | Some v => if json_truthy v then py_str v
                                       else "video"
                           | None => "video"
                           end) info_entries))) ;;
       when (nonempty (info_stderr out))
         (for_each (splitlines (strip (info_stderr out)))
            (fun line => debug job_id ("yt-dlp metadata: " +:+ line))) ;;
       when (payload_truthy info_payload)
         (log job_id "YouTube metadata retrieved successfully.") ;;
       ret (info_payload,
            if payload_truthy info_payload
            then option_map _resolve_requested_format info_payload
            else None));
  let '(info_payload, resolved_format) := res in
  match resolved_format with
  | Some f => log job_id (resolved_format_line f)
  | None =>
      log job_id
        "yt-dlp did not report a resolved format; proceeding with download."
  end ;;
  ret (info_payload, resolved_format).

(** From [resolved_format = {}] to the line that reports the resolved
    format: the metadata phase of [process_download_job]. *)
Definition metadata_phase (job_id : string) (debug_enabled : bool)
    (env : probe_env) (cancellation_logged : bool)
  : M (option (outcome (option pydict * option format_summary))) :=
  if e_cancel_before env then
    logged ← acknowledge_cancellation job_id cancellation_logged;
    ret (Some (Raised_JobCancelled logged))
  else
    log job_id "Fetching YouTube metadata to determine output naming and formats." ;;
    r ← run_probe job_id env cancellation_logged;
    match r with
    | None => ret None
    | Some (Raised_JobCancelled logged) => ret (Some (Raised_JobCancelled logged))
    | Some (Went_on out logged) =>
        if e_cancel_after env then
          logged' ← acknowledge_cancellation job_id logged;
          ret (Some (Raised_JobCancelled logged'))
        else
          res ← report_metadata job_id debug_enabled out;
          ret (Some (Went_on res logged))
    end.

End MetadataPhase.

(** ** The fetch phase of [process_download_job] *)

(** [progress_pattern = re.compile(r"(\d{1,3}(?:\.\d+)?)%")].  A match is
    the pair of the integer digits and the fraction digits of group 1. *)

Fixpoint first_some {A B} (f : A -> option B) (l : list A) : option B :=
  match l with
  | [] => None
  | x :: l' => match f x with Some b => Some b | None => first_some f l' end
  end.

Fixpoint take_digits (l : list ascii) : list ascii :=
  match l with
  | c :: l' => if is_digit c then c :: take_digits l' else []
  | [] => []
  end.

Definition starts_percent (l : list ascii) : bool :=
  match l with c :: _ => Ascii.eqb c "%"%char | [] => false end.

(** [(?:\.\d+)?%] after the integer digits: the group is tried first, its
    [\d+] from the longest run of digits down to a single one; then the
    pattern is tried without the group. *)
Definition match_fraction (after : list ascii) : option (list ascii) :=
  let with_group :=
    match after with
    | c :: r =>
        if Ascii.eqb c "."%char then
          first_some
            (fun m => if starts_percent (drop m r) then Some (take m r) else None)
            (rev (seq 1 (length (take_digits r))))
        else None
    | [] => None
    end in
  match with_group with
  | Some frac => Some frac
  | None => if starts_percent after then Some [] else None
  end.

(** A match that starts at the head of [l]: [\d{1,3}] is greedy and gives
    digits back one at a time. *)
Definition match_at (l : list ascii) : option (list ascii * list ascii) :=
  first_some
    (fun k =>
       let ds := take k l in
       if bool_decide (length ds = k) && forallb is_digit ds then
         match match_fraction (drop k l) with
         | Some frac => Some (ds, frac)
         | None => None
         end
       else None)
    [3; 2; 1]%nat.

(** [progress_pattern.search]: the leftmost position with a match. *)
Fixpoint progress_search_chars (l : list ascii) : option (list ascii * list ascii) :=
  match match_at l with
  | Some m => Some m
  | None =>
      match l with
      | [] => None
      | _ :: l' => progress_search_chars l'
      end
  end.

Definition progress_search (line : string) : option (list ascii * list ascii) :=
  progress_search_chars (chars line).

Definition digits_value (ds : list ascii) : Z :=
  fold_left (fun acc c => acc * 10 + digit_val c) ds 0.

(** [float(match.group(1))]: the number the decimal numeral denotes (the
    rounding to the nearest double is not modelled). *)
Definition decimal_value (m : list ascii * list ascii) : Q :=
  let (int_digits, frac_digits) := m in
  inject_Z (digits_value int_digits)
  + inject_Z (digits_value frac_digits) / inject_Z (10 ^ Z.of_nat (length frac_digits)).

Record fetch_local := {
  output_lines : list string;
  progress_log_active : bool
}.

Definition debug_prefixes : list string :=
  ["[debug]"; "[info]"; "[extractor]"; "[metadata]"; "[youtube]"].

(** The closure [handle_output_line]; [compact_progress_logs] is
    [not debug_enabled]. *)
Definition handle_output_line (job_id : string) (compact_progress_logs : bool)
    (text : string) (loc : fetch_local) : M fetch_local :=
  let line := strip text in
  if negb (nonempty line) then ret loc
  else
    let loc1 := {| output_lines := output_lines loc ++ [line];
                   progress_log_active := progress_log_active loc |} in
    let classify : M fetch_local :=
      let lowered := lower line in
      if contains "error" lowered then
        append_job_log job_id ("ERROR: " +:+ line) ;; ret loc1
      else if contains "warning" lowered then
        warn job_id line ;; ret loc1
      else if startswith line "[download]" || startswith line "[ffmpeg]" then
        log job_id line ;; ret loc1
      else if existsb (startswith (lower line)) debug_prefixes then
        debug job_id line ;; ret loc1
      else log job_id line ;; ret loc1 in
    match progress_search line with
    | Some m =>
        let progress_value := decimal_value m in
        _job_status job_id Processing (Some progress_value) ;;
        if startswith line "[download]" then
          if compact_progress_logs then
            if negb (progress_log_active loc1) then
              append_job_log job_id line ;;
              ret {| output_lines := output_lines loc1;
                     progress_log_active := true |}
            else
              replace_job_log job_id line ;; ret loc1
          else
            append_job_log job_id line ;; ret loc1
        else classify
    | None => classify
    end.

(** The loop [for raw_line in process.stdout]; each line comes with the
    value of the cancellation flag when it is read. *)
Fixpoint stream_output (glob : filesystem -> string -> list string)
    (job_id : string) (compact_progress_logs : bool)
    (expected_pattern : option string) (child : process)
    (lines : list (bool * string)) (loc : fetch_local)
    (cancellation_logged : bool) : M (outcome fetch_local) :=
  match lines with
  | [] => ret (Went_on loc cancellation_logged)
  | (cancelled, raw_line) :: rest =>
      if (cancelled : bool) then
        logged ← acknowledge_cancellation job_id cancellation_logged;
        proc_do (CallTerminate (pid child)) ;;
        proc_do (CallWait (pid child)) ;;
        when (wait_expires child) (proc_do (CallKill (pid child))) ;;
        cleanup_temp_files glob expected_pattern ;;
        ret (Raised_JobCancelled logged)
      else
        let line := rstrip raw_line in
        if negb (nonempty line) then
          stream_output glob job_id compact_progress_logs expected_pattern
                        child rest loc cancellation_logged
        else
          loc' ← handle_output_line job_id compact_progress_logs line loc;
          stream_output glob job_id compact_progress_logs expected_pattern
                        child rest loc' cancellation_logged
  end.

(** What the fetch meets: the flag at [ensure_not_cancelled()], the launch
    ([inr exc] when [Popen] raises), the output lines, and the code
    [process.wait()] returns. *)
Record fetch_env := {
  fe_cancel_before : bool;
  fe_launch : process + string;
  fe_lines : list (bool * string);
  fe_return_code : Z
}.

Inductive fetch_result :=
| FetchReturned            (* the job function returned after [fail] *)
| FetchCompleted (output_lines : list string).

Definition failure_summary (output_lines : list string) : string :=
  default "Download failed." (last output_lines).

(** From the line "Running yt-dlp with explicit output template." to the
    test of the return code. *)
Definition fetch_phase (glob : filesystem -> string -> list string)
    (job_id : string) (compact_progress_logs : bool)
    (expected_pattern : option string) (env : fetch_env)
    (cancellation_logged : bool) : M (outcome fetch_result) :=
  log job_id "Running yt-dlp with explicit output template." ;;
  _job_status job_id Processing (Some 20%Q) ;;
  if fe_cancel_before env then
    logged ← acknowledge_cancellation job_id cancellation_logged;
    ret (Raised_JobCancelled logged)
  else
    match fe_launch env with
    | inr exc =>
        fail job_id ("Failed to invoke yt-dlp: " +:+ exc) ;;
        _clear_job_process job_id ;;
        ret (Went_on FetchReturned cancellation_logged)
    | inl child =>
        _set_job_process job_id (Some child) ;;
        r ← stream_output glob job_id compact_progress_logs expected_pattern
              child (fe_lines env)
              {| output_lines := []; progress_log_active := false |}
              cancellation_logged;
        _clear_job_process job_id ;;
        match r with
        | Raised_JobCancelled logged => ret (Raised_JobCancelled logged)
        | Went_on loc logged =>
            let return_code := fe_return_code env in
            if negb (return_code =? 0) then
              log job_id ("yt-dlp exited with code " +:+ pretty return_code +:+ ".") ;;
              cleanup_temp_files glob expected_pattern ;;
              fail job_id
                ("Download failed: "
                 +:+ slice_to 300 (failure_summary (output_lines loc))) ;;
              ret (Went_on FetchReturned logged)
            else ret (Went_on (FetchCompleted (output_lines loc)) logged)
        end
    end.

(** ** Request validation and [create] *)

(** The JSON body of a [/create] request: the text fields ([None] when the
    key is missing or null) and the truth value of the two flags. *)
Record request_data := {
  rq_yturl : option string;
  rq_movieId : option string;
  rq_movieName : option string;
  rq_title : option string;
  rq_year : option string;
  rq_tmdb : option string;
  rq_extra : bool;
  rq_extra_name : option string;
  rq_extraType : option string;
  rq_playlist_mode : option string;
  rq_standalone : bool
}.

Record payload := {
  p_yturl : string;
  p_movieId : string;
  p_movieName : string;
  p_title : string;
  p_year : string;
  p_tmdb : string;
  p_extra : bool;
  p_extraType : string;
  p_extra_name : string;
  p_merge_playlist : bool;
  p_playlist_mode : string;
  p_standalone : bool
}.

(** The attributes of [urllib.parse.ParseResult] the validation reads. *)
Record parsed_url := {
  u_scheme : string;
  u_hostname : option string;
  u_path : string
}.

Definition ALLOWED_PLAYLIST_MODES : list string := ["single"; "merge"].

Definition allowed_hosts : list string :=
  ["youtube.com"; "www.youtube.com"; "m.youtube.com"; "youtu.be";
   "vimeo.com"; "www.vimeo.com"; "player.vimeo.com";
   "dailymotion.com"; "www.dailymotion.com"; "dai.ly"; "www.dai.ly"].

Definition is_alpha (c : ascii) : bool :=
  let n := nat_of_ascii c in
  ((65 <=? n)%nat && (n <=? 90)%nat) || ((97 <=? n)%nat && (n <=? 122)%nat).

Definition is_scheme_char (c : ascii) : bool :=
  is_alpha c || is_digit c || Ascii.eqb c "+"%char || Ascii.eqb c "."%char
  || Ascii.eqb c "-"%char.

Fixpoint drop_scheme_chars (l : list ascii) : list ascii :=
  match l with
  | c :: l' => if is_scheme_char c then drop_scheme_chars l' else l
  | [] => []
  end.

(** [re.match(r"^[a-z][a-z0-9+.-]*://", raw_url, flags=re.IGNORECASE)] *)
Definition has_scheme (raw_url : string) : bool :=
  match chars raw_url with
  | c :: l => is_alpha c && prefix_chars (chars "://") (drop_scheme_chars l)
  | [] => false
  end.

Definition url_with_scheme (raw_url : string) : string :=
  if has_scheme raw_url then raw_url else "https://" +:+ raw_url.

Section Validation.

(** [urlparse] ([None] for [ValueError]) and
    [parsed._replace(path=p).geturl()] are taken as given. *)
Variable urlparse : string -> option parsed_url.
Variable geturl_with_path : parsed_url -> string -> string.

(** The functions that take the callback [error] return, next to their
    value, the messages they pass to it, in order. *)

Definition _validate_request_urls (data : request_data) : string * list string :=
  let raw_url := strip (or_default (rq_yturl data) "") in
  if negb (nonempty raw_url) then (raw_url, ["Video URL is required."])
  else
    match urlparse (url_with_scheme raw_url) with
    | None => (raw_url, ["Please provide a valid video URL."])
    | Some parsed =>
        let hostname := lower (or_default (u_hostname parsed) "") in
        if negb (bool_decide (u_scheme parsed ∈ ["http"; "https"]))
           || negb (bool_decide (hostname ∈ allowed_hosts))
        then (raw_url, ["Only YouTube, Vimeo, or Dailymotion URLs are supported."])
        else
          let clean_path := if nonempty (u_path parsed) then u_path parsed else "/" in
          (geturl_with_path parsed clean_path, [])
    end.

Definition _validate_movie_selection (data : request_data) : string * list string :=
  let movie_id := strip (or_default (rq_movieId data) "") in
  if negb (nonempty movie_id)
  then (movie_id,
        ["No movie selected. Please choose a movie from the suggestions list."])
  else (movie_id, []).

Definition _resolve_playlist_mode (data : request_data) : string * list string :=
  let playlist_mode := lower (strip (or_default (rq_playlist_mode data) "single")) in
  if negb (bool_decide (playlist_mode ∈ ALLOWED_PLAYLIST_MODES))
  then ("single", ["Invalid playlist handling option selected."])
  else (playlist_mode, []).

Definition _resolve_extra_settings (data : request_data)
  : (bool * string * string) * list string :=
  let extra_requested := rq_extra data in
  let extra_name := strip (or_default (rq_extra_name data) "") in
  let selected_extra_type := lower (strip (or_default (rq_extraType data) "trailer")) in
  ((extra_requested, extra_name, selected_extra_type),
   if extra_requested && negb (nonempty extra_name)
   then ["Extra name is required when storing in a subfolder."]
   else []).

Definition _prepare_create_payload (data : request_data) : payload * list string :=
  let '(playlist_mode, errors1) := _resolve_playlist_mode data in
  let standalone := rq_standalone data in
  let '((extra_requested, extra_name, selected_extra_type), errors2) :=
    _resolve_extra_settings data in
  let '(extra_requested, extra_name, selected_extra_type) :=
    if standalone then (false, "", "other")
    else (extra_requested, extra_name, selected_extra_type) in
  let '(movie_id, errors3) :=
    if standalone then (strip (or_default (rq_movieId data) ""), [])
    else _validate_movie_selection data in
  let '(yturl, errors4) := _validate_request_urls data in
  ({| p_yturl := yturl;
      p_movieId := movie_id;
      p_movieName := strip (or_default (rq_movieName data) "");
      p_title := strip (or_default (rq_title data) "");
      p_year := strip (or_default (rq_year data) "");
      p_tmdb := strip (or_default (rq_tmdb data) "");
      p_extra := extra_requested;
      p_extraType := selected_extra_type;
      p_extra_name := extra_name;
      p_merge_playlist := String.eqb playlist_mode "merge";
      p_playlist_mode := playlist_mode;
      p_standalone := standalone |},
   errors1 ++ errors2 ++ errors3 ++ errors4).

Inductive create_response :=
| CreateRejected (code : Z) (logs : list string)
| CreateAccepted (job_id : string) (request : payload).

(** [jobs_repo.create] of the queued record. *)
Definition jobs_repo_create (job_id : string) : M unit :=
  fun w => (tt, {| w_jobs := <[job_id :=
                                {| j_status := Queued; j_progress := 0%Q;
                                   j_message := "";
                                   j_logs := ["Job queued."] |}]> (w_jobs w);
                   w_controls := w_controls w;
                   w_fs := w_fs w;
                   w_journal := w_journal w ++ [ECreate job_id] |}).

(** [worker.start()] *)
Definition worker_start (job_id : string) : M unit :=
  fun w => (tt, {| w_jobs := w_jobs w; w_controls := w_controls w;
                   w_fs := w_fs w;
                   w_journal := w_journal w ++ [EWorkerStart job_id] |}).

(** The view [create]; [job_id] is the fresh [uuid4]. *)
Definition create (cfg : config) (data : request_data) (job_id : string)
  : M create_response :=
  if negb (is_configured cfg) then
    ret (CreateRejected 503 ["ERROR: Application has not been configured yet."])
  else
    let (request, errors) := _prepare_create_payload data in
    if bool_decide (errors <> []) then
      ret (CreateRejected 400 (map (fun message => "ERROR: " +:+ message) errors))
    else
      jobs_repo_create job_id ;;
      _register_job_control job_id ;;
      worker_start job_id ;;
      ret (CreateAccepted job_id request).

End Validation.

(** ** Notions used in the statements *)

(** The calls [_terminate_process] makes on a handle. *)
Definition terminate_calls (p : option process) : list proc_call :=
  match p with
  | None => []
  | Some h =>
      CallTerminate (pid h) ::
      (if terminate_raises h then []
       else CallWait (pid h) ::
            (if wait_expires h then [CallKill (pid h)] else []))
  end.

(** A job whose cancellation was requested while a child is attached. *)
Definition cancelling_child : process :=
  {| pid := 7; terminate_raises := false; wait_expires := false;
     kill_raises := false |}.

Definition empty_fs : filesystem := {| fs_nodes := ∅; fs_denied := ∅ |}.

Definition cancelling_world : world :=
  {| w_jobs := {[ "job-1" := {| j_status := Processing; j_progress := 20%Q;
                                j_message := "Cancelling...";
                                j_logs := ["Job queued.";
                                           "Cancellation requested by user."] |} ]};
     w_controls := {[ "job-1" := {| cancel_event := true;
                                    proc := Some cancelling_child |} ]};
     w_fs := empty_fs;
     w_journal := [] |}.

(** The test [leftover.endswith((".part", ".ytdl"))]. *)
Definition is_fragment (p : string) : bool :=
  endswith p ".part" || endswith p ".ytdl".

(** One round of the loop of [_cleanup_temp_files]. *)
Definition cleanup_step (fs : filesystem) (leftover : string) : filesystem :=
  if endswith leftover ".part" || endswith leftover ".ytdl" then
    match os_remove leftover fs with
    | Some fs' => fs'
    | None => fs
    end
  else fs.

(** A library folder with a finished film, its two fragments, and a
    directory whose name ends like a fragment. *)
Definition fragments_fs : filesystem :=
  {| fs_nodes := {[ "/lib/Alpha.mp4" := File "film";
                    "/lib/Alpha.mp4.part" := File "half";
                    "/lib/Alpha.mp4.ytdl" := File "state";
                    "/lib/old.part" := Dir ]};
     fs_denied := ∅ |}.

Definition fragments_glob (fs : filesystem) (pattern : string) : list string :=
  ["/lib/Alpha.mp4"; "/lib/Alpha.mp4.part"; "/lib/Alpha.mp4.ytdl"; "/lib/old.part"].

(** The selection rule in the words of the specification: the last entry
    whose type is not a container, else the last entry, else none. *)
Definition last_non_container_else_last (entries : list pydict) : option pydict :=
  match last (List.filter (fun e => negb (is_container e)) entries) with
  | Some e => Some e
  | None => last entries
  end.

Definition video_entry : pydict := [("_type", JStr "video"); ("title", JStr "Alpha")].
Definition playlist_entry : pydict := [("_type", JStr "Playlist")].
Definition untyped_entry : pydict := [("title", JStr "Beta")].

(** The first number from [n] on, within [fuel] rounds, that is not busy:
    the shape both collision loops share. *)
Fixpoint first_free (busy : nat -> bool) (fuel n : nat) : option nat :=
  match fuel with
  | O => None
  | S k => if negb (busy n) then Some n else first_free busy k (S n)
  end.




(** A folder that already holds the film and a fragment of an earlier
    numbered download. *)
Definition alpha_dir : directory :=
  [ {| d_name := "Alpha (2020) {tmdb-1}.mp4"; d_exists := true |};
    {| d_name := "Alpha (2020) {tmdb-1} (1).part"; d_exists := true |} ].

Definition no_classes : list ascii -> ascii -> bool := fun _ _ => false.

(** A candidate with the base directory handed to [ensure_candidate]. *)
Definition attempt : Type := string * option string.

(** The attempts the rewrite rules yield, in the order of the rules. *)
Fixpoint override_attempts (normalized_original : string)
    (overrides : list override) : list attempt :=
  match overrides with
  | [] => []
  | ov :: rest =>
      match override_candidate normalized_original ov with
      | Some a => a :: override_attempts normalized_original rest
      | None => override_attempts normalized_original rest
      end
  end.

(** The attempts under the library roots, in the order of the roots. *)
Definition library_attempts (folder_name : string) (search_paths : list string)
  : list attempt :=
  map (fun base_path => (path_join base_path folder_name, Some base_path))
      search_paths.

(** Try the attempts in order and stop at the first that resolves. *)
Fixpoint first_resolved (ensure : ensure_fn) (attempts : list attempt)
    (st : resolver_state) : option string * resolver_state :=
  match attempts with
  | [] => (None, st)
  | (candidate, base) :: rest =>
      let (resolved, st') := ensure candidate base st in
      if truthy resolved then (resolved, st')
      else first_resolved ensure rest st'
  end.

(** All the attempts of [resolve_movie_path] for a path, in order: the
    path itself, the rewritten candidates, the folder under each root. *)
Definition all_attempts (original_path : string) (cfg : config) : list attempt :=
  let normalized_path := normpath original_path in
  let folder_name := basename (str (rstrip_char slash (chars normalized_path))) in
  (normalized_path, Some (dirname normalized_path))
  :: override_attempts (backslash_to_slash normalized_path) (path_overrides cfg)
  ++ (if nonempty folder_name
      then library_attempts folder_name (file_paths cfg) else []).

(** Two rewrite rules that both match [/movies/hd/Alpha]; the second has
    the longer remote prefix.  Both rewritten folders exist. *)
Definition nested_rules : config :=
  {| radarr_url := "http://radarr:7878"; radarr_api_key := "key";
     file_paths := ["/library"];
     path_overrides := [ {| ov_remote := Some "/movies";
                            ov_local := Some "/mnt/a" |};
                         {| ov_remote := Some "/movies/hd";
                            ov_local := Some "/mnt/b" |} ];
     debug_mode := false |}.

Definition nested_fs : filesystem :=
  {| fs_nodes := {[ "/mnt/a" := Dir; "/mnt/a/hd" := Dir;
                    "/mnt/a/hd/Alpha" := Dir;
                    "/mnt/b" := Dir; "/mnt/b/Alpha" := Dir;
                    "/library" := Dir ]};
     fs_denied := ∅ |}.

(** The world after the calls [ops] on the record of [job_id]. *)
Definition run_ops (job_id : string) (ops : list store_op) (w : world) : world :=
  {| w_jobs := alter (apply_ops ops) job_id (w_jobs w);
     w_controls := w_controls w;
     w_fs := w_fs w;
     w_journal := w_journal w ++ map (EStore job_id) ops |}.

(** The log call a line gets when it is not handled as download progress. *)
Definition classify_op (line : string) : store_op :=
  let lowered := lower line in
  if contains "error" lowered then OpAppendLog ("ERROR: " +:+ line)
  else if contains "warning" lowered then OpAppendLog ("WARNING: " +:+ line)
  else if startswith line "[download]" || startswith line "[ffmpeg]"
  then OpAppendLog line
  else if existsb (startswith (lower line)) debug_prefixes
  then OpAppendLog ("DEBUG: " +:+ line)
  else OpAppendLog line.

(** The store calls [handle_output_line] makes for a line, and the local
    state it leaves. *)
Definition line_ops (compact_progress_logs : bool) (loc : fetch_local)
    (text : string) : list store_op * fetch_local :=
  let line := strip text in
  if negb (nonempty line) then ([], loc)
  else
    let loc1 := {| output_lines := output_lines loc ++ [line];
                   progress_log_active := progress_log_active loc |} in
    match progress_search line with
    | Some m =>
        let status := OpStatus Processing (Some (decimal_value m)) in
        if startswith line "[download]" then
          if compact_progress_logs then
            if negb (progress_log_active loc) then
              ([status; OpAppendLog line],
               {| output_lines := output_lines loc1; progress_log_active := true |})
            else ([status; OpReplaceLastLog line], loc1)
          else ([status; OpAppendLog line], loc1)
        else ([status; classify_op line], loc1)
    | None => ([classify_op line], loc1)
    end.

(** The store calls of the loop over the child's output when no
    cancellation is seen. *)
Fixpoint stream_ops (compact : bool) (loc : fetch_local)
    (raw_lines : list string) : list store_op * fetch_local :=
  match raw_lines with
  | [] => ([], loc)
  | raw_line :: rest =>
      let line := rstrip raw_line in
      if negb (nonempty line) then stream_ops compact loc rest
      else
        let (ops, loc') := line_ops compact loc line in
        let (ops', loc'') := stream_ops compact loc' rest in
        (ops ++ ops', loc'')
  end.

(** A fresh fetch of a job that is being processed. *)
Definition fetching_world : world :=
  {| w_jobs := {[ "job-1" := {| j_status := Processing; j_progress := 20%Q;
                                j_message := "";
                                j_logs := ["Job queued.";
                                           "Running yt-dlp with explicit output template."] |} ]};
     w_controls := {[ "job-1" := {| cancel_event := false; proc := None |} ]};
     w_fs := empty_fs;
     w_journal := [] |}.

Definition fresh_fetch : fetch_local :=
  {| output_lines := []; progress_log_active := false |}.

(** A line [handle_output_line] treats as download progress: it is not
    blank, a percentage is found in it, and it starts with [[download]]. *)
Definition is_progress_line (text : string) : bool :=
  nonempty (strip text)
  && bool_decide (progress_search (strip text) <> None)
  && startswith (strip text) "[download]".

Definition progress_of (text : string) : Q :=
  match progress_search (strip text) with
  | Some m => decimal_value m
  | None => 0%Q
  end.

(** The calls on the log among the store calls. *)
Definition is_log_op (op : store_op) : bool :=
  match op with
  | OpAppendLog _ | OpReplaceLastLog _ => true
  | _ => false
  end.

Definition log_ops (ops : list store_op) : list store_op :=
  List.filter is_log_op ops.

(** The store calls for a sequence of lines handed to
    [handle_output_line] one after the other. *)
Fixpoint lines_ops (compact : bool) (loc : fetch_local) (texts : list string)
  : list store_op * fetch_local :=
  match texts with
  | [] => ([], loc)
  | text :: rest =>
      let (ops, loc') := line_ops compact loc text in
      let (ops', loc'') := lines_ops compact loc' rest in
      (ops ++ ops', loc'')
  end.

Definition fetch_child : process :=
  {| pid := 11; terminate_raises := false; wait_expires := false;
     kill_raises := false |}.

Definition no_glob (fs : filesystem) (pattern : string) : list string := [].

(** The output of a download in two streams: progress of the first
    stream, the destination of the second, progress of the second. *)
Definition two_stream_output : list (bool * string) :=
  [(false, "[download]  50.0% of 10.00MiB at 1.00MiB/s ETA 00:05");
   (false, "[download] Destination: Alpha.f140.m4a");
   (false, "[download]  10.0% of 3.00MiB at 1.00MiB/s ETA 00:02")].




(** The calls [calls] on a child process, added to the journal. *)
Definition run_calls (calls : list proc_call) (w : world) : world :=
  {| w_jobs := w_jobs w; w_controls := w_controls w; w_fs := w_fs w;
     w_journal := w_journal w ++ map ECall calls |}.

(** An iteration of the supervision loop after which the loop goes on:
    no cancellation, the budget not used up, and no [break]. *)
Definition tick_continues (t : probe_tick) : bool :=
  negb (t_cancel t)
  && (t_elapsed t <? METADATA_FETCH_TIMEOUT_SECONDS * 1000)
  && (if t_streams_open t
      then match t_poll t with Some _ => t_streams_open2 t | None => true end
      else match t_poll t with Some _ => false | None => t_wait_expires t end).

(** The buffers after such an iteration. *)
Definition tick_buffers (buf : probe_buffers) (t : probe_tick) : probe_buffers :=
  let buf1 := drain buf (t_stdout t) (t_stderr t) in
  if t_streams_open t then
    match t_poll t with
    | Some _ => drain buf1 (t_stdout2 t) (t_stderr2 t)
    | None => buf1
    end
  else buf1.

(** The iteration that finds the budget used up. *)
Definition tick_times_out (t : probe_tick) : bool :=
  negb (t_cancel t) && (METADATA_FETCH_TIMEOUT_SECONDS * 1000 <=? t_elapsed t).

(** What the two bounded waits after the loop add to the journal. *)
Definition wait_effects (job_id : string) (p : process) (env : probe_env)
  : list effect :=
  match e_wait1 env with
  | WaitExpired =>
      map ECall (terminate_calls (Some p))
      ++ match e_wait2 env with
         | WaitOSError exc =>
             [EStore job_id
                (OpAppendLog ("WARNING: "
                              +:+ "Failed to query format details via yt-dlp: "
                              +:+ exc))]
         | _ => []
         end
  | _ => []
  end.

(** Runs that mix store calls, process calls and updates of the table of
    controls: the journal grows by [effs], the record of [job_id] takes
    the store calls among them, the table becomes [controls]. *)
Definition store_ops_of (effs : list effect) : list store_op :=
  flat_map (fun e => match e with EStore _ op => [op] | _ => [] end) effs.

Definition run_effects (job_id : string) (effs : list effect)
    (controls : gmap string JobControl) (w : world) : world :=
  {| w_jobs := alter (apply_ops (store_ops_of effs)) job_id (w_jobs w);
     w_controls := controls;
     w_fs := w_fs w;
     w_journal := w_journal w ++ effs |}.

Definition is_append (op : store_op) : bool :=
  match op with OpAppendLog _ => true | _ => false end.

(** The lines the report on the probe appends to the log when the probe
    has timed out, and the value it returns. *)
Definition report_result (json_loads : string -> option json)
    (_resolve_requested_format : pydict -> format_summary)
    (out : probe_output) : option pydict * option format_summary :=
  let info_payload :=
    select_preferred_entry (parse_info_entries json_loads (info_stdout out)) in
  (info_payload,
   if payload_truthy info_payload
   then option_map _resolve_requested_format info_payload else None).

Definition report_lines (json_loads : string -> option json)
    (py_str : json -> string)
    (_resolve_requested_format : pydict -> format_summary)
    (debug_enabled : bool) (out : probe_output) : list string :=
  let info_entries := parse_info_entries json_loads (info_stdout out) in
  let res := report_result json_loads _resolve_requested_format out in
  (if bool_decide (info_entries <> []) && debug_enabled
   then ["DEBUG: " +:+ "yt-dlp metadata candidates: "
         +:+ join_comma
               (map (fun entry =>
                       match dict_get "_type" entry with
                       | Some v => if json_truthy v then py_str v else "video"
                       | None => "video"
                       end) info_entries)]
   else [])
  ++ (if nonempty (info_stderr out)
      then map (fun line => "DEBUG: " +:+ "yt-dlp metadata: " +:+ line)
               (splitlines (strip (info_stderr out)))
      else [])
  ++ (if payload_truthy res.1
      then ["YouTube metadata retrieved successfully."] else [])
  ++ [match res.2 with
      | Some f => resolved_format_line f
      | None => "yt-dlp did not report a resolved format; proceeding with download."
      end].

Definition no_chunks : probe_buffers :=
  {| stdout_chunks := []; stderr_chunks := [] |}.

(** What the probe hands on when the loop ended by the timeout after the
    iterations [before]. *)
Definition timeout_output (env : probe_env) (before : list probe_tick)
  : probe_output :=
  let buf := drain (fold_left tick_buffers before no_chunks)
                   (e_final_stdout env) (e_final_stderr env) in
  let collected (rc : option Z) :=
    {| info_stdout := concat_chunks (stdout_chunks buf);
       info_stderr := concat_chunks (stderr_chunks buf);
       info_returncode := rc;
       metadata_timed_out := true |} in
  match e_wait1 env with
  | WaitReturns rc => collected (Some rc)
  | WaitOSError _ => collected (e_returncode env)
  | WaitExpired =>
      match e_wait2 env with
      | WaitReturns rc => collected (Some rc)
      | WaitExpired => collected (e_returncode env)
      | WaitOSError _ =>
          {| info_stdout := ""; info_stderr := ""; info_returncode := None;
             metadata_timed_out := true |}
      end
  end.

Definition timeout_line : string := "WARNING: " +:+ timeout_warning.

(** A log line that is a warning, and the one that reports the timeout. *)
Definition is_warning (e : effect) : bool :=
  match e with
  | EStore _ (OpAppendLog line) => startswith line "WARNING: "
  | _ => false
  end.

Definition is_timeout_warning (e : effect) : bool :=
  match e with
  | EStore _ (OpAppendLog line) => String.eqb line timeout_line
  | _ => false
  end.

(** The journal of the metadata phase when the probe times out. *)
Definition timeout_delta (job_id : string) (p : process) (env : probe_env)
    (lines : list string) : list effect :=
  [EStore job_id
     (OpAppendLog "Fetching YouTube metadata to determine output naming and formats.");
   EStore job_id (OpAppendLog timeout_line)]
  ++ map ECall (terminate_calls (Some p))
  ++ wait_effects job_id p env
  ++ map (fun l => EStore job_id (OpAppendLog l)) lines.

(** A probe that never terminates: two iterations that read a chunk each,
    then the iteration that finds the 120 seconds used up. *)
Definition quiet_tick (elapsed : Z) (chunk : string) : probe_tick :=
  {| t_cancel := false; t_elapsed := elapsed;
     t_stdout := [chunk]; t_stderr := [];
     t_streams_open := true; t_poll := None; t_wait_expires := true;
     t_stdout2 := []; t_stderr2 := []; t_streams_open2 := true |}.

Definition probe_child : process :=
  {| pid := 5; terminate_raises := false; wait_expires := false;
     kill_raises := false |}.

Definition hanging_probe : probe_env :=
  {| e_cancel_before := false;
     e_launch := inl probe_child;
     e_ticks := [quiet_tick 200 "{"; quiet_tick 60000 ""; quiet_tick 120000 ""];
     e_final_stdout := []; e_final_stderr := [];
     e_wait1 := WaitReturns (-15);
     e_wait2 := WaitExpired;
     e_returncode := None;
     e_cancel_after := false |}.

Definition no_json (s : string) : option json := None.
Definition plain_str (v : json) : string :=
  match v with JStr s => s | _ => "" end.
Definition unknown_format (d : pydict) : format_summary :=
  {| format_id := "unknown"; resolution := "unknown";
     video_codec := "unknown"; audio_codec := "unknown";
     filesize := "unknown" |}.

(** A parser good enough for plain absolute URLs: the scheme is the text
    before [://], the host the text up to the next slash. *)
Definition simple_urlparse (url : string) : option parsed_url :=
  let l := chars url in
  let (scheme, rest) := span_not ":"%char l in
  if prefix_chars (chars "://") rest then
    let (host, path) := span_not slash (drop 3 rest) in
    Some {| u_scheme := lower (str scheme);
            u_hostname := if bool_decide (host = []) then None
                          else Some (lower (str host));
            u_path := str path |}
  else None.

Definition simple_geturl (parsed : parsed_url) (path : string) : string :=
  u_scheme parsed +:+ "://" +:+ or_default (u_hostname parsed) "" +:+ path.

Definition configured : config :=
  {| radarr_url := "http://radarr:7878"; radarr_api_key := "key";
     file_paths := ["/library"]; path_overrides := []; debug_mode := false |}.

Definition request_for (url : string) : request_data :=
  {| rq_yturl := Some url; rq_movieId := Some "12"; rq_movieName := None;
     rq_title := None; rq_year := None; rq_tmdb := None;
     rq_extra := false; rq_extra_name := None; rq_extraType := None;
     rq_playlist_mode := None; rq_standalone := false |}.

Definition idle_world : world :=
  {| w_jobs := ∅; w_controls := ∅; w_fs := empty_fs; w_journal := [] |}.

(** The URL of the request is empty, or its scheme is neither [http] nor
    [https], or its host is not on the allow-list. *)
Definition url_invalid (urlparse : string -> option parsed_url)
    (data : request_data) : Prop :=
  let raw_url := strip (or_default (rq_yturl data) "") in
  raw_url = ""
  \/ exists parsed,
       urlparse (url_with_scheme raw_url) = Some parsed
       /\ (u_scheme parsed ∉ ["http"; "https"]
           \/ lower (or_default (u_hostname parsed) "") ∉ allowed_hosts).

(** ** File names: [sanitize_filename] and [build_movie_stem] *)

(** The characters of the class in the pattern of [sanitize_filename]:
    backslash, slash, colon, star, question mark, double quote, the angle
    brackets and the vertical bar. *)
Definition forbidden_chars : list ascii :=
  ["\"%char; "/"%char; ":"%char; "*"%char; "?"%char; "034"%char;
   "<"%char; ">"%char; "|"%char].

Definition is_forbidden (c : ascii) : bool :=
  existsb (Ascii.eqb c) forbidden_chars.

(** [re.sub] of the class repeated one or more times: every maximal run of
    class characters becomes one underscore.  [in_run] tells that the
    previous character belonged to a run. *)
Fixpoint sub_forbidden (in_run : bool) (l : list ascii) : list ascii :=
  match l with
  | [] => []
  | c :: l' =>
      if is_forbidden c then
        if in_run then sub_forbidden true l'
        else "_"%char :: sub_forbidden true l'
      else c :: sub_forbidden false l'
  end.

(** [sanitize_filename] *)
Definition sanitize_filename (name : string) : string :=
  let sanitized := sub_forbidden false (chars name) in
  str (rstrip_char "."%char (rstrip_chars (lstrip_chars sanitized))).

(** [" ".join(parts)] *)
Definition join_space (parts : list string) : string :=
  str (join_with (chars " ") (map chars parts)).

Section MovieStem.

(** [str] of a JSON value is taken as given. *)
Variable py_str : json -> string.

(** [str(d.get(key) or fallback)] *)
Definition get_str_or (d : pydict) (key fallback : string) : string :=
  match dict_get key d with
  | Some v => if json_truthy v then py_str v else fallback
  | None => fallback
  end.

(** [build_movie_stem] *)
Definition build_movie_stem (movie : pydict) : string :=
  let title := strip (get_str_or movie "title" "Movie") in
  let year := strip (get_str_or movie "year" "") in
  let tmdb_id := strip (get_str_or movie "tmdbId" "") in
  let parts :=
    [title]
    ++ (if nonempty year then ["(" +:+ year +:+ ")"] else [])
    ++ (if nonempty tmdb_id then ["{tmdb-" +:+ tmdb_id +:+ "}"] else []) in
  let stem := join_space parts in
  let cleaned := sanitize_filename stem in
  if nonempty cleaned then cleaned else "Movie".

End MovieStem.

(** A name is clean when it holds no character of the class, neither
    starts nor ends with white space, and does not end with a dot. *)
Definition has_forbidden (s : string) : bool := existsb is_forbidden (chars s).

Definition starts_with_space (s : string) : bool :=
  match chars s with c :: _ => py_isspace c | [] => false end.

(** ** [_filter_logs_for_display] *)

Definition _NOISY_WARNING_SNIPPETS : list string :=
  ["[youtube]";
   "sabr streaming";
   "web client https formats have been skipped";
   "web_safari client https formats have been skipped";
   "tv client https formats have been skipped"].

Definition _ESSENTIAL_PHRASES : list string :=
  ["success! video saved";
   "renaming downloaded file";
   "treating video as main video file";
   "storing video in subfolder";
   "created movie folder";
   "fetching radarr details";
   "resolved youtube format";
   "merging playlist videos"].

(** The prefixes of the third test of the loop. *)
Definition display_prefixes : list string :=
  ["error:"; "warning:"; "[download]"; "[ffmpeg]"; "[merger]"].

(** The body of the loop of [_filter_logs_for_display] for one entry:
    [Some trimmed] where the loop appends, [None] where it goes on to the
    next entry. *)
Definition display_line (debug_mode : bool) (raw : string) : option string :=
  let trimmed := strip raw in
  if negb (nonempty trimmed) then None
  else if debug_mode then Some trimmed
  else
    let lowered := lower trimmed in
    if startswith lowered "debug:" then None
    else if startswith lowered "warning:"
            && existsb (fun snippet => contains snippet lowered)
                       _NOISY_WARNING_SNIPPETS
    then None
    else if existsb (startswith lowered) display_prefixes then Some trimmed
    else if existsb (fun phrase => contains phrase lowered) _ESSENTIAL_PHRASES
    then Some trimmed
    else None.

Fixpoint _filter_logs_for_display (logs : list string) (debug_mode : bool)
  : list string :=
  match logs with
  | [] => []
  | raw :: rest =>
      match display_line debug_mode raw with
      | Some trimmed => trimmed :: _filter_logs_for_display rest debug_mode
      | None => _filter_logs_for_display rest debug_mode
      end
  end.



(** ** Notions used in the statements on [cancel_job] and [create] *)

(** The store calls of [cancel_job], which are made only when the flag was
    not yet set. *)
Definition cancel_request_ops (already_requested : bool) : list store_op :=
  if already_requested then []
  else [OpAppendLog "Cancellation requested by user.";
        OpUpdateMessage "Cancelling..."].

(** The record [create] hands to [jobs_repo.create]. *)
Definition queued_record : job :=
  {| j_status := Queued; j_progress := 0%Q; j_message := "";
     j_logs := ["Job queued."] |}.

(** ** The end of [process_download_job] *)

(** [try: os.remove(p)] with [except OSError: continue]. *)
Definition remove_quietly (p : string) : M unit :=
  fun w => (tt, {| w_jobs := w_jobs w; w_controls := w_controls w;
                   w_fs := default (w_fs w) (os_remove p (w_fs w));
                   w_journal := w_journal w |}).

(** [_cleanup_playlist_dir]; [rmtree] is [shutil.rmtree] with
    [ignore_errors=True], taken as given. *)
Definition _cleanup_playlist_dir (rmtree : string -> filesystem -> filesystem)
    (path : option string) : M unit :=
  fun w =>
    if truthy path && isdir (w_fs w) (default "" path) then
      (tt, {| w_jobs := w_jobs w; w_controls := w_controls w;
              w_fs := rmtree (default "" path) (w_fs w);
              w_journal := w_journal w |})
    else (tt, w).

(** The handler [except JobCancelled] of [process_download_job], with the
    values of the variables it reads. *)
Definition job_cancelled_handler (glob : filesystem -> string -> list string)
    (rmtree : string -> filesystem -> filesystem) (job_id : string)
    (expected_pattern : option string) (downloaded_candidates : list string)
    (playlist_temp_dir : option string) : M unit :=
  cleanup_temp_files glob expected_pattern ;;
  for_each downloaded_candidates remove_quietly ;;
  _cleanup_playlist_dir rmtree playlist_temp_dir ;;
  append_job_log job_id "Job cancelled." ;;
  _mark_job_cancelled job_id.

(** The clause [finally] of [process_download_job]. *)
Definition job_finally (job_id : string) : M unit :=
  _clear_job_process job_id ;;
  _unregister_job_control job_id.

(** The last three statements of the [try] block. *)
Definition report_success (job_id target_path : string) : M unit :=
  _job_status job_id Processing (Some 100%Q) ;;
  log job_id ("Success! Video saved as '" +:+ target_path +:+ "'.") ;;
  _mark_job_success job_id.


(** The two store calls at the start of the fetch phase. *)
Definition fetch_start_ops : list store_op :=
  [OpAppendLog "Running yt-dlp with explicit output template.";
   OpStatus Processing (Some 20%Q)].

(** The calls of the loop on the child when it sees the cancel flag;
    unlike [_terminate_process] it waits even when [terminate] raised. *)
Definition stream_cancel_calls (child : process) : list proc_call :=
  [CallTerminate (pid child); CallWait (pid child)]
  ++ (if wait_expires child then [CallKill (pid child)] else []).

Definition acknowledge_ops (cancellation_logged : bool) : list store_op :=
  if cancellation_logged then []
  else [OpAppendLog "Cancellation acknowledged; stopping job."].

(** A fetch that is cancelled after its first progress line. *)
Definition cancelled_fetch : fetch_env :=
  {| fe_cancel_before := false;
     fe_launch := inl fetch_child;
     fe_lines := [(false, "[download]  12.0% of 10.00MiB");
                  (true, "[download]  13.0% of 10.00MiB");
                  (false, "[download]  14.0% of 10.00MiB")];
     fe_return_code := 0 |}.


Definition failed_launch : fetch_env :=
  {| fe_cancel_before := false;
     fe_launch := inr "[Errno 2] No such file or directory: 'yt-dlp'";
     fe_lines := [];
     fe_return_code := 0 |}.

Definition no_rmtree (p : string) (fs : filesystem) : filesystem := fs.

(** ** The setup form: [normalize_paths], [parse_path_overrides],
    [normalize_path_overrides] *)

(** [cleaned.split(separator, 1)] for a separator that occurs in
    [cleaned]: the text before its first occurrence and the text after
    it. *)
Fixpoint split_once_chars (sep l : list ascii) : list ascii * list ascii :=
  if prefix_chars sep l then ([], drop (length sep) l)
  else match l with
       | [] => ([], [])
       | c :: l' => let (a, b) := split_once_chars sep l' in (c :: a, b)
       end.

(** The loop of [_split_override_line] over its separators. *)
Fixpoint _split_override_line_from (separators : list string) (cleaned : string)
  : option (string * string) :=
  match separators with
  | [] => None
  | separator :: rest =>
      if contains separator cleaned then
        let (remote_raw, local_raw) :=
          split_once_chars (chars separator) (chars cleaned) in
        Some (strip (str remote_raw), strip (str local_raw))
      else _split_override_line_from rest cleaned
  end.

Definition _split_override_line (cleaned : string) : option (string * string) :=
  _split_override_line_from ["=>"; "->"; ","] cleaned.

(** [s.rstrip("/\\")] *)
Definition is_slash_or_backslash (c : ascii) : bool :=
  Ascii.eqb c "/"%char || Ascii.eqb c "\"%char.

Fixpoint lstrip_slashes (l : list ascii) : list ascii :=
  match l with
  | c :: l' => if is_slash_or_backslash c then lstrip_slashes l' else l
  | [] => []
  end.

Definition rstrip_slashes (s : string) : string :=
  str (rev (lstrip_slashes (rev (chars s)))).

(** One line of the text the setup page shows for the configured rules. *)
Definition override_line (item : override) : string :=
  default "" (ov_remote item) +:+ " => " +:+ default "" (ov_local item).

(** ["\n".join(lines)] *)
Definition join_lines (lines : list string) : string :=
  str (join_with ["010"%char] (map chars lines)).

(** [overrides_text] of [setup] for a configuration whose rules hold both
    keys. *)
Definition overrides_text (overrides : list override) : string :=
  join_lines (map override_line overrides).

Section Setup.

(** [os.path.abspath(os.path.expanduser(p))] and [repr] of a string are
    taken as given. *)
Variable expand_path : string -> string.
Variable py_repr : string -> string.

(** The loop of [normalize_paths]; [paths] is the list built so far. *)
Fixpoint normalize_paths_loop (lines : list string) (paths : list string)
  : list string :=
  match lines with
  | [] => paths
  | line :: rest =>
      let cleaned := strip line in
      if negb (nonempty cleaned) then normalize_paths_loop rest paths
      else
        let expanded := expand_path cleaned in
        if bool_decide (expanded ∈ paths) then normalize_paths_loop rest paths
        else normalize_paths_loop rest (paths ++ [expanded])
  end.

Definition normalize_paths (raw_paths : string) : list string :=
  normalize_paths_loop (splitlines raw_paths) [].

(** The loop of [parse_path_overrides]; [line_number] counts from 1. *)
Fixpoint parse_override_lines (line_number : nat) (lines : list string)
    (overrides : list override) (errors : list string)
  : list override * list string :=
  match lines with
  | [] => (overrides, errors)
  | line :: rest =>
      let cleaned := strip line in
      if negb (nonempty cleaned) then
        parse_override_lines (S line_number) rest overrides errors
      else
        match _split_override_line cleaned with
        | None =>
            parse_override_lines (S line_number) rest overrides
              (errors ++ ["Path override line " +:+ pretty line_number
                          +:+ " must use 'remote => local' format: "
                          +:+ py_repr cleaned])
        | Some (remote, local) =>
            if negb (nonempty remote) || negb (nonempty local) then
              parse_override_lines (S line_number) rest overrides
                (errors ++ ["Path override line " +:+ pretty line_number
                            +:+ " is missing a remote or local path: "
                            +:+ py_repr cleaned])
            else
              parse_override_lines (S line_number) rest
                (overrides ++ [{| ov_remote := Some remote;
                                  ov_local := Some local |}])
                errors
        end
  end.

Definition parse_path_overrides (raw_overrides : string)
  : list override * list string :=
  parse_override_lines 1 (splitlines raw_overrides) [] [].

(** [_normalize_override_entry] *)
Definition _normalize_override_entry (entry : override) : option override :=
  let remote := strip (or_default (ov_remote entry) "") in
  let local := strip (or_default (ov_local entry) "") in
  if negb (nonempty remote) || negb (nonempty local) then None
  else
    let remote_clean :=
      if nonempty (rstrip_slashes remote) then rstrip_slashes remote
      else remote in
    let local_clean := expand_path local in
    Some {| ov_remote := Some remote_clean; ov_local := Some local_clean |}.

(** Equality of two records, as [record not in normalized] tests it. *)
Definition override_eqb (a b : override) : bool :=
  bool_decide (ov_remote a = ov_remote b)
  && bool_decide (ov_local a = ov_local b).

(** The loop of [normalize_path_overrides]. *)
Fixpoint normalize_path_overrides_loop (overrides : list override)
    (normalized : list override) : list override :=
  match overrides with
  | [] => normalized
  | entry :: rest =>
      match _normalize_override_entry entry with
      | Some record =>
          if existsb (override_eqb record) normalized
          then normalize_path_overrides_loop rest normalized
          else normalize_path_overrides_loop rest (normalized ++ [record])
      | None => normalize_path_overrides_loop rest normalized
      end
  end.

Definition normalize_path_overrides (overrides : list override)
  : list override :=
  normalize_path_overrides_loop overrides [].

End Setup.

(** A text is trimmed when it is not empty and neither starts nor ends
    with white space. *)
Definition trimmed (s : string) : bool :=
  match chars s with
  | c :: _ => negb (py_isspace c)
  | [] => false
  end
  && match rev (chars s) with
     | c :: _ => negb (py_isspace c)
     | [] => false
     end.

Definition single_line (s : string) : bool :=
  forallb (fun c => negb (is_linebreak c)) (chars s).

(** A rule that the text form of the setup page can carry: both paths
    trimmed and on one line, and no arrow inside the remote path. *)
Definition writable_rule (item : override) : bool :=
  match ov_remote item, ov_local item with
  | Some remote, Some local =>
      trimmed remote && trimmed local
      && single_line remote && single_line local
      && negb (contains "=>" remote)
  | _, _ => false
  end.

Definition nonblank_lines (raw : string) : list string :=
  List.filter (fun line => nonempty (strip line)) (splitlines raw).

Definition plain_repr (s : string) : string := "'" +:+ s +:+ "'".

(** A rule as [parse_path_overrides] builds it. *)
Definition parsed_rule (item : override) : Prop :=
  exists remote local,
    item = {| ov_remote := Some remote; ov_local := Some local |}
    /\ nonempty remote = true /\ nonempty local = true
    /\ strip remote = remote /\ strip local = local.

(** The fields of the setup form that the validation reads ([None] for a
    missing field). *)
Record setup_form := {
  f_radarr_url : option string;
  f_radarr_api_key : option string;
  f_file_paths : option string;
  f_path_overrides : option string;
  f_debug_mode : option string
}.

(** [re.match] of the pattern for the two web schemes at the start of the
    address. *)
Definition has_http_scheme (s : string) : bool :=
  startswith s "http://" || startswith s "https://".

Section SetupPost.

Variable expand_path : string -> string.
Variable py_repr : string -> string.

(** The POST branch of [setup] from the reading of the form to
    [config.update]: the new values of the five fields it validates and
    the list [errors].  (The cookie fields are handled by the statements
    that follow and play no part in the validation.) *)
Definition setup_post_update (form : setup_form) : config * list string :=
  let radarr_url :=
    str (rstrip_char "/"%char
           (chars (strip (or_default (f_radarr_url form) "")))) in
  let api_key := strip (or_default (f_radarr_api_key form) "") in
  let raw_paths := or_default (f_file_paths form) "" in
  let file_paths := normalize_paths expand_path raw_paths in
  let raw_overrides := or_default (f_path_overrides form) "" in
  let (override_entries, override_errors) :=
    parse_path_overrides py_repr raw_overrides in
  let overrides := normalize_path_overrides expand_path override_entries in
  let debug_mode := truthy (f_debug_mode form) in
  let errors :=
    override_errors
    ++ (if negb (nonempty radarr_url) then ["Radarr URL is required."]
        else if negb (has_http_scheme radarr_url)
        then ["Radarr URL must start with http:// or https://."]
        else [])
    ++ (if negb (nonempty api_key) then ["Radarr API key is required."] else [])
    ++ (if bool_decide (file_paths = [])
        then ["At least one library path is required."] else []) in
  ({| radarr_url := radarr_url; radarr_api_key := api_key;
      file_paths := file_paths; path_overrides := overrides;
      debug_mode := debug_mode |},
   errors).

End SetupPost.

Definition valid_form : setup_form :=
  {| f_radarr_url := Some " http://radarr:7878/ ";
     f_radarr_api_key := Some "key";
     f_file_paths := Some "/library";
     f_path_overrides := Some "/movies => /mnt/a";
     f_debug_mode := None |}.

(** ** The YouTube search and its cache *)

Definition YOUTUBE_SEARCH_MAX_RESULTS : Z := 20.
Definition YOUTUBE_SEARCH_CACHE_TTL : Q := 90.

(** [_YOUTUBE_SEARCH_CACHE] is a map: the key is the lowered query with
    the number of results asked for; the value the time of the search with
    its results.  Times are the readings of [time.monotonic()], as exact
    rationals. *)

(** [_get_cached_youtube_results] *)
Definition _get_cached_youtube_results (cache_key : string * Z) (now : Q)
    (cache : gmap (string * Z) (Q * list pydict)) : option (list pydict) :=
  match cache !! cache_key with
  | Some (timestamp, items) =>
      if negb (Qle_bool YOUTUBE_SEARCH_CACHE_TTL (now - timestamp))
      then Some items else None
  | None => None
  end.

(** The test of the comprehension that collects [stale_keys]. *)
Definition is_stale (now : Q) (item : (string * Z) * (Q * list pydict)) : bool :=
  Qle_bool YOUTUBE_SEARCH_CACHE_TTL (now - fst (snd item)).

(** [_store_youtube_results] *)
Definition _store_youtube_results (cache_key : string * Z) (now : Q)
    (results : list pydict) (cache : gmap (string * Z) (Q * list pydict))
  : gmap (string * Z) (Q * list pydict) :=
  let cache1 := <[cache_key := (now, results)]> cache in
  let stale_keys := map fst (List.filter (is_stale now) (map_to_list cache1)) in
  fold_left (fun c stale_key => delete stale_key c) stale_keys cache1.

(** [entry.get(key)], with [JNull] for [None]. *)
Definition get_or_null (key : string) (entry : pydict) : json :=
  default JNull (dict_get key entry).

(** [a or b] on JSON values. *)
Definition json_or (a b : json) : json := if json_truthy a then a else b.

(** [_normalise_youtube_result] *)
Definition _normalise_youtube_result (entry : pydict) : option pydict :=
  let url := get_or_null "url" entry in
  let url :=
    if negb (json_truthy url) then
      match get_or_null "id" entry with
      | JStr video_id => JStr ("https://www.youtube.com/watch?v=" +:+ video_id)
      | _ => url
      end
    else url in
  if negb (json_truthy url) then None
  else
    let view_count :=
      match get_or_null "view_count" entry with
      | JNull => get_or_null "concurrent_view_count" entry
      | v => v
      end in
    Some [("id", get_or_null "id" entry);
          ("title", get_or_null "title" entry);
          ("url", url);
          ("uploader", json_or (get_or_null "uploader" entry)
                               (get_or_null "channel" entry));
          ("viewCount", view_count);
          ("duration", get_or_null "duration" entry)].

(** [_iter_youtube_entries]: the entries of a playlist object; iterating
    an object that sits under the key gives its keys. *)
Definition _iter_youtube_entries (playlist : json) : list json :=
  match playlist with
  | JObj d =>
      match dict_get "entries" d with
      | Some (JArr items) => items
      | Some (JObj fields) => map (fun kv => JStr (fst kv)) fields
      | _ => []
      end
  | _ => []
  end.

(** How the extraction can fail: [YoutubeDLError], or another exception. *)
Inductive search_failure :=
| DownloaderError (exc : string)
| OtherError (exc : string).

(** The cache and the queries sent to the extractor so far. *)
Record search_state := {
  yt_cache : gmap (string * Z) (Q * list pydict);
  yt_queries : list string
}.

Section Search.

(** [YoutubeSearchIE.extract] and [YoutubeDL.sanitize_info] are taken as
    given. *)
Variable extract : string -> search_failure + json.
Variable sanitize_info : pydict -> pydict.

(** The loop over the entries of the playlist. *)
Fixpoint collect_results (entries : list json) : list pydict :=
  match entries with
  | [] => []
  | JObj entry :: rest =>
      match _normalise_youtube_result (sanitize_info entry) with
      | Some normalised => normalised :: collect_results rest
      | None => collect_results rest
      end
  | _ :: rest => collect_results rest
  end.

(** [_search_youtube]; [now] is the reading of [time.monotonic()], and
    [inl] stands for the [RuntimeError] with its message. *)
Definition _search_youtube (query : string) (limit : Z) (now : Q)
    (st : search_state) : (string + list pydict) * search_state :=
  let search_terms := strip query in
  if negb (nonempty search_terms) then (inr [], st)
  else
    let max_results := if limit =? 0 then 1 else limit in
    let max_results :=
      Z.max 1 (Z.min max_results YOUTUBE_SEARCH_MAX_RESULTS) in
    let cache_key := (lower search_terms, max_results) in
    match _get_cached_youtube_results cache_key now (yt_cache st) with
    | Some cached => (inr cached, st)
    | None =>
        let request :=
          "ytsearch" +:+ pretty max_results +:+ ":" +:+ search_terms in
        let st1 := {| yt_cache := yt_cache st;
                      yt_queries := yt_queries st ++ [request] |} in
        match extract request with
        | inl (DownloaderError exc) =>
            (inl ("YouTube search failed: " +:+ exc), st1)
        | inl (OtherError exc) =>
            (inl ("Failed to initialise YouTube search: " +:+ exc), st1)
        | inr playlist =>
            let results :=
              collect_results
                (take (Z.to_nat max_results) (_iter_youtube_entries playlist)) in
            (inr results,
             {| yt_cache := _store_youtube_results cache_key now results
                              (yt_cache st);
                yt_queries := yt_queries st ++ [request] |})
        end
    end.

End Search.

(** The key under which a search is cached. *)
Definition search_key (query : string) (limit : Z) : string * Z :=
  (lower (strip query),
   Z.max 1 (Z.min (if limit =? 0 then 1 else limit)
                  YOUTUBE_SEARCH_MAX_RESULTS)).

(** An entry of the cache is fresh at [now] when less than the time to
    live has passed since it was stored. *)
Definition fresh_at (now : Q) (item : Q * list pydict) : Prop :=
  (now - fst item < YOUTUBE_SEARCH_CACHE_TTL)%Q.

Definition one_video : json :=
  JObj [("entries", JArr [JObj [("id", JStr "abc"); ("title", JStr "Alpha")]])].

Definition fixed_extract (request : string) : search_failure + json :=
  inr one_video.

Definition empty_search : search_state := {| yt_cache := ∅; yt_queries := [] |}.

(** A result the page can use: it carries an address under the key
    [url]. *)
Definition has_url (result : pydict) : Prop :=
  exists url, dict_get "url" result = Some url /\ json_truthy url = true.

(** The invariant of the cache: every entry sits under a number of
    results between 1 and 20, holds at most that many results, and each
    of them carries an address. *)
Definition cache_ok (cache : gmap (string * Z) (Q * list pydict)) : Prop :=
  forall k item, cache !! k = Some item ->
    1 <= snd k <= YOUTUBE_SEARCH_MAX_RESULTS
    /\ Z.of_nat (length (snd item)) <= snd k
    /\ Forall has_url (snd item).

(** ** Standalone downloads: the library path and the folder *)

(** The loop of [_select_standalone_library_path] over [file_paths]. *)
Fixpoint select_standalone_from (entries : list string) (fs : filesystem)
  : option string :=
  match entries with
  | [] => None
  | entry :: rest =>
      let candidate := strip entry in
      if negb (nonempty candidate) then select_standalone_from rest fs
      else if isdir fs candidate then Some candidate
      else select_standalone_from rest fs
  end.

Definition _select_standalone_library_path (cfg : config) (fs : filesystem)
  : option string :=
  select_standalone_from (file_paths cfg) fs.

(** [os.path.isfile] and [os.path.exists] *)
Definition isfile (fs : filesystem) (p : string) : bool :=
  match fs_nodes fs !! p with Some (File _) => true | _ => false end.

Definition path_present (fs : filesystem) (p : string) : bool :=
  match fs_nodes fs !! p with Some _ => true | None => false end.

(** The loop [while True] that looks for a folder name when a regular
    file bears the name wanted. *)
Fixpoint standalone_name_loop (fuel : nat) (fs : filesystem)
    (standalone_base_path base_name : string) (suffix : nat)
  : option (string * string) :=
  match fuel with
  | O => None
  | S fuel' =>
      let candidate_name := suffixed base_name suffix in
      let candidate_path := path_join standalone_base_path candidate_name in
      if negb (path_present fs candidate_path) || isdir fs candidate_path
      then Some (candidate_path, candidate_name)
      else standalone_name_loop fuel' fs standalone_base_path base_name
                                (S suffix)
  end.

(** What the standalone branch of [process_download_job] makes of the
    folder: [os.makedirs] raised and the job fails, or the folder is
    there, with its name and the flag [created_new]. *)
Inductive standalone_result :=
| StandaloneFailed (final_folder_path : string)
| StandaloneReady (final_folder_path standalone_folder_name : string)
                  (created_new : bool).

(** From [final_folder_path = os.path.join(...)] to the flag
    [created_new]; [None] when the loop runs out of fuel. *)
Definition standalone_folder (fuel : nat)
    (standalone_base_path standalone_folder_name : string) (fs : filesystem)
  : option (standalone_result * filesystem) :=
  let final_folder_path :=
    path_join standalone_base_path standalone_folder_name in
  match
    (if isfile fs final_folder_path
     then standalone_name_loop fuel fs standalone_base_path
                               standalone_folder_name 1
     else Some (final_folder_path, standalone_folder_name))
  with
  | None => None
  | Some (final_folder_path, standalone_folder_name) =>
      if negb (isdir fs final_folder_path) then
        match makedirs final_folder_path fs with
        | None => Some (StandaloneFailed final_folder_path, fs)
        | Some fs' =>
            Some (StandaloneReady final_folder_path standalone_folder_name true,
                  fs')
        end
      else
        Some (StandaloneReady final_folder_path standalone_folder_name false, fs)
  end.

(** The number of entries of the filesystem. *)
Definition fs_size (fs : filesystem) : nat := length (map_to_list (fs_nodes fs)).

(** A library in which a regular file bears the name of the folder
    wanted. *)
Definition clash_fs : filesystem :=
  {| fs_nodes := {[ "/library" := Dir;
                    "/library/Alpha" := File "not a folder";
                    "/library/Alpha (1)" := Dir ]};
     fs_denied := ∅ |}.

(** ** The settings of a job as the worker reads them *)

(** The keys of the payload the worker reads for its settings ([None]
    for a missing key or a null; the flags by their truth value). *)
Record job_payload := {
  pl_playlist_mode : option string;
  pl_merge_playlist : bool;
  pl_standalone : bool;
  pl_standalone_name_mode : option string;
  pl_standalone_custom_name : option string;
  pl_extraType : option string;
  pl_extra : bool;
  pl_extra_name : option string
}.

Record job_settings := {
  s_playlist_mode : string;
  s_merge_playlist : bool;
  s_standalone : bool;
  s_standalone_name_mode : string;
  s_standalone_custom_name : string;
  s_extra_type : string;
  s_extra : bool;
  s_extra_name : string
}.

Definition allowed_extra_types : list string :=
  ["trailer"; "behindthescenes"; "deleted"; "featurette"; "interview";
   "scene"; "short"; "other"].

(** The values [process_download_job] computes for its settings before
    it looks for the movie, with the lines it logs on the way, in order.
    (The statements in between write the values back into the payload and
    refresh the label of the record.) *)
Definition read_job_settings (payload : job_payload)
  : job_settings * list store_op :=
  let merge_playlist := pl_merge_playlist payload in
  let playlist_mode :=
    lower (strip (or_default (pl_playlist_mode payload)
                             (if merge_playlist then "merge" else "single"))) in
  let '(playlist_mode, logs1) :=
    if negb (bool_decide (playlist_mode ∈ ALLOWED_PLAYLIST_MODES)) then
      ("single",
       [OpAppendLog ("WARNING: " +:+ "Invalid playlist mode '" +:+ playlist_mode
                     +:+ "', defaulting to single video.")])
    else (playlist_mode, []) in
  let merge_playlist := String.eqb playlist_mode "merge" in
  let standalone := pl_standalone payload in
  let standalone_name_mode :=
    lower (strip (or_default (pl_standalone_name_mode payload) "youtube")) in
  let standalone_name_mode :=
    if negb (bool_decide (standalone_name_mode ∈ ["youtube"; "custom"]))
    then "youtube" else standalone_name_mode in
  let standalone_custom_name :=
    strip (or_default (pl_standalone_custom_name payload) "") in
  let '(standalone_name_mode, standalone_custom_name, logs2) :=
    if negb standalone then ("youtube", "", [])
    else if String.eqb standalone_name_mode "custom"
            && negb (nonempty standalone_custom_name)
    then ("youtube", standalone_custom_name,
          [OpAppendLog
             ("WARNING: "
              +:+ "Custom standalone name requested without a value. "
              +:+ "Falling back to YouTube title.")])
    else (standalone_name_mode, standalone_custom_name, []) in
  let extra_type := lower (strip (or_default (pl_extraType payload) "trailer")) in
  let '(extra_type, logs3) :=
    if negb (bool_decide (extra_type ∈ allowed_extra_types)) then
      ("other",
       [OpAppendLog ("Unknown extra type '" +:+ extra_type
                     +:+ "', defaulting to 'other'.")])
    else (extra_type, []) in
  let extra := pl_extra payload && negb standalone in
  let extra_name :=
    if extra then strip (or_default (pl_extra_name payload) "") else "" in
  ({| s_playlist_mode := playlist_mode;
      s_merge_playlist := merge_playlist;
      s_standalone := standalone;
      s_standalone_name_mode := standalone_name_mode;
      s_standalone_custom_name := standalone_custom_name;
      s_extra_type := extra_type;
      s_extra := extra;
      s_extra_name := extra_name |},
   logs1 ++ logs2 ++ logs3).

(** The payload after the worker has written its settings back. *)
Definition written_back (s : job_settings) : job_payload :=
  {| pl_playlist_mode := Some (s_playlist_mode s);
     pl_merge_playlist := s_merge_playlist s;
     pl_standalone := s_standalone s;
     pl_standalone_name_mode := Some (s_standalone_name_mode s);
     pl_standalone_custom_name := Some (s_standalone_custom_name s);
     pl_extraType := Some (s_extra_type s);
     pl_extra := s_extra s;
     pl_extra_name := Some (s_extra_name s) |}.

(** Settings in range: the two modes and the extra type are among the
    values the worker knows, the merge flag follows the playlist mode, a
    custom name is asked for only where there is one, extras and
    standalone downloads exclude each other, and the names are trimmed. *)
Definition settings_in_range (s : job_settings) : Prop :=
  s_playlist_mode s ∈ ALLOWED_PLAYLIST_MODES
  /\ s_merge_playlist s = String.eqb (s_playlist_mode s) "merge"
  /\ s_standalone_name_mode s ∈ ["youtube"; "custom"]
  /\ (s_standalone s = false ->
      s_standalone_name_mode s = "youtube" /\ s_standalone_custom_name s = "")
  /\ (s_standalone_name_mode s = "custom" ->
      nonempty (s_standalone_custom_name s) = true)
  /\ strip (s_standalone_custom_name s) = s_standalone_custom_name s
  /\ s_extra_type s ∈ allowed_extra_types
  /\ (s_extra s = true -> s_standalone s = false)
  /\ (s_extra s = false -> s_extra_name s = "")
  /\ strip (s_extra_name s) = s_extra_name s.

(** ** Computations that only write log lines *)



(** ** [resolve_movie_by_metadata] *)





Section MovieLookup.

(** [str] of a JSON value is taken as given. *)
Variable py_str : json -> string.




End MovieLookup.





(* ===================================================================== *)
(** * Part II. Properties                                                  *)
(* ===================================================================== *)

(** ** State passing *)

Lemma bind_run {A B} (m : M A) (k : A -> M B) (w : world) :
  (m ≫= k) w = let (a, w') := m w in k a w'.
Proof. reflexivity. Qed.

Lemma ret_run {A} (a : A) (w : world) : ret a w = (a, w).
Proof. reflexivity. Qed.

Ltac run_M :=
  repeat (rewrite ?bind_run, ?ret_run; cbn beta iota zeta).

(** ** [_terminate_process] and [cancel_job] *)

Lemma terminate_process_run (p : option process) (w : world) :
  _terminate_process p w =
  (tt, {| w_jobs := w_jobs w; w_controls := w_controls w; w_fs := w_fs w;
          w_journal := w_journal w ++ map ECall (terminate_calls p) |}).
Proof.
  destruct p as [h|]; cbn.
  - unfold _terminate_process, terminate_calls.
    destruct (terminate_raises h), (wait_expires h);
      unfold mbind, M_bind, proc_do, ret, mret, M_ret; cbn;
      rewrite <- ?app_assoc; reflexivity.
  - rewrite app_nil_r. destruct w; reflexivity.
Qed.

Lemma set_cancel_idem (c : JobControl) :
  cancel_event c = true -> set_cancel c = c.
Proof. destruct c as [e p]; cbn; intros ->; reflexivity. Qed.

(** C1 (amended).  A second [cancel_job] on a job whose cancel flag is
    already set answers 202 "Cancellation already requested.", leaves the
    job store and the table of controls as they were, and appends no log
    line; the only effects are the calls of [_terminate_process] on the
    child process attached to the job, if there is one. *)
Theorem cancel_job_already_requested
    (w : world) (job_id : string) (j : job) (c : JobControl) :
  w_jobs w !! job_id = Some j ->
  is_active (j_status j) = true ->
  w_controls w !! job_id = Some c ->
  cancel_event c = true ->
  cancel_job job_id w =
  ({| r_code := 202; r_message := "Cancellation already requested.";
      r_job := Some j |},
   {| w_jobs := w_jobs w; w_controls := w_controls w; w_fs := w_fs w;
      w_journal := w_journal w ++ map ECall (terminate_calls (proc c)) |}).
Proof.
  intros Hj Hact Hc Hset.
  unfold cancel_job, jobs_repo_get, get_control.
  rewrite bind_run, Hj, Hact. cbn [negb].
  rewrite bind_run, Hc, Hset. cbn [negb when].
  rewrite bind_run. unfold set_controls at 1. cbn [w_controls w_jobs w_fs w_journal].
  rewrite set_cancel_idem by assumption.
  rewrite insert_id by assumption.
  rewrite bind_run, terminate_process_run. cbn [w_controls w_jobs w_fs w_journal].
  rewrite bind_run, ret_run, bind_run. cbn [w_jobs].
  rewrite Hj. reflexivity.
Qed.

Lemma cancel_job_already_requested_witness :
  cancel_job "job-1" cancelling_world =
  ({| r_code := 202; r_message := "Cancellation already requested.";
      r_job := w_jobs cancelling_world !! "job-1" |},
   {| w_jobs := w_jobs cancelling_world;
      w_controls := w_controls cancelling_world;
      w_fs := w_fs cancelling_world;
      w_journal := [ECall (CallTerminate 7); ECall (CallWait 7)] |}).
Proof.
  exact (cancel_job_already_requested cancelling_world "job-1" _
           {| cancel_event := true; proc := Some cancelling_child |}
           eq_refl eq_refl eq_refl eq_refl).
Defined.

(** C1 as stated fails: with the cancel flag already set and a child
    attached, the second call sends the termination signal again. *)
Lemma cancel_job_second_call_signals :
  (exists c, w_controls cancelling_world !! "job-1" = Some c
             /\ cancel_event c = true)
  /\ w_journal (cancel_job "job-1" cancelling_world).2
     = [ECall (CallTerminate 7); ECall (CallWait 7)]
  /\ w_journal (cancel_job "job-1" cancelling_world).2
     <> w_journal cancelling_world.
Proof.
  split; [|split].
  - eexists; split; reflexivity.
  - vm_compute. reflexivity.
  - vm_compute. discriminate.
Qed.

(** ** [_cleanup_temp_files] *)

Lemma os_remove_frame (q p : string) (fs fs' : filesystem) :
  os_remove q fs = Some fs' -> p <> q ->
  fs_nodes fs' !! p = fs_nodes fs !! p /\ fs_denied fs' = fs_denied fs.
Proof.
  unfold os_remove. intros H Hne.
  destruct (fs_nodes fs !! q) as [[c|]|]; try discriminate.
  destruct (decide (q ∈ fs_denied fs)); try discriminate.
  injection H as <-. cbn. split; [|reflexivity].
  apply lookup_delete_ne. congruence.
Qed.

Lemma cleanup_step_frame (fs : filesystem) (leftover p : string) :
  is_fragment p = false ->
  fs_nodes (cleanup_step fs leftover) !! p = fs_nodes fs !! p
  /\ fs_denied (cleanup_step fs leftover) = fs_denied fs.
Proof.
  intros Hp. unfold cleanup_step.
  destruct (endswith leftover ".part" || endswith leftover ".ytdl") eqn:Hl;
    [|split; reflexivity].
  destruct (os_remove leftover fs) as [fs'|] eqn:Hrm; [|split; reflexivity].
  apply (os_remove_frame leftover p fs fs' Hrm).
  intros ->. unfold is_fragment in Hp. congruence.
Qed.

Lemma cleanup_fold_frame (l : list string) (fs : filesystem) (p : string) :
  is_fragment p = false ->
  fs_nodes (fold_left cleanup_step l fs) !! p = fs_nodes fs !! p
  /\ fs_denied (fold_left cleanup_step l fs) = fs_denied fs.
Proof.
  intros Hp. revert fs. induction l as [|x l IH]; intros fs; cbn.
  - split; reflexivity.
  - destruct (IH (cleanup_step fs x)) as [H1 H2].
    destruct (cleanup_step_frame fs x p Hp) as [H3 H4].
    split; congruence.
Qed.

(** C9.  [_cleanup_temp_files] removes nothing but paths that end in
    [.part] or [.ytdl]: whatever the pattern and whatever [glob] returns
    for it, every other path keeps its node (a completed media file keeps
    its content), and with an absent or empty pattern the filesystem is
    returned as it was. *)
Theorem cleanup_temp_files_only_fragments
    (glob : filesystem -> string -> list string)
    (pattern : option string) (fs : filesystem) :
  (forall p : string,
      endswith p ".part" = false -> endswith p ".ytdl" = false ->
      fs_nodes (_cleanup_temp_files glob pattern fs) !! p = fs_nodes fs !! p)
  /\ (pattern = None \/ pattern = Some "" ->
      _cleanup_temp_files glob pattern fs = fs).
Proof.
  split.
  - intros p H1 H2. unfold _cleanup_temp_files.
    destruct pattern as [pat|]; [|reflexivity].
    destruct (negb (nonempty pat)); [reflexivity|].
    apply (cleanup_fold_frame (glob fs pat) fs p).
    unfold is_fragment. rewrite H1, H2. reflexivity.
  - intros [-> | ->]; reflexivity.
Qed.

Lemma cleanup_temp_files_only_fragments_witness :
  fs_nodes (_cleanup_temp_files fragments_glob (Some "/lib/Alpha.*") fragments_fs)
    !! "/lib/Alpha.mp4" = Some (File "film")
  /\ _cleanup_temp_files fragments_glob (Some "") fragments_fs = fragments_fs.
Proof.
  destruct (cleanup_temp_files_only_fragments fragments_glob
              (Some "/lib/Alpha.*") fragments_fs) as [H _].
  destruct (cleanup_temp_files_only_fragments fragments_glob
              (Some "") fragments_fs) as [_ H'].
  split.
  - rewrite (H "/lib/Alpha.mp4" eq_refl eq_refl). reflexivity.
  - apply H'. right. reflexivity.
Defined.

(** ** Selection of the metadata entry *)

Lemma first_non_container_rev (entries : list pydict) :
  first_non_container (rev entries)
  = last (List.filter (fun e => negb (is_container e)) entries).
Proof.
  induction entries as [|x l IH] using rev_ind; [reflexivity|].
  rewrite rev_unit, List.filter_app. cbn.
  destruct (is_container x); cbn.
  - rewrite app_nil_r. exact IH.
  - rewrite last_snoc. reflexivity.
Qed.

Lemma filter_all_containers (entries : list pydict) :
  Forall (fun e => is_container e = true) entries ->
  List.filter (fun e => negb (is_container e)) entries = [].
Proof.
  induction 1 as [|x l Hx _ IH]; cbn; [reflexivity|].
  rewrite Hx. exact IH.
Qed.

(** C3.  The entry [process_download_job] selects from the parsed entries
    is the last one whose type is not a container type; when every entry
    is a container it is the last entry; when there is no entry, none is
    selected. *)
Theorem select_preferred_entry_rule (info_entries : list pydict) :
  select_preferred_entry info_entries = last_non_container_else_last info_entries
  /\ (forall before e after,
        info_entries = before ++ e :: after ->
        is_container e = false ->
        Forall (fun x => is_container x = true) after ->
        select_preferred_entry info_entries = Some e)
  /\ (Forall (fun x => is_container x = true) info_entries ->
      select_preferred_entry info_entries = last info_entries)
  /\ (info_entries = [] -> select_preferred_entry info_entries = None).
Proof.
  assert (Heq : select_preferred_entry info_entries
                = last_non_container_else_last info_entries).
  { unfold select_preferred_entry, last_non_container_else_last.
    rewrite first_non_container_rev.
    destruct (last (List.filter _ info_entries)); [reflexivity|].
    destruct info_entries; reflexivity. }
  split; [exact Heq|]. rewrite Heq. unfold last_non_container_else_last.
  split; [|split].
  - intros before e after -> He Hafter.
    rewrite List.filter_app. cbn. rewrite He. cbn.
    rewrite (filter_all_containers after Hafter).
    rewrite last_snoc. reflexivity.
  - intros Hall. rewrite (filter_all_containers _ Hall). reflexivity.
  - intros ->. reflexivity.
Qed.

Lemma select_preferred_entry_rule_witness :
  select_preferred_entry [untyped_entry; video_entry; playlist_entry]
  = Some video_entry
  /\ select_preferred_entry [playlist_entry; playlist_entry] = Some playlist_entry.
Proof.
  destruct (select_preferred_entry_rule [untyped_entry; video_entry; playlist_entry])
    as (_ & H & _).
  destruct (select_preferred_entry_rule [playlist_entry; playlist_entry])
    as (_ & _ & H' & _).
  split.
  - apply (H [untyped_entry] video_entry [playlist_entry]); [reflexivity..|].
    repeat constructor.
  - rewrite H'; [reflexivity|]. repeat constructor.
Defined.

(** ** Strings as lists of characters *)

Lemma str_chars (s : string) : str (chars s) = s.
Proof. apply string_of_list_ascii_of_string. Qed.

Lemma chars_str (l : list ascii) : chars (str l) = l.
Proof. apply list_ascii_of_string_of_list_ascii. Qed.

Lemma chars_inj (s t : string) : chars s = chars t -> s = t.
Proof. intros H. rewrite <- (str_chars s), <- (str_chars t), H. reflexivity. Qed.

Lemma chars_app (s t : string) : chars (s +:+ t) = chars s ++ chars t.
Proof.
  induction s as [|c s IH]; [reflexivity|].
  change (String c s +:+ t) with (String c (s +:+ t)).
  unfold chars in *. cbn. f_equal. exact IH.
Qed.


Lemma prefix_chars_spec (p l : list ascii) :
  prefix_chars p l = true <-> exists r, l = p ++ r.
Proof.
  revert l. induction p as [|a p IH]; intros l; cbn.
  - split; [intros _; exists l; reflexivity | reflexivity].
  - destruct l as [|b l].
    + split; [discriminate | intros [r Hr]; discriminate].
    + destruct (Ascii.eqb_spec a b) as [->|Hne].
      * rewrite IH. split; intros [r Hr]; exists r; congruence.
      * split; [discriminate | intros [r Hr]; congruence].
Qed.

Lemma prefix_chars_app (p r : list ascii) : prefix_chars p (p ++ r) = true.
Proof. apply prefix_chars_spec. exists r. reflexivity. Qed.

(** Decimal numerals. *)

Lemma pretty_N_char_digit (x : N) : is_digit (pretty_N_char x) = true.
Proof. unfold pretty_N_char. repeat case_match; reflexivity. Qed.

Lemma pretty_N_go_digits (x : N) (s : string) :
  forallb is_digit (chars s) = true ->
  forallb is_digit (chars (pretty_N_go x s)) = true.
Proof.
  revert s. induction (N.lt_wf_0 x) as [x _ IH]; intros s Hs.
  destruct (decide (x = 0)%N) as [->|Hx].
  - rewrite pretty_N_go_0. exact Hs.
  - rewrite pretty_N_go_step by lia. apply IH.
    + apply N.div_lt; lia.
    + cbn. rewrite pretty_N_char_digit. exact Hs.
Qed.

Lemma pretty_nat_digits (n : nat) : forallb is_digit (chars (pretty n)) = true.
Proof.
  unfold pretty, pretty_nat, pretty, pretty_N.
  case_decide; [reflexivity|].
  apply pretty_N_go_digits. reflexivity.
Qed.

Lemma digits_delimited (d d' y y' : list ascii) (c : ascii) :
  is_digit c = false ->
  forallb is_digit d = true -> forallb is_digit d' = true ->
  d ++ c :: y = d' ++ c :: y' -> d = d'.
Proof.
  intros Hc. revert d'. induction d as [|a d IH]; intros [|a' d'] Hd Hd' H; cbn in *.
  - reflexivity.
  - injection H as -> _. apply andb_true_iff in Hd' as [Ha _]. congruence.
  - injection H as -> _. apply andb_true_iff in Hd as [Ha _]. congruence.
  - injection H as -> H.
    apply andb_true_iff in Hd as [_ Hd]. apply andb_true_iff in Hd' as [_ Hd'].
    f_equal. eapply IH; eassumption.
Qed.

(** ** Searching the first free suffix *)

Lemma first_free_some (busy : nat -> bool) (fuel n k : nat) :
  first_free busy fuel n = Some k ->
  (n <= k < n + fuel)%nat /\ busy k = false
  /\ forall m, (n <= m < k)%nat -> busy m = true.
Proof.
  revert n. induction fuel as [|fuel IH]; intros n; cbn; [discriminate|].
  destruct (busy n) eqn:Hn; cbn.
  - intros H. apply IH in H as (Hk & Hfree & Hbusy).
    split; [lia|]. split; [exact Hfree|].
    intros m Hm. destruct (decide (m = n)) as [->|]; [exact Hn|].
    apply Hbusy. lia.
  - intros [= <-]. split; [lia|]. split; [exact Hn|]. intros m Hm. lia.
Qed.

Lemma first_free_none (busy : nat -> bool) (fuel n : nat) :
  first_free busy fuel n = None ->
  forall m, (n <= m < n + fuel)%nat -> busy m = true.
Proof.
  revert n. induction fuel as [|fuel IH]; intros n; cbn; [intros _ m Hm; lia|].
  destruct (busy n) eqn:Hn; cbn; [|discriminate].
  intros H m Hm. destruct (decide (m = n)) as [->|]; [exact Hn|].
  apply (IH _ H). lia.
Qed.

(** Pigeonhole: numbers that are told apart by the element of [l] they
    hit are no more than the elements of [l]. *)

Lemma filter_at_most_one (P : nat -> bool) (ns : list nat) :
  NoDup ns ->
  (forall m m', m ∈ ns -> m' ∈ ns -> P m = true -> P m' = true -> m = m') ->
  (length ns <= S (length (List.filter (fun m => negb (P m)) ns)))%nat.
Proof.
  induction 1 as [|n ns Hn Hnd IH]; intros Hinj; cbn; [lia|].
  destruct (P n) eqn:HPn; cbn.
  - assert (Hall : forall m, m ∈ ns -> P m = false).
    { intros m Hm. destruct (P m) eqn:HPm; [|reflexivity].
      exfalso. apply Hn.
      rewrite <- (Hinj m n); [exact Hm| | |exact HPm|exact HPn].
      - right. exact Hm.
      - left. }
    assert (Hfl : List.filter (fun m => negb (P m)) ns = ns).
    { clear -Hall. induction ns as [|a ns IH]; cbn; [reflexivity|].
      rewrite (Hall a) by left. cbn. f_equal.
      apply IH. intros m Hm. apply Hall. right. exact Hm. }
    rewrite Hfl. lia.
  - assert (length ns <= S (length (List.filter (fun m => negb (P m)) ns)))%nat.
    { apply IH. intros m m' Hm Hm'. apply Hinj; right; assumption. }
    lia.
Qed.

Lemma pigeonhole {A} (r : nat -> A -> bool) (l : list A) (ns : list nat) :
  NoDup ns ->
  (forall m m' a, r m a = true -> r m' a = true -> m = m') ->
  (forall m, m ∈ ns -> exists a, a ∈ l /\ r m a = true) ->
  (length ns <= length l)%nat.
Proof.
  intros Hnd Hinj. revert ns Hnd.
  induction l as [|x l IH]; intros ns Hnd Hhit.
  - destruct ns as [|n ns]; [cbn; lia|].
    destruct (Hhit n) as (a & Ha & _); [left|]. inversion Ha.
  - pose (ns' := List.filter (fun m => negb (r m x)) ns).
    assert (length ns <= S (length ns'))%nat.
    { apply filter_at_most_one; [exact Hnd|].
      intros m m' _ _ Hm Hm'. exact (Hinj m m' x Hm Hm'). }
    assert (length ns' <= length l)%nat.
    { apply IH.
      - apply NoDup_ListNoDup. apply List.NoDup_filter. apply NoDup_ListNoDup. exact Hnd.
      - intros m Hm. apply list_elem_of_In, List.filter_In in Hm as [Hm Hr].
        destruct (Hhit m) as (a & Ha & Hra); [apply list_elem_of_In; exact Hm|].
        exists a. split; [|exact Hra].
        apply elem_of_cons in Ha as [->|Ha]; [|exact Ha].
        rewrite Hra in Hr. discriminate. }
    cbn. lia.
Qed.

Lemma first_free_total {A} (r : nat -> A -> bool) (l : list A) (busy : nat -> bool) :
  (forall m m' a, r m a = true -> r m' a = true -> m = m') ->
  (forall m, busy m = true -> exists a, a ∈ l /\ r m a = true) ->
  exists k, first_free busy (S (length l)) 1 = Some k.
Proof.
  intros Hinj Hhit.
  destruct (first_free busy (S (length l)) 1) as [k|] eqn:Hff; [eauto|].
  exfalso.
  pose proof (first_free_none _ _ _ Hff) as Hall.
  assert (length (seq 1 (S (length l))) <= length l)%nat as Hlen.
  { apply (pigeonhole r); [apply NoDup_seq | exact Hinj |].
    intros m Hm. apply Hhit, Hall.
    apply elem_of_seq in Hm. lia. }
  rewrite length_seq in Hlen. lia.
Qed.

(** ** The filename collision loops *)

Lemma chars_suffixed (base : string) (n : nat) :
  chars (suffixed base n)
  = chars base ++ chars " (" ++ chars (pretty n) ++ chars ")".
Proof. unfold suffixed. rewrite !chars_app. reflexivity. Qed.




Section StemRules.

Variable class_match : list ascii -> ascii -> bool.










End StemRules.






Example choose_download_stem_alpha :
  choose_download_stem no_classes 3 alpha_dir "Alpha (2020) {tmdb-1}"
  = Some ("Alpha (2020) {tmdb-1} (2)",
          ["File stem 'Alpha (2020) {tmdb-1}' already exists. Searching for a free filename.";
           "Selected new filename stem 'Alpha (2020) {tmdb-1} (2)'."]).
Proof. vm_compute. reflexivity. Qed.


(** ** [resolve_movie_path] *)

Lemma resolve_override_first_resolved (no : string) (overrides : list override)
    (ensure : ensure_fn) (st : resolver_state) :
  _resolve_override_target no overrides ensure st
  = first_resolved ensure (override_attempts no overrides) st.
Proof.
  revert st. induction overrides as [|ov rest IH]; intros st; [reflexivity|].
  cbn [_resolve_override_target override_attempts].
  destruct (override_candidate no ov) as [[candidate base]|].
  - cbn [first_resolved].
    destruct (ensure candidate base st) as [resolved st'].
    destruct (truthy resolved); [reflexivity|apply IH].
  - apply IH.
Qed.

Lemma resolve_library_first_resolved (folder_name : string)
    (search_paths : list string) (ensure : ensure_fn) (st : resolver_state) :
  _resolve_library_target folder_name search_paths ensure st
  = first_resolved ensure (library_attempts folder_name search_paths) st.
Proof.
  revert st. induction search_paths as [|base rest IH]; intros st; [reflexivity|].
  cbn [_resolve_library_target library_attempts map first_resolved].
  destruct (ensure (path_join base folder_name) (Some base) st) as [resolved st'].
  destruct (truthy resolved); [reflexivity|apply IH].
Qed.

Lemma first_resolved_app (ensure : ensure_fn) (l1 l2 : list attempt)
    (st : resolver_state) :
  first_resolved ensure (l1 ++ l2) st
  = let (r, st') := first_resolved ensure l1 st in
    if truthy r then (r, st') else first_resolved ensure l2 st'.
Proof.
  revert st. induction l1 as [|[c b] l1 IH]; intros st; [reflexivity|].
  cbn [app first_resolved].
  destruct (ensure c b st) as [r st'] eqn:He.
  destruct (truthy r) eqn:Hr; [rewrite Hr; reflexivity|apply IH].
Qed.

Lemma first_resolved_result (ensure : ensure_fn) (l : list attempt)
    (st : resolver_state) :
  (first_resolved ensure l st).1 = None
  \/ truthy (first_resolved ensure l st).1 = true.
Proof.
  revert st. induction l as [|[c b] l IH]; intros st; [left; reflexivity|].
  cbn [first_resolved].
  destruct (ensure c b st) as [r st'] eqn:He.
  destruct (truthy r) eqn:Hr; [right; exact Hr|apply IH].
Qed.

Lemma truthy_is_some (r : option string) : truthy r = true -> exists s, r = Some s.
Proof. destruct r; [eauto|discriminate]. Qed.

Lemma normpath_nonempty (p : string) : nonempty (normpath p) = true.
Proof.
  unfold normpath. case_bool_decide; [reflexivity|].
  case_bool_decide as Hres; [reflexivity|].
  match goal with |- nonempty (str ?l) = true => destruct l; [congruence|reflexivity] end.
Qed.

Lemma ensure_candidate_result (create : bool) (c : string) (b : option string)
    (st : resolver_state) :
  ((ensure_candidate create c b st).1 = None
   /\ (ensure_candidate create c b st).2 = st)
  \/ (ensure_candidate create c b st).1 = Some c.
Proof.
  unfold ensure_candidate.
  destruct (isdir (rs_fs st) c); [right; reflexivity|].
  destruct create; cbn [negb]; [|left; split; reflexivity].
  match goal with |- context [if ?g then _ else _] => destruct g end;
    [left; split; reflexivity|].
  destruct (makedirs c (rs_fs st)); [right|left; split]; reflexivity.
Qed.

Lemma ensure_candidate_isdir (create : bool) (c : string) (b : option string)
    (st : resolver_state) :
  isdir (rs_fs st) c = true -> ensure_candidate create c b st = (Some c, st).
Proof. intros H. unfold ensure_candidate. rewrite H. reflexivity. Qed.

Lemma makedirs_nonempty (p : string) (fs fs' : filesystem) :
  makedirs p fs = Some fs' -> nonempty p = true.
Proof.
  unfold makedirs. destruct (nonempty p); [reflexivity|discriminate].
Qed.

(** A failed attempt leaves the resolver state as it was. *)
Lemma ensure_candidate_failure (create : bool) (c : string) (b : option string)
    (st : resolver_state) :
  truthy (ensure_candidate create c b st).1 = false ->
  (ensure_candidate create c b st).2 = st.
Proof.
  unfold ensure_candidate.
  destruct (isdir (rs_fs st) c); [reflexivity|].
  destruct create; cbn [negb]; [|reflexivity].
  match goal with |- context [if ?g then _ else _] => destruct g end;
    [reflexivity|].
  destruct (makedirs c (rs_fs st)) eqn:Hmk; [|reflexivity].
  cbn. rewrite (makedirs_nonempty _ _ _ Hmk). discriminate.
Qed.

Lemma first_resolved_skip (create : bool) (before : list attempt) (a : attempt)
    (after : list attempt) (st : resolver_state) :
  Forall (fun x => truthy (ensure_candidate create x.1 x.2 st).1 = false) before ->
  truthy (ensure_candidate create a.1 a.2 st).1 = true ->
  first_resolved (ensure_candidate create) (before ++ a :: after) st
  = ensure_candidate create a.1 a.2 st.
Proof.
  intros Hbefore Ha. induction Hbefore as [|[c b] l Hx _ IH]; cbn [app first_resolved].
  - destruct a as [c b]. cbn [fst snd] in *.
    destruct (ensure_candidate create c b st) as [r st'].
    cbn [fst] in Ha. rewrite Ha. reflexivity.
  - cbn [fst snd] in Hx.
    pose proof (ensure_candidate_failure create c b st Hx) as Hst.
    destruct (ensure_candidate create c b st) as [r st'].
    cbn [fst snd] in *. rewrite Hx. subst st'. exact IH.
Qed.

Lemma override_attempts_app (no : string) (l1 l2 : list override) :
  override_attempts no (l1 ++ l2)
  = override_attempts no l1 ++ override_attempts no l2.
Proof.
  induction l1 as [|ov l1 IH]; [reflexivity|].
  cbn [app override_attempts].
  destruct (override_candidate no ov); cbn [app]; rewrite IH; reflexivity.
Qed.

Lemma override_attempts_fail (create : bool) (no : string)
    (overrides : list override) (st : resolver_state) :
  Forall (fun ov => forall a, override_candidate no ov = Some a ->
                    truthy (ensure_candidate create a.1 a.2 st).1 = false)
         overrides ->
  Forall (fun x => truthy (ensure_candidate create x.1 x.2 st).1 = false)
         (override_attempts no overrides).
Proof.
  induction 1 as [|ov l Hov _ IH]; cbn [override_attempts]; [constructor|].
  destruct (override_candidate no ov) as [a|]; [|exact IH].
  constructor; [apply Hov; reflexivity|exact IH].
Qed.

Lemma resolve_movie_path_attempts (original : string) (cfg : config)
    (create : bool) (fs : filesystem) :
  nonempty original = true ->
  resolve_movie_path (Some original) cfg create fs
  = let (r, st) := first_resolved (ensure_candidate create)
                     (all_attempts original cfg)
                     {| rs_fs := fs; rs_created := false |} in
    ((r, rs_created st), rs_fs st).
Proof.
  intros Hne. unfold resolve_movie_path, all_attempts.
  cbn [truthy from_option]. rewrite Hne. cbn [negb first_resolved].
  change (id original) with original.
  set (st0 := {| rs_fs := fs; rs_created := false |}).
  set (np := normpath original).
  set (ensure := ensure_candidate create).
  assert (Hdirect :
    (if isdir fs np then (Some np, st0) else ensure np (Some (dirname np)) st0)
    = ensure np (Some (dirname np)) st0).
  { destruct (isdir fs np) eqn:Hd; [|reflexivity].
    symmetry. apply ensure_candidate_isdir. exact Hd. }
  rewrite Hdirect.
  pose proof (ensure_candidate_result create np (Some (dirname np)) st0) as Hres.
  fold ensure in Hres.
  destruct (ensure np (Some (dirname np)) st0) as [r1 st1].
  cbn [fst snd] in Hres.
  destruct Hres as [[-> ->] | ->].
  - cbn [truthy]. rewrite resolve_override_first_resolved, first_resolved_app.
    pose proof (first_resolved_result ensure
                  (override_attempts (backslash_to_slash np) (path_overrides cfg))
                  st0) as Hr2.
    destruct (first_resolved ensure
                (override_attempts (backslash_to_slash np) (path_overrides cfg))
                st0) as [r2 st2].
    cbn [fst] in Hr2. destruct Hr2 as [-> | Hr2].
    + cbn [truthy].
      destruct (nonempty (basename (str (rstrip_char slash (chars np))))).
      * rewrite resolve_library_first_resolved.
        destruct (first_resolved ensure _ st2); reflexivity.
      * reflexivity.
    + rewrite Hr2. apply truthy_is_some in Hr2 as [s ->]. reflexivity.
  - cbn [truthy]. unfold np. rewrite normpath_nonempty. reflexivity.
Qed.

(** C6 (amended).  [resolve_movie_path] makes its attempts in a fixed
    order and returns the first that resolves: the normalized path itself,
    then the candidate of every rewrite rule that matches the normalized
    path (the rule's local replacement with the remainder appended), in
    the order the rules are configured, then the folder's base name under
    every library root, in order.  Among the rules the first one whose
    candidate resolves wins, whatever the length of its remote prefix. *)
Theorem resolve_movie_path_first_match
    (original : string) (cfg : config) (create : bool) (fs : filesystem) :
  nonempty original = true ->
  let st0 := {| rs_fs := fs; rs_created := false |} in
  let ensure := ensure_candidate create in
  let np := normpath original in
  resolve_movie_path (Some original) cfg create fs
  = (let (r, st) := first_resolved ensure (all_attempts original cfg) st0 in
     ((r, rs_created st), rs_fs st))
  /\ forall before ov after a,
       truthy (ensure np (Some (dirname np)) st0).1 = false ->
       path_overrides cfg = before ++ ov :: after ->
       override_candidate (backslash_to_slash np) ov = Some a ->
       Forall (fun ov' =>
                 forall a', override_candidate (backslash_to_slash np) ov' = Some a' ->
                            truthy (ensure a'.1 a'.2 st0).1 = false) before ->
       truthy (ensure a.1 a.2 st0).1 = true ->
       (resolve_movie_path (Some original) cfg create fs).1.1 = Some a.1.
Proof.
  intros Hne st0 ensure np. split; [apply resolve_movie_path_attempts; exact Hne|].
  intros before ov after a Hdirect Hcfg Hov Hbefore Ha.
  rewrite (resolve_movie_path_attempts original cfg create fs Hne).
  unfold all_attempts. fold np. rewrite Hcfg, override_attempts_app.
  cbn [override_attempts]. rewrite Hov.
  rewrite <- app_assoc, <- app_comm_cons, app_comm_cons.
  fold st0. unfold ensure in *.
  rewrite first_resolved_skip.
  - pose proof (ensure_candidate_result create a.1 a.2 st0) as Hres.
    destruct (ensure_candidate create a.1 a.2 st0) as [r st].
    cbn [fst snd] in *. destruct Hres as [[-> _] | ->]; [discriminate|reflexivity].
  - constructor; [exact Hdirect|].
    apply override_attempts_fail. exact Hbefore.
  - exact Ha.
Qed.

Lemma resolve_movie_path_first_match_witness :
  resolve_movie_path (Some "/movies/hd/Alpha") nested_rules false nested_fs
  = (let (r, st) :=
       first_resolved (ensure_candidate false)
         (all_attempts "/movies/hd/Alpha" nested_rules)
         {| rs_fs := nested_fs; rs_created := false |} in
     ((r, rs_created st), rs_fs st)).
Proof.
  exact (proj1 (resolve_movie_path_first_match "/movies/hd/Alpha" nested_rules
                  false nested_fs eq_refl)).
Defined.

(** C6 as stated fails: both rules match [/movies/hd/Alpha] and both
    rewritten folders exist; the rule with the longer remote prefix
    ([/movies/hd], giving [/mnt/b/Alpha]) does not win, the rule
    configured first does. *)
Lemma resolve_movie_path_not_longest_prefix :
  override_attempts "/movies/hd/Alpha" (path_overrides nested_rules)
  = [("/mnt/a/hd/Alpha", Some "/mnt/a/hd"); ("/mnt/b/Alpha", Some "/mnt/b")]
  /\ isdir nested_fs "/mnt/b/Alpha" = true
  /\ resolve_movie_path (Some "/movies/hd/Alpha") nested_rules true nested_fs
     = ((Some "/mnt/a/hd/Alpha", false), nested_fs).
Proof.
  split; [|split]; vm_compute; reflexivity.
Qed.

(** ** Runs of store calls *)

Lemma store_call_run (job_id : string) (op : store_op) (w : world) :
  store_call job_id op w = (tt, run_ops job_id [op] w).
Proof. reflexivity. Qed.

Lemma apply_ops_app (ops1 ops2 : list store_op) (j : job) :
  apply_ops (ops1 ++ ops2) j = apply_ops ops2 (apply_ops ops1 j).
Proof. unfold apply_ops. apply fold_left_app. Qed.

Lemma run_ops_nil (job_id : string) (w : world) : run_ops job_id [] w = w.
Proof.
  destruct w as [jobs controls fs journal]. unfold run_ops. cbn.
  rewrite app_nil_r. f_equal.
  apply map_eq. intros i. rewrite lookup_alter.
  case_decide as Hi; [|reflexivity]. destruct Hi.
  destruct (jobs !! job_id); reflexivity.
Qed.

Lemma run_ops_app (job_id : string) (ops1 ops2 : list store_op) (w : world) :
  run_ops job_id ops2 (run_ops job_id ops1 w) = run_ops job_id (ops1 ++ ops2) w.
Proof.
  unfold run_ops. cbn. rewrite map_app, app_assoc. f_equal.
  apply map_eq. intros i. rewrite !lookup_alter.
  case_decide as Hi; [|reflexivity]. destruct Hi.
  rewrite decide_True by reflexivity.
  destruct (w_jobs w !! job_id); cbn; [|reflexivity].
  rewrite apply_ops_app. reflexivity.
Qed.

Lemma run_ops_lookup (job_id : string) (ops : list store_op) (w : world) (j : job) :
  w_jobs w !! job_id = Some j ->
  w_jobs (run_ops job_id ops w) !! job_id = Some (apply_ops ops j).
Proof. intros H. cbn. rewrite lookup_alter, decide_True, H by reflexivity. reflexivity. Qed.

(** ** [handle_output_line] as a run of store calls *)

Ltac run_store :=
  unfold log, warn, debug, fail, append_job_log, replace_job_log,
    _job_status, _mark_job_failure;
  repeat (rewrite ?bind_run, ?ret_run, ?store_call_run, ?run_ops_app;
          cbn beta iota zeta).

Lemma handle_output_line_run (job_id : string) (compact : bool)
    (text : string) (loc : fetch_local) (w : world) :
  handle_output_line job_id compact text loc w
  = ((line_ops compact loc text).2, run_ops job_id (line_ops compact loc text).1 w).
Proof.
  unfold handle_output_line, line_ops, classify_op.
  destruct (negb (nonempty (strip text))).
  { rewrite ret_run, run_ops_nil. reflexivity. }
  cbn [progress_log_active output_lines].
  destruct (progress_search (strip text)) as [m|].
  - destruct (startswith (strip text) "[download]") eqn:Hd.
    + destruct compact; [destruct (progress_log_active loc)|];
        cbn [negb]; run_store; reflexivity.
    + cbn [orb].
      repeat match goal with
             | |- context [if ?c then _ else _] => destruct c
             end; run_store; reflexivity.
  - repeat match goal with
           | |- context [if ?c then _ else _] => destruct c
           end; run_store; reflexivity.
Qed.


(** ** The range of a parsed progress value *)













(** ** Runs of download-progress lines *)

Lemma line_ops_progress (compact : bool) (loc : fetch_local) (text : string) :
  is_progress_line text = true ->
  line_ops compact loc text
  = ([OpStatus Processing (Some (progress_of text));
      if compact && progress_log_active loc
      then OpReplaceLastLog (strip text) else OpAppendLog (strip text)],
     {| output_lines := output_lines loc ++ [strip text];
        progress_log_active := progress_log_active loc || compact |}).
Proof.
  unfold is_progress_line, line_ops, progress_of.
  intros [[Hne Hs]%andb_true_iff Hd]%andb_true_iff.
  apply bool_decide_eq_true in Hs.
  rewrite Hne, Hd. cbn [negb].
  destruct (progress_search (strip text)) as [m|]; [|congruence].
  destruct compact, (progress_log_active loc); reflexivity.
Qed.

(** With debug logging enabled every line of a run is appended. *)
Lemma progress_run_debug (loc : fetch_local) (texts : list string) :
  Forall (fun t => is_progress_line t = true) texts ->
  log_ops (lines_ops false loc texts).1 = map (fun t => OpAppendLog (strip t)) texts.
Proof.
  intros H. revert loc. induction H as [|t texts Ht _ IH]; intros loc; [reflexivity|].
  cbn [lines_ops]. rewrite (line_ops_progress false loc t Ht).
  specialize (IH {| output_lines := output_lines loc ++ [strip t];
                    progress_log_active := progress_log_active loc || false |}).
  destruct (lines_ops false _ texts) as [ops' loc''].
  cbn [fst] in *. unfold log_ops in *. cbn. f_equal. exact IH.
Qed.

(** In compact mode, once the flag [progress_log_active] is set, a run
    issues replace-last calls only. *)
Lemma progress_run_compact_active (loc : fetch_local) (texts : list string) :
  progress_log_active loc = true ->
  Forall (fun t => is_progress_line t = true) texts ->
  log_ops (lines_ops true loc texts).1
  = map (fun t => OpReplaceLastLog (strip t)) texts.
Proof.
  intros Hact H. revert loc Hact.
  induction H as [|t texts Ht _ IH]; intros loc Hact; [reflexivity|].
  cbn [lines_ops]. rewrite (line_ops_progress true loc t Ht), Hact.
  specialize (IH {| output_lines := output_lines loc ++ [strip t];
                    progress_log_active := true || true |} eq_refl).
  destruct (lines_ops true _ texts) as [ops' loc''].
  cbn [fst] in *. unfold log_ops in *. cbn. f_equal. exact IH.
Qed.

(** In compact mode the first run of a fetch phase issues one append and
    then replace-last calls. *)
Lemma progress_run_compact_first (loc : fetch_local) (t : string)
    (texts : list string) :
  progress_log_active loc = false ->
  Forall (fun t => is_progress_line t = true) (t :: texts) ->
  log_ops (lines_ops true loc (t :: texts)).1
  = OpAppendLog (strip t) :: map (fun t => OpReplaceLastLog (strip t)) texts.
Proof.
  intros Hact H. inversion H as [|? ? Ht Hrest]; subst.
  cbn [lines_ops]. rewrite (line_ops_progress true loc t Ht), Hact.
  pose proof (progress_run_compact_active
                {| output_lines := output_lines loc ++ [strip t];
                   progress_log_active := false || true |} texts eq_refl Hrest) as Hr.
  destruct (lines_ops true _ texts) as [ops' loc''].
  cbn [fst] in *. unfold log_ops in *. cbn. f_equal. exact Hr.
Qed.

(** The flag is never cleared: whatever lines follow, it stays set. *)
Lemma progress_log_active_sticky (compact : bool) (loc : fetch_local)
    (texts : list string) :
  progress_log_active loc = true ->
  progress_log_active (lines_ops compact loc texts).2 = true.
Proof.
  revert loc. induction texts as [|t texts IH]; intros loc Hact; [exact Hact|].
  cbn [lines_ops].
  destruct (line_ops compact loc t) as [ops loc'] eqn:Hl.
  assert (Hact' : progress_log_active loc' = true).
  { unfold line_ops in Hl.
    repeat match type of Hl with
           | context [if ?c then _ else _] => destruct c
           | context [match ?c with Some _ => _ | None => _ end] => destruct c
           end; injection Hl as <- <-; cbn; first [exact Hact | reflexivity]. }
  specialize (IH loc' Hact').
  destruct (lines_ops compact loc' texts) as [ops' loc'']. exact IH.
Qed.

(** C8 (defect).  With debug logging disabled, a run of progress lines
    that follows another logged line gets no append of its own: the flag
    [progress_log_active], set by the first run, is never cleared, so the
    run starts with a replace-last call, which overwrites the line logged
    before it.  Here the second run has one line; the journal shows no
    append for it and the destination line is gone from the log. *)
Theorem second_progress_run_overwrites_log :
  let w' := (stream_output no_glob "job-1" true None fetch_child
               two_stream_output fresh_fetch false fetching_world).2 in
  w_journal w'
  = [EStore "job-1" (OpStatus Processing (Some (decimal_value (chars "50", chars "0"))));
     EStore "job-1" (OpAppendLog "[download]  50.0% of 10.00MiB at 1.00MiB/s ETA 00:05");
     EStore "job-1" (OpAppendLog "[download] Destination: Alpha.f140.m4a");
     EStore "job-1" (OpStatus Processing (Some (decimal_value (chars "10", chars "0"))));
     EStore "job-1" (OpReplaceLastLog "[download]  10.0% of 3.00MiB at 1.00MiB/s ETA 00:02")]
  /\ j_logs <$> (w_jobs w' !! "job-1")
     = Some ["Job queued."; "Running yt-dlp with explicit output template.";
             "[download]  50.0% of 10.00MiB at 1.00MiB/s ETA 00:05";
             "[download]  10.0% of 3.00MiB at 1.00MiB/s ETA 00:02"].
Proof.
  split; vm_compute; reflexivity.
Qed.

(** ** A fetch that exits with a non-zero code *)





Lemma set_controls_run (f : gmap string JobControl -> gmap string JobControl)
    (w : world) :
  set_controls f w
  = (tt, {| w_jobs := w_jobs w; w_controls := f (w_controls w);
            w_fs := w_fs w; w_journal := w_journal w |}).
Proof. reflexivity. Qed.

Lemma cleanup_temp_files_run (glob : filesystem -> string -> list string)
    (pattern : option string) (w : world) :
  cleanup_temp_files glob pattern w
  = (tt, {| w_jobs := w_jobs w; w_controls := w_controls w;
            w_fs := _cleanup_temp_files glob pattern (w_fs w);
            w_journal := w_journal w ++ [ECleanup pattern] |}).
Proof. reflexivity. Qed.



(** ** The metadata probe at its timeout *)

Lemma terminate_process_calls (p : option process) (w : world) :
  _terminate_process p w = (tt, run_calls (terminate_calls p) w).
Proof. apply terminate_process_run. Qed.

Lemma probe_loop_skip (job_id : string) (p : process)
    (before rest : list probe_tick) (buf : probe_buffers) (logged : bool)
    (w : world) :
  Forall (fun t => tick_continues t = true) before ->
  probe_loop job_id p (before ++ rest) buf logged w
  = probe_loop job_id p rest (fold_left tick_buffers before buf) logged w.
Proof.
  intros H. revert buf. induction H as [|t before Ht _ IH]; intros buf; [reflexivity|].
  cbn [app fold_left probe_loop]. rewrite <- IH. clear IH.
  unfold tick_continues in Ht.
  apply andb_true_iff in Ht as [[Hc He]%andb_true_iff Hgo].
  apply negb_true_iff in Hc. rewrite Hc.
  assert (Hle : (METADATA_FETCH_TIMEOUT_SECONDS * 1000 <=? t_elapsed t) = false).
  { apply Z.leb_gt. apply Z.ltb_lt in He. exact He. }
  rewrite Hle, andb_false_r.
  unfold tick_buffers.
  destruct (t_streams_open t); cbn [negb].
  - destruct (t_poll t); [|reflexivity]. rewrite Hgo. reflexivity.
  - destruct (t_poll t); [discriminate|]. rewrite Hgo. reflexivity.
Qed.

Lemma probe_loop_timeout (job_id : string) (p : process) (t : probe_tick)
    (rest : list probe_tick) (buf : probe_buffers) (logged : bool) (w : world) :
  tick_times_out t = true ->
  probe_loop job_id p (t :: rest) buf logged w
  = (Some (LoopBroke true, buf, logged),
     run_calls (terminate_calls (Some p))
       (run_ops job_id [OpAppendLog ("WARNING: " +:+ timeout_warning)] w)).
Proof.
  unfold tick_times_out. intros [Hc He]%andb_true_iff.
  apply negb_true_iff in Hc. cbn [probe_loop]. rewrite Hc, He.
  cbn [negb andb Z.eqb METADATA_FETCH_TIMEOUT_SECONDS].
  run_store. rewrite terminate_process_calls. reflexivity.
Qed.

Lemma for_each_debug_run (job_id prefix : string) (lines : list string) (w : world) :
  for_each lines
    (fun line => store_call job_id (OpAppendLog ("DEBUG: " +:+ prefix +:+ line))) w
  = (tt, run_ops job_id
           (map (fun line => OpAppendLog ("DEBUG: " +:+ prefix +:+ line)) lines) w).
Proof.
  revert w. induction lines as [|l lines IH]; intros w.
  - cbn. rewrite ret_run, run_ops_nil. reflexivity.
  - cbn [for_each map]. rewrite bind_run.
    rewrite store_call_run, IH, run_ops_app. reflexivity.
Qed.

Lemma store_ops_of_app (e1 e2 : list effect) :
  store_ops_of (e1 ++ e2) = store_ops_of e1 ++ store_ops_of e2.
Proof. unfold store_ops_of. apply flat_map_app. Qed.

Lemma store_ops_of_store (job_id : string) (ops : list store_op) :
  store_ops_of (map (EStore job_id) ops) = ops.
Proof. induction ops as [|op ops IH]; cbn; [reflexivity|]. f_equal. exact IH. Qed.

Lemma store_ops_of_calls (calls : list proc_call) :
  store_ops_of (map ECall calls) = [].
Proof. induction calls as [|c calls IH]; cbn; [reflexivity|exact IH]. Qed.

Lemma alter_apply_nil (job_id : string) (jobs : gmap string job) :
  alter (apply_ops []) job_id jobs = jobs.
Proof.
  apply map_eq. intros i. rewrite lookup_alter.
  case_decide as Hi; [|reflexivity]. destruct Hi.
  destruct (jobs !! job_id); reflexivity.
Qed.

Lemma run_ops_effects (job_id : string) (ops : list store_op) (w : world) :
  run_ops job_id ops w
  = run_effects job_id (map (EStore job_id) ops) (w_controls w) w.
Proof. unfold run_ops, run_effects. rewrite store_ops_of_store. reflexivity. Qed.

Lemma run_calls_effects (job_id : string) (calls : list proc_call) (w : world) :
  run_calls calls w = run_effects job_id (map ECall calls) (w_controls w) w.
Proof.
  unfold run_calls, run_effects. rewrite store_ops_of_calls, alter_apply_nil.
  reflexivity.
Qed.

Lemma set_controls_effects (job_id : string)
    (f : gmap string JobControl -> gmap string JobControl) (w : world) :
  set_controls f w = (tt, run_effects job_id [] (f (w_controls w)) w).
Proof.
  unfold set_controls, run_effects. cbn. rewrite alter_apply_nil, app_nil_r.
  reflexivity.
Qed.

Lemma run_effects_compose (job_id : string) (e1 e2 : list effect)
    (c1 c2 : gmap string JobControl) (w : world) :
  run_effects job_id e2 c2 (run_effects job_id e1 c1 w)
  = run_effects job_id (e1 ++ e2) c2 w.
Proof.
  unfold run_effects. cbn. rewrite store_ops_of_app, app_assoc. f_equal.
  apply map_eq. intros i. rewrite !lookup_alter.
  case_decide as Hi; [|reflexivity]. destruct Hi.
  rewrite decide_True by reflexivity.
  destruct (w_jobs w !! job_id); cbn; [|reflexivity].
  rewrite apply_ops_app. reflexivity.
Qed.

Lemma appends_keep_status (ops : list store_op) (j : job) :
  forallb is_append ops = true -> j_status (apply_ops ops j) = j_status j.
Proof.
  revert j. induction ops as [|op ops IH]; intros j; [reflexivity|].
  cbn. intros [Hop Hops]%andb_true_iff.
  change (j_status (apply_ops ops (apply_op op j)) = j_status j).
  rewrite (IH _ Hops). destruct op; try discriminate. reflexivity.
Qed.

Section ProbeTimeout.

Variable json_loads : string -> option json.
Variable py_str : json -> string.
Variable _resolve_requested_format : pydict -> format_summary.

Lemma report_metadata_timed_out (job_id : string) (debug_enabled : bool)
    (out : probe_output) (w : world) :
  metadata_timed_out out = true ->
  report_metadata json_loads py_str _resolve_requested_format
                  job_id debug_enabled out w
  = (report_result json_loads _resolve_requested_format out,
     run_ops job_id
       (map OpAppendLog
            (report_lines json_loads py_str _resolve_requested_format
                          debug_enabled out)) w).
Proof.
  intros Ht. unfold report_metadata, report_lines, report_result.
  rewrite Ht. cbn [negb]. rewrite andb_false_r.
  set (entries := parse_info_entries json_loads (info_stdout out)).
  set (payload := select_preferred_entry entries).
  cbn [fst snd].
  destruct (bool_decide (entries <> []) && debug_enabled);
    destruct (nonempty (info_stderr out));
    destruct (payload_truthy payload);
    cbn [when]; unfold debug, log, append_job_log;
    repeat (rewrite ?bind_run, ?ret_run, ?store_call_run, ?for_each_debug_run,
              ?run_ops_app, ?run_ops_nil; cbn beta iota zeta);
    try (destruct (option_map _resolve_requested_format payload));
    repeat (rewrite ?bind_run, ?ret_run, ?store_call_run, ?for_each_debug_run,
              ?run_ops_app, ?run_ops_nil; cbn beta iota zeta);
    rewrite ?map_app, ?List.map_map; cbn [map app];
    rewrite <- ?app_assoc; cbn [app]; reflexivity.
Qed.

End ProbeTimeout.

Lemma timeout_output_timed_out (env : probe_env) (before : list probe_tick) :
  metadata_timed_out (timeout_output env before) = true.
Proof.
  unfold timeout_output. destruct (e_wait1 env); try reflexivity.
  destruct (e_wait2 env); reflexivity.
Qed.

Ltac to_effects job_id :=
  repeat (rewrite ?bind_run, ?ret_run, ?store_call_run, ?terminate_process_calls,
            ?run_ops_effects, ?(run_calls_effects job_id),
            ?(set_controls_effects job_id), ?run_effects_compose;
          cbn beta iota zeta; cbn [w_controls run_effects]).

Lemma run_probe_timeout (job_id : string) (env : probe_env) (logged : bool)
    (p : process) (before after : list probe_tick) (t : probe_tick) (w : world) :
  e_launch env = inl p ->
  e_ticks env = before ++ t :: after ->
  Forall (fun t => tick_continues t = true) before ->
  tick_times_out t = true ->
  exists controls,
    run_probe job_id env logged w
    = (Some (Went_on (timeout_output env before) logged),
       run_effects job_id
         ([EStore job_id (OpAppendLog timeout_line)]
          ++ map ECall (terminate_calls (Some p))
          ++ wait_effects job_id p env)
         controls w).
Proof.
  intros Hlaunch Hticks Hbefore Ht.
  unfold run_probe, timeout_output, wait_effects.
  rewrite Hlaunch, Hticks. unfold _set_job_process, _clear_job_process.
  rewrite bind_run, (set_controls_effects job_id). cbn beta iota zeta.
  rewrite bind_run, (probe_loop_skip _ _ _ _ _ _ _ Hbefore),
    (probe_loop_timeout _ _ _ _ _ _ _ Ht).
  cbn beta iota zeta. fold no_chunks. fold timeout_line.
  unfold warn, append_job_log.
  destruct (e_wait1 env) as [rc| |exc]; [| destruct (e_wait2 env) as [rc| |exc] |];
    to_effects job_id; eexists; rewrite ?app_nil_r, <- ?app_assoc;
    cbn [app]; reflexivity.
Qed.

Lemma startswith_app_literal (a x p : string) :
  prefix_chars (chars p) (chars a) = true -> startswith (a +:+ x) p = true.
Proof.
  unfold startswith. rewrite chars_app.
  intros [r Hr]%prefix_chars_spec. apply prefix_chars_spec.
  exists (r ++ chars x). rewrite Hr, <- app_assoc. reflexivity.
Qed.

Lemma debug_not_warning (x : string) :
  startswith ("DEBUG: " +:+ x) "WARNING: " = false.
Proof. unfold startswith. rewrite chars_app. reflexivity. Qed.

Lemma resolved_not_warning (f : format_summary) :
  startswith (resolved_format_line f) "WARNING: " = false.
Proof. unfold startswith, resolved_format_line. rewrite chars_app. reflexivity. Qed.

Lemma timeout_line_warning : startswith timeout_line "WARNING: " = true.
Proof. vm_compute. reflexivity. Qed.

Lemma not_warning_not_timeout (l : string) :
  startswith l "WARNING: " = false -> String.eqb l timeout_line = false.
Proof.
  intros H. destruct (String.eqb_spec l timeout_line) as [->|]; [|reflexivity].
  rewrite timeout_line_warning in H. discriminate.
Qed.

Lemma failed_query_not_timeout (exc : string) :
  String.eqb ("WARNING: " +:+ "Failed to query format details via yt-dlp: " +:+ exc)
             timeout_line = false.
Proof.
  destruct (String.eqb_spec
              ("WARNING: " +:+ "Failed to query format details via yt-dlp: " +:+ exc)
              timeout_line) as [H|]; [|reflexivity].
  apply (f_equal chars) in H. rewrite !chars_app in H.
  vm_compute in H. discriminate.
Qed.

Lemma filter_calls (f : effect -> bool) (calls : list proc_call) :
  (forall c, f (ECall c) = false) ->
  List.filter f (map ECall calls) = [].
Proof.
  intros Hf. induction calls as [|c calls IH]; cbn; [reflexivity|].
  rewrite Hf. exact IH.
Qed.

Lemma filter_log_lines (f : effect -> bool) (g : string -> bool)
    (job_id : string) (lines : list string) :
  (forall l, g l = true -> f (EStore job_id (OpAppendLog l)) = false) ->
  forallb g lines = true ->
  List.filter f (map (fun l => EStore job_id (OpAppendLog l)) lines) = [].
Proof.
  intros Hf. induction lines as [|l lines IH]; cbn; [reflexivity|].
  intros [Hl Hls]%andb_true_iff. rewrite (Hf l Hl). exact (IH Hls).
Qed.

Lemma store_ops_of_log_lines (job_id : string) (lines : list string) :
  store_ops_of (map (fun l => EStore job_id (OpAppendLog l)) lines)
  = map OpAppendLog lines.
Proof. induction lines as [|l lines IH]; cbn; [reflexivity|]. f_equal. exact IH. Qed.

Lemma appends_are_appends (lines : list string) :
  forallb is_append (map OpAppendLog lines) = true.
Proof. induction lines as [|l lines IH]; cbn; [reflexivity|exact IH]. Qed.

Lemma wait_effects_appends (job_id : string) (p : process) (env : probe_env) :
  forallb is_append (store_ops_of (wait_effects job_id p env)) = true.
Proof.
  unfold wait_effects. destruct (e_wait1 env); try reflexivity.
  rewrite store_ops_of_app, store_ops_of_calls.
  destruct (e_wait2 env); reflexivity.
Qed.

Lemma report_lines_not_warning (json_loads : string -> option json)
    (py_str : json -> string) (resolve : pydict -> format_summary)
    (debug_enabled : bool) (out : probe_output) :
  forallb (fun l => negb (startswith l "WARNING: "))
          (report_lines json_loads py_str resolve debug_enabled out) = true.
Proof.
  unfold report_lines. rewrite !forallb_app.
  apply andb_true_iff; split;
    [|apply andb_true_iff; split; [|apply andb_true_iff; split]].
  - destruct (_ && _); [|reflexivity].
    cbn [forallb]. rewrite debug_not_warning. reflexivity.
  - destruct (nonempty (info_stderr out)); [|reflexivity].
    induction (splitlines (strip (info_stderr out))) as [|l ls IH]; [reflexivity|].
    cbn [map forallb]. rewrite debug_not_warning. exact IH.
  - destruct (payload_truthy _); reflexivity.
  - cbn [forallb]. destruct (report_result json_loads resolve out).2.
    + rewrite resolved_not_warning. reflexivity.
    + reflexivity.
Qed.

Lemma timeout_delta_warnings (job_id : string) (p : process) (env : probe_env)
    (lines : list string) :
  forallb (fun l => negb (startswith l "WARNING: ")) lines = true ->
  length (List.filter is_timeout_warning (timeout_delta job_id p env lines)) = 1%nat
  /\ length (List.filter is_warning (timeout_delta job_id p env lines))
     = match e_wait1 env, e_wait2 env with
       | WaitExpired, WaitOSError _ => 2%nat
       | _, _ => 1%nat
       end.
Proof.
  intros Hlines. unfold timeout_delta. rewrite !List.filter_app, !length_app.
  rewrite !filter_calls by reflexivity.
  rewrite (filter_log_lines is_timeout_warning
             (fun l => negb (startswith l "WARNING: ")) job_id lines);
    [|intros l Hl; apply negb_true_iff in Hl; cbn;
      apply not_warning_not_timeout; exact Hl | exact Hlines].
  rewrite (filter_log_lines is_warning
             (fun l => negb (startswith l "WARNING: ")) job_id lines);
    [|intros l Hl; apply negb_true_iff in Hl; exact Hl | exact Hlines].
  assert (H1 : List.filter is_timeout_warning
                 [EStore job_id
                    (OpAppendLog "Fetching YouTube metadata to determine output naming and formats.");
                  EStore job_id (OpAppendLog timeout_line)]
               = [EStore job_id (OpAppendLog timeout_line)]).
  { cbn [List.filter is_timeout_warning]. rewrite String.eqb_refl.
    replace (String.eqb _ timeout_line) with false by (vm_compute; reflexivity).
    reflexivity. }
  assert (H2 : List.filter is_warning
                 [EStore job_id
                    (OpAppendLog "Fetching YouTube metadata to determine output naming and formats.");
                  EStore job_id (OpAppendLog timeout_line)]
               = [EStore job_id (OpAppendLog timeout_line)]).
  { cbn [List.filter is_warning]. rewrite timeout_line_warning.
    replace (startswith _ "WARNING: ") with false by (vm_compute; reflexivity).
    reflexivity. }
  rewrite H1, H2. unfold wait_effects.
  destruct (e_wait1 env) as [rc| |exc]; [split; reflexivity| |split; reflexivity].
  rewrite !List.filter_app, !filter_calls by reflexivity.
  destruct (e_wait2 env) as [rc| |exc]; [split; reflexivity..|].
  cbn [List.filter is_timeout_warning is_warning app length].
  rewrite failed_query_not_timeout.
  rewrite (startswith_app_literal "WARNING: " _ "WARNING: " eq_refl).
  split; reflexivity.
Qed.

Section ProbeTimeoutClaim.

Variable json_loads : string -> option json.
Variable py_str : json -> string.
Variable _resolve_requested_format : pydict -> format_summary.

(** C4.  When the supervision loop of the metadata probe finds the
    wall-clock budget used up (and no cancellation is seen by the phase),
    the metadata phase goes on to the fetch: it terminates the probe
    child, logs the timeout warning exactly once, issues no store call but
    log appends (so the job's status is what it was, never failed), and
    hands on the entry selected from whatever output was collected; the
    resolved-format summary is empty when no entry was parsed.  A second
    warning appears only when the second bounded wait raises [OSError]. *)
Theorem metadata_timeout_is_soft
    (job_id : string) (debug_enabled : bool) (env : probe_env) (logged : bool)
    (p : process) (before after : list probe_tick) (t : probe_tick) (w : world) :
  e_cancel_before env = false ->
  e_launch env = inl p ->
  e_ticks env = before ++ t :: after ->
  Forall (fun t => tick_continues t = true) before ->
  tick_times_out t = true ->
  e_cancel_after env = false ->
  let out := timeout_output env before in
  let res := report_result json_loads _resolve_requested_format out in
  let delta :=
    timeout_delta job_id p env
      (report_lines json_loads py_str _resolve_requested_format debug_enabled out) in
  exists w',
    metadata_phase json_loads py_str _resolve_requested_format
                   job_id debug_enabled env logged w
    = (Some (Went_on res logged), w')
    /\ w_journal w' = w_journal w ++ delta
    /\ In (ECall (CallTerminate (pid p))) delta
    /\ length (List.filter is_timeout_warning delta) = 1%nat
    /\ length (List.filter is_warning delta)
       = match e_wait1 env, e_wait2 env with
         | WaitExpired, WaitOSError _ => 2%nat
         | _, _ => 1%nat
         end
    /\ forallb is_append (store_ops_of delta) = true
    /\ (forall j, w_jobs w !! job_id = Some j ->
                  exists j', w_jobs w' !! job_id = Some j'
                             /\ j_status j' = j_status j)
    /\ (payload_truthy res.1 = false -> res.2 = None)
    /\ (parse_info_entries json_loads (info_stdout out) = [] -> res = (None, None)).
Proof.
  intros Hcb Hlaunch Hticks Hbefore Ht Hca out res delta.
  destruct (run_probe_timeout job_id env logged p before after t
              (run_ops job_id
                 [OpAppendLog "Fetching YouTube metadata to determine output naming and formats."]
                 w)
              Hlaunch Hticks Hbefore Ht) as [controls Hprobe].
  assert (Happends : forallb is_append (store_ops_of delta) = true).
  { unfold delta, timeout_delta. rewrite !store_ops_of_app, !forallb_app.
    rewrite store_ops_of_calls, wait_effects_appends, store_ops_of_log_lines,
      appends_are_appends. reflexivity. }
  exists (run_effects job_id delta controls w).
  split; [|split; [|split; [|split; [|split; [|split; [|split]]]]]].
  - unfold metadata_phase. rewrite Hcb. unfold log at 1, append_job_log.
    rewrite bind_run, store_call_run. cbn beta iota zeta.
    rewrite bind_run, Hprobe. cbn beta iota zeta. rewrite Hca.
    rewrite bind_run, report_metadata_timed_out
      by apply timeout_output_timed_out.
    cbn beta iota zeta. rewrite ret_run. fold out res. f_equal.
    rewrite !run_ops_effects, !run_effects_compose. cbn [w_controls run_effects].
    unfold delta, timeout_delta.
    rewrite List.map_map, <- !app_assoc. reflexivity.
  - reflexivity.
  - unfold delta, timeout_delta. apply in_or_app. right.
    apply in_or_app. left. left. reflexivity.
  - apply timeout_delta_warnings, report_lines_not_warning.
  - apply timeout_delta_warnings, report_lines_not_warning.
  - exact Happends.
  - intros j Hj. cbn [run_effects w_jobs].
    rewrite lookup_alter, decide_True, Hj by reflexivity.
    eexists. split; [reflexivity|]. apply appends_keep_status. exact Happends.
  - split.
    + unfold res, report_result. cbn [fst snd]. intros ->. reflexivity.
    + unfold res, report_result. intros ->. reflexivity.
Qed.

End ProbeTimeoutClaim.

Lemma metadata_timeout_is_soft_witness :
  exists w',
    metadata_phase no_json plain_str unknown_format "job-1" false
                   hanging_probe false fetching_world
    = (Some (Went_on (None, None) false), w')
    /\ length (List.filter is_warning (w_journal w')) = 1%nat
    /\ j_status <$> (w_jobs w' !! "job-1") = Some Processing.
Proof.
  destruct (metadata_timeout_is_soft no_json plain_str unknown_format
              "job-1" false hanging_probe false probe_child
              [quiet_tick 200 "{"; quiet_tick 60000 ""] [] (quiet_tick 120000 "")
              fetching_world eq_refl eq_refl eq_refl
              ltac:(repeat constructor) eq_refl eq_refl)
    as (w' & Hrun & Hjournal & _ & _ & Hwarn & _ & Hstatus & _ & Hnone).
  exists w'. split; [|split].
  - rewrite Hrun, Hnone; reflexivity.
  - rewrite Hjournal. exact Hwarn.
  - destruct (Hstatus _ eq_refl) as (j' & Hj & Hs).
    rewrite Hj. cbn. rewrite Hs. reflexivity.
Defined.

(** ** Rejection of invalid URLs at submission *)

Section ValidationClaim.

Variable urlparse : string -> option parsed_url.
Variable geturl_with_path : parsed_url -> string -> string.

Lemma validate_invalid_url (data : request_data) :
  url_invalid urlparse data ->
  (_validate_request_urls urlparse geturl_with_path data).2
  = ["Video URL is required."]
  \/ (_validate_request_urls urlparse geturl_with_path data).2
     = ["Only YouTube, Vimeo, or Dailymotion URLs are supported."].
Proof.
  unfold url_invalid, _validate_request_urls.
  intros [Hempty | (parsed & Hparse & Hbad)].
  - rewrite Hempty. left. reflexivity.
  - destruct (nonempty (strip (or_default (rq_yturl data) ""))); cbn [negb];
      [|left; reflexivity].
    rewrite Hparse. right.
    assert (Hcond :
      negb (bool_decide (u_scheme parsed ∈ ["http"; "https"]))
      || negb (bool_decide (lower (or_default (u_hostname parsed) "") ∈ allowed_hosts))
      = true).
    { apply orb_true_iff. destruct Hbad as [Hs | Hh]; [left|right];
        apply negb_true_iff, bool_decide_eq_false; assumption. }
    rewrite Hcond. reflexivity.
Qed.

Lemma prepare_errors_end (data : request_data) :
  exists before,
    (_prepare_create_payload urlparse geturl_with_path data).2
    = before ++ (_validate_request_urls urlparse geturl_with_path data).2.
Proof.
  unfold _prepare_create_payload.
  destruct (_resolve_playlist_mode data) as [mode e1].
  destruct (_resolve_extra_settings data) as [[[er en] et] e2].
  destruct (rq_standalone data).
  - destruct (_validate_request_urls urlparse geturl_with_path data) as [u e4].
    cbn [snd]. exists (e1 ++ e2 ++ []). rewrite <- !app_assoc. reflexivity.
  - destruct (_validate_movie_selection data) as [m e3].
    destruct (_validate_request_urls urlparse geturl_with_path data) as [u e4].
    cbn [snd]. exists (e1 ++ e2 ++ e3). rewrite <- !app_assoc. reflexivity.
Qed.

(** C10.  A request whose video URL is empty, has a scheme other than
    [http]/[https], or names a host outside the allow-list makes
    [_validate_request_urls] report an error, and [create] answers with a
    rejection (400 with the error among the logs; 503 when the application
    is not configured) and leaves the world as it was: no job record, no
    job control, no worker. *)
Theorem create_rejects_invalid_url
    (cfg : config) (data : request_data) (job_id : string) (w : world) :
  url_invalid urlparse data ->
  (_validate_request_urls urlparse geturl_with_path data).2 <> []
  /\ exists code logs,
       create urlparse geturl_with_path cfg data job_id w
       = (CreateRejected code logs, w)
       /\ (is_configured cfg = false -> code = 503)
       /\ (is_configured cfg = true ->
           code = 400
           /\ forall message,
                In message (_validate_request_urls urlparse geturl_with_path data).2 ->
                In ("ERROR: " +:+ message) logs).
Proof.
  intros Hbad.
  assert (Herr : (_validate_request_urls urlparse geturl_with_path data).2 <> []).
  { destruct (validate_invalid_url data Hbad) as [-> | ->]; discriminate. }
  split; [exact Herr|].
  unfold create. destruct (is_configured cfg); cbn [negb].
  - destruct (prepare_errors_end data) as [before Hend].
    destruct (_prepare_create_payload urlparse geturl_with_path data)
      as [request errors].
    cbn [snd] in Hend.
    assert (Hne : errors <> []).
    { rewrite Hend. intros H. apply app_eq_nil in H as [_ H]. exact (Herr H). }
    rewrite bool_decide_eq_true_2 by exact Hne.
    eexists _, _. split; [reflexivity|]. split; [discriminate|].
    intros _. split; [reflexivity|].
    intros message Hin. apply in_map_iff. exists message.
    split; [reflexivity|]. rewrite Hend. apply in_or_app. right. exact Hin.
  - eexists _, _. split; [reflexivity|]. split; [reflexivity|discriminate].
Qed.

End ValidationClaim.

Lemma create_rejects_invalid_url_witness :
  create simple_urlparse simple_geturl configured
         (request_for "ftp://youtube.com/watch?v=abc") "job-9" idle_world
  = (CreateRejected 400
       ["ERROR: Only YouTube, Vimeo, or Dailymotion URLs are supported."],
     idle_world).
Proof.
  destruct (create_rejects_invalid_url simple_urlparse simple_geturl configured
              (request_for "ftp://youtube.com/watch?v=abc") "job-9" idle_world)
    as (_ & code & logs & Hrun & _ & _).
  - right. eexists. split; [reflexivity|]. left.
    vm_compute. intros H. inversion H as [|? ? ? H']; subst.
    inversion H' as [|? ? ? H'']; subst. inversion H''.
  - rewrite Hrun. vm_compute in Hrun. injection Hrun as <- <-. reflexivity.
Defined.

(** ** [sanitize_filename] and [build_movie_stem] *)

Lemma lstrip_chars_forallb (P : ascii -> bool) (l : list ascii) :
  forallb P l = true -> forallb P (lstrip_chars l) = true.
Proof.
  induction l as [|c l IH]; cbn; [reflexivity|].
  intros H. apply andb_true_iff in H as [Hc Hl].
  destruct (py_isspace c); [auto|]. cbn. rewrite Hc, Hl. reflexivity.
Qed.

Lemma forallb_rev (P : ascii -> bool) (l : list ascii) :
  forallb P (rev l) = forallb P l.
Proof.
  induction l as [|c l IH]; cbn; [reflexivity|].
  rewrite forallb_app, IH. cbn. rewrite andb_true_r. apply andb_comm.
Qed.

Lemma rstrip_chars_forallb (P : ascii -> bool) (l : list ascii) :
  forallb P l = true -> forallb P (rstrip_chars l) = true.
Proof.
  intros H. unfold rstrip_chars. rewrite forallb_rev.
  apply lstrip_chars_forallb. rewrite forallb_rev. exact H.
Qed.

Lemma rstrip_char_rev_forallb (P : ascii -> bool) (c : ascii) (l : list ascii) :
  forallb P l = true -> forallb P (rstrip_char_rev c l) = true.
Proof.
  induction l as [|x l IH]; cbn; [reflexivity|].
  intros H. apply andb_true_iff in H as [Hx Hl].
  destruct (Ascii.eqb x c); [auto|]. cbn. rewrite Hx, Hl. reflexivity.
Qed.

Lemma rstrip_char_forallb (P : ascii -> bool) (c : ascii) (l : list ascii) :
  forallb P l = true -> forallb P (rstrip_char c l) = true.
Proof.
  intros H. unfold rstrip_char. rewrite forallb_rev.
  apply rstrip_char_rev_forallb. rewrite forallb_rev. exact H.
Qed.

Lemma sub_forbidden_clean (in_run : bool) (l : list ascii) :
  forallb (fun c => negb (is_forbidden c)) (sub_forbidden in_run l) = true.
Proof.
  revert in_run. induction l as [|c l IH]; intros in_run; cbn [sub_forbidden];
    [reflexivity|].
  destruct (is_forbidden c) eqn:Hc.
  - destruct in_run; [apply IH|]. cbn [forallb]. rewrite IH. reflexivity.
  - cbn [forallb]. rewrite Hc, IH. reflexivity.
Qed.

(** What is left of a list after [lstrip_chars] starts with a character
    that is not white space. *)
Lemma lstrip_chars_head (l : list ascii) (c : ascii) (r : list ascii) :
  lstrip_chars l = c :: r -> py_isspace c = false.
Proof.
  induction l as [|x l IH]; cbn; [discriminate|].
  destruct (py_isspace x) eqn:Hx; [exact IH|].
  intros [= <- _]. exact Hx.
Qed.

Lemma rstrip_char_rev_head (c : ascii) (l : list ascii) (x : ascii) (r : list ascii) :
  rstrip_char_rev c l = x :: r -> Ascii.eqb x c = false.
Proof.
  induction l as [|y l IH]; cbn; [discriminate|].
  destruct (Ascii.eqb y c) eqn:Hy; [exact IH|].
  intros [= <- _]. exact Hy.
Qed.

(** The strip functions return a part of their argument. *)
Lemma lstrip_chars_suffix (l : list ascii) :
  exists p, l = p ++ lstrip_chars l.
Proof.
  induction l as [|x l [p Hp]]; cbn; [exists []; reflexivity|].
  destruct (py_isspace x).
  - exists (x :: p). cbn. f_equal. exact Hp.
  - exists []. reflexivity.
Qed.

Lemma rstrip_chars_prefix (l : list ascii) :
  exists s, l = rstrip_chars l ++ s.
Proof.
  unfold rstrip_chars. destruct (lstrip_chars_suffix (rev l)) as [p Hp].
  exists (rev p). rewrite <- rev_app_distr, <- Hp, rev_involutive. reflexivity.
Qed.

Lemma rstrip_char_rev_suffix (c : ascii) (l : list ascii) :
  exists p, l = p ++ rstrip_char_rev c l.
Proof.
  induction l as [|x l [p Hp]]; cbn; [exists []; reflexivity|].
  destruct (Ascii.eqb x c).
  - exists (x :: p). cbn. f_equal. exact Hp.
  - exists []. reflexivity.
Qed.

Lemma rstrip_char_prefix (c : ascii) (l : list ascii) :
  exists s, l = rstrip_char c l ++ s.
Proof.
  unfold rstrip_char. destruct (rstrip_char_rev_suffix c (rev l)) as [p Hp].
  exists (rev p). rewrite <- rev_app_distr, <- Hp, rev_involutive. reflexivity.
Qed.

Lemma rstrip_chars_last (l : list ascii) :
  match rev (rstrip_chars l) with c :: _ => py_isspace c = false | [] => True end.
Proof.
  unfold rstrip_chars. rewrite rev_involutive.
  destruct (lstrip_chars (rev l)) as [|c r] eqn:H; [exact I|].
  exact (lstrip_chars_head _ _ _ H).
Qed.

Lemma sanitized_clean (l : list ascii) :
  let r := rstrip_char "."%char (rstrip_chars (lstrip_chars l)) in
  (forallb (fun c => negb (is_forbidden c)) l = true ->
   forallb (fun c => negb (is_forbidden c)) r = true)
  /\ prefix_chars ["."%char] (rev r) = false
  /\ match r with c :: _ => py_isspace c = false | [] => True end.
Proof.
  cbn zeta. split; [|split].
  - intros H. apply rstrip_char_forallb, rstrip_chars_forallb,
      lstrip_chars_forallb, H.
  - unfold rstrip_char. rewrite rev_involutive.
    destruct (rstrip_char_rev "." (rev (rstrip_chars (lstrip_chars l))))
      as [|x r] eqn:H; [reflexivity|].
    apply rstrip_char_rev_head in H. cbn [prefix_chars].
    rewrite Ascii.eqb_sym, H. reflexivity.
  - destruct (rstrip_char "." (rstrip_chars (lstrip_chars l))) as [|c r] eqn:H;
      [exact I|].
    destruct (rstrip_char_prefix "." (rstrip_chars (lstrip_chars l))) as [s1 H1].
    destruct (rstrip_chars_prefix (lstrip_chars l)) as [s2 H2].
    rewrite H in H1. rewrite H1 in H2. cbn in H2.
    exact (lstrip_chars_head _ _ _ H2).
Qed.

Lemma sanitize_filename_parts (name : string) :
  has_forbidden (sanitize_filename name) = false
  /\ endswith (sanitize_filename name) "." = false
  /\ starts_with_space (sanitize_filename name) = false.
Proof.
  unfold has_forbidden, endswith, starts_with_space, sanitize_filename.
  rewrite chars_str.
  destruct (sanitized_clean (sub_forbidden false (chars name)))
    as (Hf & He & Hs).
  split; [|split].
  - specialize (Hf (sub_forbidden_clean false (chars name))).
    destruct (existsb is_forbidden _) eqn:Hex; [|reflexivity].
    apply existsb_exists in Hex as (c & Hin & Hc).
    rewrite forallb_forall in Hf. specialize (Hf c Hin).
    rewrite Hc in Hf. discriminate.
  - exact He.
  - destruct (rstrip_char _ _) as [|c r]; [reflexivity|]. exact Hs.
Qed.

(** X1.  Whatever the name, the result of [sanitize_filename] holds none
    of the characters backslash, slash, colon, star, question mark, double
    quote, angle brackets and vertical bar; it does not end with a dot and
    does not start with white space. *)
Theorem sanitize_filename_clean (name : string) :
  has_forbidden (sanitize_filename name) = false
  /\ endswith (sanitize_filename name) "." = false
  /\ starts_with_space (sanitize_filename name) = false.
Proof. exact (sanitize_filename_parts name). Qed.

Lemma sub_forbidden_id (l : list ascii) :
  existsb is_forbidden l = false -> sub_forbidden false l = l.
Proof.
  induction l as [|c l IH]; cbn [sub_forbidden existsb]; [reflexivity|].
  intros H. apply orb_false_iff in H as [Hc Hl].
  rewrite Hc, IH by exact Hl. reflexivity.
Qed.

Lemma rstrip_char_id (c : ascii) (l : list ascii) :
  prefix_chars [c] (rev l) = false -> rstrip_char c l = l.
Proof.
  unfold rstrip_char. intros H.
  destruct (rev l) as [|x r] eqn:Hr.
  - cbn. apply (f_equal (@rev ascii)) in Hr. rewrite rev_involutive in Hr.
    symmetry. exact Hr.
  - cbn in H |- *. rewrite Ascii.eqb_sym in H.
    destruct (Ascii.eqb x c); [discriminate|].
    rewrite <- Hr. apply rev_involutive.
Qed.

(** X2.  A name that holds no character of the class, is unchanged by
    [strip] and does not end with a dot is returned as it is. *)
Theorem sanitize_filename_fixes_clean_names (name : string) :
  has_forbidden name = false ->
  strip name = name ->
  endswith name "." = false ->
  sanitize_filename name = name.
Proof.
  unfold has_forbidden, strip, endswith, sanitize_filename.
  intros Hf Hs He.
  rewrite sub_forbidden_id by exact Hf.
  apply (f_equal chars) in Hs. rewrite chars_str in Hs. rewrite Hs.
  rewrite rstrip_char_id by exact He. apply str_chars.
Qed.

Lemma sanitize_filename_fixes_clean_names_witness :
  sanitize_filename "Alpha (2020) {tmdb-1}" = "Alpha (2020) {tmdb-1}".
Proof.
  apply sanitize_filename_fixes_clean_names; reflexivity.
Defined.

(** X3.  [build_movie_stem] never returns the empty string, and what it
    returns is clean in the sense of [sanitize_filename], whatever the
    Radarr record holds. *)
Theorem build_movie_stem_clean (py_str : json -> string) (movie : pydict) :
  nonempty (build_movie_stem py_str movie) = true
  /\ has_forbidden (build_movie_stem py_str movie) = false
  /\ endswith (build_movie_stem py_str movie) "." = false
  /\ starts_with_space (build_movie_stem py_str movie) = false.
Proof.
  unfold build_movie_stem. cbv zeta.
  match goal with |- context [sanitize_filename ?s] => generalize s end.
  intros stem. destruct (sanitize_filename_parts stem) as (Hf & He & Hs).
  destruct (nonempty (sanitize_filename stem)) eqn:Hn.
  - auto.
  - repeat split; reflexivity.
Qed.

(** ** [_filter_logs_for_display] *)

Lemma rstrip_chars_cons (c : ascii) (l : list ascii) :
  py_isspace c = false -> rstrip_chars (c :: l) = c :: rstrip_chars l.
Proof.
  intros Hc. unfold rstrip_chars. cbn [rev].
  assert (H : forall r, lstrip_chars (r ++ [c]) = lstrip_chars r ++ [c]).
  { induction r as [|x r IH]; cbn [lstrip_chars app].
    - rewrite Hc. reflexivity.
    - destruct (py_isspace x); [exact IH | reflexivity]. }
  rewrite H, rev_app_distr. reflexivity.
Qed.

Lemma rstrip_chars_app_nonspace (p x : list ascii) :
  forallb (fun c => negb (py_isspace c)) p = true ->
  rstrip_chars (p ++ x) = p ++ rstrip_chars x.
Proof.
  induction p as [|c p IH]; cbn [forallb app]; [reflexivity|].
  intros H. apply andb_true_iff in H as [Hc Hp].
  apply negb_true_iff in Hc.
  rewrite rstrip_chars_cons by exact Hc. rewrite IH by exact Hp. reflexivity.
Qed.

(** [strip] of a text that starts with a tag free of white space. *)
Lemma strip_tagged (c : ascii) (p x : list ascii) :
  forallb (fun c => negb (py_isspace c)) (c :: p) = true ->
  chars (strip (str (c :: p ++ x))) = c :: p ++ rstrip_chars x.
Proof.
  intros H. unfold strip. rewrite !chars_str.
  pose proof H as H'. cbn [forallb] in H'. apply andb_true_iff in H' as [Hc _].
  apply negb_true_iff in Hc.
  cbn [lstrip_chars]. rewrite Hc.
  exact (rstrip_chars_app_nonspace (c :: p) x H).
Qed.

Lemma lower_chars (s : string) : chars (lower s) = map lower_char (chars s).
Proof. unfold lower. apply chars_str. Qed.

Lemma nonempty_chars (s : string) :
  nonempty s = match chars s with [] => false | _ => true end.
Proof. destruct s; reflexivity. Qed.

Lemma filter_logs_app (l1 l2 : list string) (debug_mode : bool) :
  _filter_logs_for_display (l1 ++ l2) debug_mode
  = _filter_logs_for_display l1 debug_mode
    ++ _filter_logs_for_display l2 debug_mode.
Proof.
  induction l1 as [|raw l1 IH]; cbn [_filter_logs_for_display app];
    [reflexivity|].
  destruct (display_line debug_mode raw); rewrite IH; reflexivity.
Qed.


(** An entry written by [fail], or by [handle_output_line] for an error
    line, is displayed in both modes. *)
Lemma display_line_error_entry (debug_mode : bool) (x : string) :
  display_line debug_mode ("ERROR: " +:+ x) = Some (strip ("ERROR: " +:+ x)).
Proof.
  unfold display_line. cbv zeta.
  pose proof (strip_tagged "E" (chars "RROR:") (" "%char :: chars x) eq_refl) as H.
  change (str ("E"%char :: chars "RROR:" ++ " "%char :: chars x))
    with (str (chars ("ERROR: " +:+ x))) in H.
  rewrite str_chars in H.
  rewrite nonempty_chars, H. cbn [negb].
  destruct debug_mode; [reflexivity|].
  unfold startswith. rewrite lower_chars, H. reflexivity.
Qed.

Lemma display_line_cases (debug_mode : bool) (raw line : string) :
  display_line debug_mode raw = Some line ->
  line = strip raw /\ nonempty line = true
  /\ (debug_mode = false ->
      startswith (lower line) "debug:" = false
      /\ (startswith (lower line) "warning:"
          && existsb (fun snippet => contains snippet (lower line))
                     _NOISY_WARNING_SNIPPETS = false)
      /\ (existsb (startswith (lower line)) display_prefixes
          || existsb (fun phrase => contains phrase (lower line))
                     _ESSENTIAL_PHRASES = true)).
Proof.
  unfold display_line. cbv zeta.
  destruct (nonempty (strip raw)) eqn:Hn; cbn [negb]; [|discriminate].
  destruct debug_mode.
  - intros [= <-]. repeat split; [exact Hn | discriminate..].
  - destruct (startswith (lower (strip raw)) "debug:") eqn:Hd; [discriminate|].
    destruct (startswith (lower (strip raw)) "warning:"
              && existsb (fun snippet => contains snippet (lower (strip raw)))
                         _NOISY_WARNING_SNIPPETS) eqn:Hw; [discriminate|].
    destruct (existsb (startswith (lower (strip raw))) display_prefixes) eqn:Hp.
    + intros [= <-]. rewrite Hd, Hw, Hp. auto.
    + destruct (existsb (fun phrase => contains phrase (lower (strip raw)))
                        _ESSENTIAL_PHRASES) eqn:He; [|discriminate].
      intros [= <-]. rewrite Hd, Hw, Hp, He. auto.
Qed.

Lemma display_line_debug_mode (raw : string) :
  display_line true raw
  = if nonempty (strip raw) then Some (strip raw) else None.
Proof. unfold display_line. destruct (nonempty (strip raw)); reflexivity. Qed.

(** X4.  With debug mode on, the display is the stored log with every
    entry trimmed and the blank ones dropped.  With debug mode off it is a
    subsequence of that: entries are only hidden, never reordered or
    rewritten; no entry that starts with the debug tag is shown (in any
    letter case), no warning that holds one of the noisy snippets is, and
    every entry shown starts with one of the five display prefixes or
    holds an essential phrase. *)
Theorem filter_logs_for_display_rule (logs : list string) :
  _filter_logs_for_display logs true = List.filter nonempty (map strip logs)
  /\ sublist (_filter_logs_for_display logs false)
             (_filter_logs_for_display logs true)
  /\ forall line, In line (_filter_logs_for_display logs false) ->
       startswith (lower line) "debug:" = false
       /\ (startswith (lower line) "warning:" = true ->
           existsb (fun snippet => contains snippet (lower line))
                   _NOISY_WARNING_SNIPPETS = false)
       /\ (existsb (startswith (lower line)) display_prefixes = true
           \/ existsb (fun phrase => contains phrase (lower line))
                      _ESSENTIAL_PHRASES = true).
Proof.
  split; [|split].
  - induction logs as [|raw logs IH]; [reflexivity|].
    cbn [_filter_logs_for_display map List.filter].
    rewrite display_line_debug_mode.
    destruct (nonempty (strip raw)); rewrite IH; reflexivity.
  - induction logs as [|raw logs IH]; [constructor|].
    cbn [_filter_logs_for_display].
    rewrite display_line_debug_mode.
    destruct (display_line false raw) as [line|] eqn:Hl.
    + apply display_line_cases in Hl as (-> & Hn & _). rewrite Hn.
      constructor. exact IH.
    + destruct (nonempty (strip raw)); [constructor|]; exact IH.
  - induction logs as [|raw logs IH]; intros line Hin; [destruct Hin|].
    cbn [_filter_logs_for_display] in Hin.
    destruct (display_line false raw) as [shown|] eqn:Hl; [|exact (IH line Hin)].
    destruct Hin as [<- | Hin]; [|exact (IH line Hin)].
    apply display_line_cases in Hl as (_ & _ & H).
    destruct (H eq_refl) as (Hd & Hw & Hp).
    split; [exact Hd|]. split.
    + intros Hs. rewrite Hs in Hw. exact Hw.
    + apply orb_true_iff in Hp. exact Hp.
Qed.

Lemma fail_run (job_id message : string) (w : world) :
  fail job_id message w
  = (tt, run_ops job_id [OpAppendLog ("ERROR: " +:+ message);
                         OpMarkFailure message] w).
Proof.
  unfold fail, append_job_log, _mark_job_failure.
  rewrite bind_run, store_call_run, store_call_run, run_ops_app. reflexivity.
Qed.

(** X5.  After [fail] the record is failed with the message given, and the
    error entry is the last line a client sees, debug mode on or off: the
    display gains exactly that entry. *)
Theorem fail_is_displayed (job_id message : string) (debug_mode : bool)
    (w : world) (j : job) :
  w_jobs w !! job_id = Some j ->
  exists j',
    w_jobs (fail job_id message w).2 !! job_id = Some j'
    /\ j_status j' = Failed
    /\ j_message j' = message
    /\ _filter_logs_for_display (j_logs j') debug_mode
       = _filter_logs_for_display (j_logs j) debug_mode
         ++ [strip ("ERROR: " +:+ message)].
Proof.
  intros Hj. rewrite fail_run. cbn [snd].
  eexists. split; [apply run_ops_lookup, Hj|].
  cbn. repeat split.
  rewrite filter_logs_app. cbn [_filter_logs_for_display].
  rewrite display_line_error_entry. reflexivity.
Qed.

Lemma fail_is_displayed_witness :
  exists j',
    w_jobs (fail "job-1" "Download failed: HTTP Error 403" fetching_world).2
      !! "job-1" = Some j'
    /\ j_status j' = Failed
    /\ j_message j' = "Download failed: HTTP Error 403"
    /\ _filter_logs_for_display (j_logs j') false
       = _filter_logs_for_display
           ["Job queued."; "Running yt-dlp with explicit output template."] false
         ++ [strip ("ERROR: " +:+ "Download failed: HTTP Error 403")].
Proof.
  apply (fail_is_displayed "job-1" "Download failed: HTTP Error 403" false
           fetching_world
           {| j_status := Processing; j_progress := 20%Q; j_message := "";
              j_logs := ["Job queued.";
                         "Running yt-dlp with explicit output template."] |}).
  reflexivity.
Defined.

Lemma apply_status_logs (st : job_status) (p : option Q) (j : job) :
  j_logs (apply_op (OpStatus st p) j) = j_logs j.
Proof. reflexivity. Qed.




(** ** [cancel_job]: the accepted request and what the view leaves alone *)

Lemma cancel_job_accepted (w : world) (job_id : string) (j : job)
    (c : JobControl) :
  w_jobs w !! job_id = Some j ->
  is_active (j_status j) = true ->
  w_controls w !! job_id = Some c ->
  cancel_job job_id w =
  ({| r_code := 202;
      r_message := if cancel_event c then "Cancellation already requested."
                   else "Cancellation requested.";
      r_job := Some (apply_ops (cancel_request_ops (cancel_event c)) j) |},
   {| w_jobs := alter (apply_ops (cancel_request_ops (cancel_event c)))
                      job_id (w_jobs w);
      w_controls := <[job_id := set_cancel c]> (w_controls w);
      w_fs := w_fs w;
      w_journal := w_journal w ++ map ECall (terminate_calls (proc c))
                   ++ map (EStore job_id)
                          (cancel_request_ops (cancel_event c)) |}).
Proof.
  intros Hj Hact Hc.
  unfold cancel_job, jobs_repo_get, get_control.
  rewrite bind_run, Hj, Hact. cbn [negb].
  rewrite bind_run, Hc.
  rewrite bind_run. unfold set_controls at 1.
  cbn [w_controls w_jobs w_fs w_journal].
  rewrite bind_run, terminate_process_run.
  cbn [w_controls w_jobs w_fs w_journal].
  destruct (cancel_event c) eqn:Hset; cbn [negb when cancel_request_ops map].
  - rewrite bind_run, ret_run, bind_run. cbn [w_jobs].
    rewrite Hj, alter_apply_nil, app_nil_r. reflexivity.
  - unfold append_job_log.
    rewrite bind_run, bind_run, !store_call_run, run_ops_app, bind_run.
    cbn [app]. unfold run_ops at 1.
    cbn [w_controls w_jobs w_fs w_journal].
    rewrite lookup_alter_eq, Hj, ret_run. unfold run_ops.
    cbn [w_controls w_jobs w_fs w_journal map fmap option_fmap option_map
         default from_option].
    rewrite <- app_assoc. reflexivity.
Qed.

(** X7.  The first cancellation request for an active job whose worker is
    registered answers 202 "Cancellation requested.": the cancel flag is
    set and the process handle kept, the child attached to the job (if
    any) is signalled first, then one log line is appended and the message
    becomes "Cancelling..."; status and progress of the record stay as
    they are. *)
Theorem cancel_job_first_request (w : world) (job_id : string) (j : job)
    (c : JobControl) :
  w_jobs w !! job_id = Some j ->
  is_active (j_status j) = true ->
  w_controls w !! job_id = Some c ->
  cancel_event c = false ->
  let j' := {| j_status := j_status j; j_progress := j_progress j;
               j_message := "Cancelling...";
               j_logs := j_logs j ++ ["Cancellation requested by user."] |} in
  exists w',
    cancel_job job_id w =
      ({| r_code := 202; r_message := "Cancellation requested.";
          r_job := Some j' |}, w')
    /\ w_jobs w' !! job_id = Some j'
    /\ w_controls w' !! job_id
       = Some {| cancel_event := true; proc := proc c |}
    /\ w_fs w' = w_fs w
    /\ w_journal w'
       = w_journal w ++ map ECall (terminate_calls (proc c))
         ++ [EStore job_id (OpAppendLog "Cancellation requested by user.");
             EStore job_id (OpUpdateMessage "Cancelling...")].
Proof.
  intros Hj Hact Hc Hset j'.
  rewrite (cancel_job_accepted w job_id j c Hj Hact Hc), Hset.
  eexists. split; [reflexivity|].
  cbn [w_jobs w_controls w_fs w_journal].
  rewrite lookup_alter_eq, Hj, lookup_insert_eq. repeat split.
Qed.

Lemma cancel_job_first_request_witness :
  exists w',
    cancel_job "job-1" fetching_world =
      ({| r_code := 202; r_message := "Cancellation requested.";
          r_job := Some {| j_status := Processing; j_progress := 20%Q;
                           j_message := "Cancelling...";
                           j_logs := ["Job queued.";
                                      "Running yt-dlp with explicit output template.";
                                      "Cancellation requested by user."] |} |},
       w')
    /\ w_controls w' !! "job-1" = Some {| cancel_event := true; proc := None |}.
Proof.
  destruct (cancel_job_first_request fetching_world "job-1"
              {| j_status := Processing; j_progress := 20%Q; j_message := "";
                 j_logs := ["Job queued.";
                            "Running yt-dlp with explicit output template."] |}
              {| cancel_event := false; proc := None |}
              eq_refl eq_refl eq_refl eq_refl) as (w' & Hrun & _ & Hc & _).
  exists w'. split; [exact Hrun | exact Hc].
Defined.

Lemma cancel_request_ops_status (b : bool) (j : job) :
  j_status (apply_ops (cancel_request_ops b) j) = j_status j.
Proof. destruct b; reflexivity. Qed.

(** X8.  What [cancel_job] never does, whatever the state: it never
    changes the status of a job, never touches the record or the control
    of another job, never registers or removes a control, never detaches
    a process handle or resets a cancel flag, and never touches the
    filesystem.  An answer other than 202 leaves the whole state as it
    was; after a 202 the cancel flag of the job is set. *)
Theorem cancel_job_frame (job_id : string) (w : world) :
  let r := (cancel_job job_id w).1 in
  let w' := (cancel_job job_id w).2 in
  w_fs w' = w_fs w
  /\ (forall k, j_status <$> w_jobs w' !! k = j_status <$> w_jobs w !! k)
  /\ (forall k, k <> job_id ->
        w_jobs w' !! k = w_jobs w !! k
        /\ w_controls w' !! k = w_controls w !! k)
  /\ (forall c, w_controls w !! job_id = Some c ->
        exists c', w_controls w' !! job_id = Some c'
                   /\ proc c' = proc c
                   /\ (cancel_event c = true -> cancel_event c' = true))
  /\ (w_controls w !! job_id = None -> w_controls w' !! job_id = None)
  /\ (r_code r <> 202 -> w' = w)
  /\ (r_code r = 202 ->
        exists c', w_controls w' !! job_id = Some c'
                   /\ cancel_event c' = true).
Proof.
  cbv zeta.
  destruct (w_jobs w !! job_id) as [j|] eqn:Hj.
  2:{ unfold cancel_job, jobs_repo_get. rewrite bind_run, Hj, ret_run.
      cbn [fst snd r_code].
      repeat split; try reflexivity; eauto; try discriminate. }
  destruct (is_active (j_status j)) eqn:Hact.
  2:{ unfold cancel_job, jobs_repo_get. rewrite bind_run, Hj, Hact.
      cbn [negb]. rewrite ret_run. cbn [fst snd r_code].
      repeat split; try reflexivity; eauto; try discriminate. }
  destruct (w_controls w !! job_id) as [c|] eqn:Hc.
  2:{ unfold cancel_job, jobs_repo_get, get_control.
      rewrite bind_run, Hj, Hact. cbn [negb].
      rewrite bind_run, Hc, ret_run. cbn [fst snd r_code].
      repeat split; try reflexivity; eauto; try discriminate. }
  rewrite (cancel_job_accepted w job_id j c Hj Hact Hc).
  cbn [fst snd r_code w_jobs w_controls w_fs w_journal].
  split; [reflexivity|]. split.
  { intros k. destruct (decide (job_id = k)) as [<-|Hk].
    - rewrite lookup_alter_eq, Hj. cbn. rewrite cancel_request_ops_status.
      reflexivity.
    - rewrite lookup_alter_ne by exact Hk. reflexivity. }
  split.
  { intros k Hk. rewrite lookup_alter_ne, lookup_insert_ne by congruence.
    split; reflexivity. }
  split.
  { intros c0 [= <-]. exists (set_cancel c). rewrite lookup_insert_eq.
    repeat split. }
  split; [discriminate|]. split; [intros H; exfalso; apply H; reflexivity|].
  intros _. exists (set_cancel c). rewrite lookup_insert_eq. split; reflexivity.
Qed.

(** ** [create]: an accepted request *)

Section CreateAccepted.

Variable urlparse : string -> option parsed_url.
Variable geturl_with_path : parsed_url -> string -> string.

Lemma validate_no_error (data : request_data) :
  (_validate_request_urls urlparse geturl_with_path data).2 = [] ->
  exists parsed,
    urlparse (url_with_scheme (strip (or_default (rq_yturl data) "")))
      = Some parsed
    /\ u_scheme parsed ∈ ["http"; "https"]
    /\ lower (or_default (u_hostname parsed) "") ∈ allowed_hosts
    /\ (_validate_request_urls urlparse geturl_with_path data).1
       = geturl_with_path parsed
           (if nonempty (u_path parsed) then u_path parsed else "/").
Proof.
  unfold _validate_request_urls. cbv zeta.
  destruct (nonempty (strip (or_default (rq_yturl data) ""))); cbn [negb];
    [|discriminate].
  destruct (urlparse _) as [parsed|]; [|discriminate].
  destruct (bool_decide (u_scheme parsed ∈ ["http"; "https"])) eqn:Hs;
    cbn [negb orb]; [|discriminate].
  destruct (bool_decide (lower (or_default (u_hostname parsed) "")
                           ∈ allowed_hosts)) eqn:Hh;
    cbn [negb]; [|discriminate].
  intros _. exists parsed.
  apply bool_decide_eq_true in Hs. apply bool_decide_eq_true in Hh.
  repeat split; assumption.
Qed.

(** X9.  A payload that [_prepare_create_payload] returns without any
    error has a playlist mode among "single" and "merge", with the merge
    flag set exactly for "merge"; a movie id unless the download is
    standalone; extras switched off (type "other", no name) when it is
    standalone, and a name whenever an extra is kept; and its URL is the
    rebuilt form of a URL whose scheme is http or https and whose host is
    on the allow-list.  A request that asks for an extra without a name is
    refused even when it is standalone. *)
Theorem accepted_payload_is_consistent (data : request_data) :
  (_prepare_create_payload urlparse geturl_with_path data).2 = [] ->
  let request := (_prepare_create_payload urlparse geturl_with_path data).1 in
  p_playlist_mode request ∈ ALLOWED_PLAYLIST_MODES
  /\ p_merge_playlist request = bool_decide (p_playlist_mode request = "merge")
  /\ (p_standalone request = false -> nonempty (p_movieId request) = true)
  /\ (p_standalone request = true ->
      p_extra request = false /\ p_extra_name request = ""
      /\ p_extraType request = "other")
  /\ (p_extra request = true -> nonempty (p_extra_name request) = true)
  /\ (rq_extra data = true ->
      nonempty (strip (or_default (rq_extra_name data) "")) = true)
  /\ exists parsed,
       urlparse (url_with_scheme (strip (or_default (rq_yturl data) "")))
         = Some parsed
       /\ u_scheme parsed ∈ ["http"; "https"]
       /\ lower (or_default (u_hostname parsed) "") ∈ allowed_hosts
       /\ p_yturl request
          = geturl_with_path parsed
              (if nonempty (u_path parsed) then u_path parsed else "/").
Proof.
  unfold _prepare_create_payload.
  destruct (_resolve_playlist_mode data) as [playlist_mode errors1] eqn:H1.
  destruct (_resolve_extra_settings data)
    as [[[extra_requested extra_name] selected_extra_type] errors2] eqn:H2.
  pose proof (validate_no_error data) as H4.
  destruct (_validate_request_urls urlparse geturl_with_path data)
    as [yturl errors4].
  unfold _resolve_playlist_mode in H1. cbv zeta in H1.
  unfold _resolve_extra_settings in H2. cbv zeta in H2.
  injection H2 as <- <- <- <-.
  destruct (rq_standalone data) eqn:Hst.
  - cbn [fst snd]. intros He.
    apply app_eq_nil in He as [-> He]. apply app_eq_nil in He as [He2 He].
    cbn [app] in He. subst errors4.
    destruct (bool_decide (lower (strip (or_default (rq_playlist_mode data)
                                           "single"))
                             ∈ ALLOWED_PLAYLIST_MODES)) eqn:Hm;
      cbn [negb] in H1; [|discriminate H1].
    injection H1 as <-. apply bool_decide_eq_true in Hm.
    cbn [p_playlist_mode p_merge_playlist p_standalone p_movieId p_extra
         p_extra_name p_extraType p_yturl].
    split; [exact Hm|]. split.
    { destruct (String.eqb_spec (lower (strip (or_default (rq_playlist_mode data)
                                                  "single"))) "merge") as [E|E].
      - rewrite bool_decide_eq_true_2 by exact E. reflexivity.
      - rewrite bool_decide_eq_false_2 by exact E. reflexivity. }
    split; [discriminate|]. split; [auto|]. split; [discriminate|]. split.
    { intros Hx. rewrite Hx in He2. cbn [andb] in He2.
      destruct (nonempty (strip (or_default (rq_extra_name data) "")));
        [reflexivity | discriminate He2]. }
    exact (H4 eq_refl).
  - unfold _validate_movie_selection. cbv zeta.
    destruct (nonempty (strip (or_default (rq_movieId data) ""))) eqn:Hmid;
      cbn [negb fst snd]; intros He;
      apply app_eq_nil in He as [-> He]; apply app_eq_nil in He as [He2 He];
      [|discriminate He].
    cbn [app] in He. subst errors4.
    destruct (bool_decide (lower (strip (or_default (rq_playlist_mode data)
                                           "single"))
                             ∈ ALLOWED_PLAYLIST_MODES)) eqn:Hm;
      cbn [negb] in H1; [|discriminate H1].
    injection H1 as <-. apply bool_decide_eq_true in Hm.
    cbn [p_playlist_mode p_merge_playlist p_standalone p_movieId p_extra
         p_extra_name p_extraType p_yturl].
    assert (Hx : rq_extra data = true ->
                 nonempty (strip (or_default (rq_extra_name data) "")) = true).
    { intros Hx. rewrite Hx in He2. cbn [andb] in He2.
      destruct (nonempty (strip (or_default (rq_extra_name data) "")));
        [reflexivity | discriminate He2]. }
    split; [exact Hm|]. split.
    { destruct (String.eqb_spec (lower (strip (or_default (rq_playlist_mode data)
                                                  "single"))) "merge") as [E|E].
      - rewrite bool_decide_eq_true_2 by exact E. reflexivity.
      - rewrite bool_decide_eq_false_2 by exact E. reflexivity. }
    split; [intros _; exact Hmid|]. split; [discriminate|].
    split; [exact Hx|]. split; [exact Hx|].
    exact (H4 eq_refl).
Qed.

End CreateAccepted.

Lemma accepted_payload_is_consistent_witness :
  let request :=
    (_prepare_create_payload simple_urlparse simple_geturl
       (request_for "https://www.youtube.com/watch")).1 in
  p_playlist_mode request ∈ ALLOWED_PLAYLIST_MODES
  /\ p_merge_playlist request = bool_decide (p_playlist_mode request = "merge")
  /\ (p_standalone request = false -> nonempty (p_movieId request) = true).
Proof.
  cbv zeta.
  destruct (accepted_payload_is_consistent simple_urlparse simple_geturl
              (request_for "https://www.youtube.com/watch") eq_refl)
    as (H1 & H2 & H3 & _).
  split; [exact H1|]. split; [exact H2 | exact H3].
Defined.

Section CreateEffects.

Variable urlparse : string -> option parsed_url.
Variable geturl_with_path : parsed_url -> string -> string.

Lemma create_accepted_inv (cfg : config) (data : request_data)
    (job_id id : string) (request : payload) (w w' : world) :
  create urlparse geturl_with_path cfg data job_id w
    = (CreateAccepted id request, w') ->
  id = job_id
  /\ is_configured cfg = true
  /\ (_prepare_create_payload urlparse geturl_with_path data).2 = []
  /\ request = (_prepare_create_payload urlparse geturl_with_path data).1
  /\ w' = {| w_jobs := <[job_id := queued_record]> (w_jobs w);
             w_controls := <[job_id := {| cancel_event := false;
                                          proc := None |}]> (w_controls w);
             w_fs := w_fs w;
             w_journal := w_journal w ++ [ECreate job_id; EWorkerStart job_id] |}.
Proof.
  unfold create.
  destruct (is_configured cfg); cbn [negb]; [|rewrite ret_run; discriminate].
  destruct (_prepare_create_payload urlparse geturl_with_path data)
    as [req errors].
  destruct errors as [|e errors].
  - rewrite bool_decide_eq_false_2 by (intros H; apply H; reflexivity).
    unfold jobs_repo_create, _register_job_control, set_controls, worker_start.
    rewrite !bind_run, ret_run. cbn [w_jobs w_controls w_fs w_journal fst snd].
    intros [= <- <- <-]. rewrite <- app_assoc. repeat split.
  - rewrite bool_decide_eq_true_2 by discriminate.
    rewrite ret_run. discriminate.
Qed.

(** X10.  When [create] accepts a request, the answer carries the id it
    was given; the store holds the queued record with the single log line
    "Job queued."; the control of the job is registered with the cancel
    flag unset and no process; the record is created before the worker is
    started; the filesystem, and the record and the control of every other
    job, are untouched. *)
Theorem create_accepted_effects (cfg : config) (data : request_data)
    (job_id id : string) (request : payload) (w w' : world) :
  create urlparse geturl_with_path cfg data job_id w
    = (CreateAccepted id request, w') ->
  id = job_id
  /\ is_configured cfg = true
  /\ w_jobs w' !! job_id = Some queued_record
  /\ w_controls w' !! job_id = Some {| cancel_event := false; proc := None |}
  /\ w_journal w' = w_journal w ++ [ECreate job_id; EWorkerStart job_id]
  /\ w_fs w' = w_fs w
  /\ forall k, k <> job_id ->
       w_jobs w' !! k = w_jobs w !! k
       /\ w_controls w' !! k = w_controls w !! k.
Proof.
  intros H. apply create_accepted_inv in H as (-> & Hc & _ & _ & ->).
  cbn [w_jobs w_controls w_fs w_journal].
  rewrite !lookup_insert_eq. repeat split; try assumption.
  - apply lookup_insert_ne. congruence.
  - apply lookup_insert_ne. congruence.
Qed.


End CreateEffects.

Lemma create_accepted_effects_witness :
  let w' := (create simple_urlparse simple_geturl configured
               (request_for "https://www.youtube.com/watch") "job-9"
               idle_world).2 in
  w_jobs w' !! "job-9" = Some queued_record
  /\ w_controls w' !! "job-9" = Some {| cancel_event := false; proc := None |}
  /\ w_journal w' = [ECreate "job-9"; EWorkerStart "job-9"].
Proof.
  cbv zeta.
  destruct (create_accepted_effects simple_urlparse simple_geturl configured
              (request_for "https://www.youtube.com/watch") "job-9" "job-9"
              (_prepare_create_payload simple_urlparse simple_geturl
                 (request_for "https://www.youtube.com/watch")).1
              idle_world
              (create simple_urlparse simple_geturl configured
                 (request_for "https://www.youtube.com/watch") "job-9"
                 idle_world).2
              eq_refl) as (_ & _ & Hj & Hc & Hl & _).
  split; [exact Hj|]. split; [exact Hc | exact Hl].
Defined.


(** ** The fetch phase: success, a failed launch, cancellation *)

Lemma proc_do_run (c : proc_call) (w : world) :
  proc_do c w = (tt, run_calls [c] w).
Proof. reflexivity. Qed.

Lemma run_calls_app (c1 c2 : list proc_call) (w : world) :
  run_calls c2 (run_calls c1 w) = run_calls (c1 ++ c2) w.
Proof. unfold run_calls. cbn. rewrite map_app, app_assoc. reflexivity. Qed.





Lemma stream_output_app (glob : filesystem -> string -> list string)
    (job_id : string) (compact : bool) (pattern : option string)
    (child : process) (before : list string) (rest : list (bool * string))
    (loc : fetch_local) (logged : bool) (w : world) :
  stream_output glob job_id compact pattern child
                (map (pair false) before ++ rest) loc logged w
  = stream_output glob job_id compact pattern child rest
      (stream_ops compact loc before).2 logged
      (run_ops job_id (stream_ops compact loc before).1 w).
Proof.
  revert loc w. induction before as [|raw before IH]; intros loc w.
  - cbn [map app stream_ops fst snd]. rewrite run_ops_nil. reflexivity.
  - cbn [map app stream_output stream_ops].
    destruct (negb (nonempty (rstrip raw))); [apply IH|].
    rewrite bind_run, handle_output_line_run, IH.
    destruct (line_ops compact loc (rstrip raw)) as [ops loc'].
    cbn [fst snd].
    destruct (stream_ops compact loc' before) as [ops' loc''].
    cbn [fst snd]. rewrite run_ops_app. reflexivity.
Qed.

Lemma acknowledge_cancellation_run (job_id : string) (logged : bool)
    (w : world) :
  acknowledge_cancellation job_id logged w
  = (true, run_ops job_id (acknowledge_ops logged) w).
Proof.
  unfold acknowledge_cancellation, acknowledge_ops, append_job_log.
  destruct logged.
  - rewrite ret_run, run_ops_nil. reflexivity.
  - rewrite bind_run, store_call_run, ret_run. reflexivity.
Qed.

Lemma stream_output_cancelled (glob : filesystem -> string -> list string)
    (job_id : string) (compact : bool) (pattern : option string)
    (child : process) (raw : string) (rest : list (bool * string))
    (loc : fetch_local) (logged : bool) (w : world) :
  stream_output glob job_id compact pattern child ((true, raw) :: rest)
                loc logged w
  = (Raised_JobCancelled true,
     {| w_jobs := alter (apply_ops (acknowledge_ops logged)) job_id (w_jobs w);
        w_controls := w_controls w;
        w_fs := _cleanup_temp_files glob pattern (w_fs w);
        w_journal := w_journal w
                     ++ map (EStore job_id) (acknowledge_ops logged)
                     ++ map ECall (stream_cancel_calls child)
                     ++ [ECleanup pattern] |}).
Proof.
  cbn [stream_output].
  rewrite bind_run, acknowledge_cancellation_run. cbn beta iota zeta.
  unfold stream_cancel_calls, when.
  destruct (wait_expires child);
    repeat (rewrite ?bind_run, ?ret_run, ?proc_do_run, ?run_calls_app,
              ?cleanup_temp_files_run; cbn beta iota zeta);
    unfold run_calls, run_ops;
    cbn [w_jobs w_controls w_fs w_journal app map];
    rewrite <- ?app_assoc; reflexivity.
Qed.



(** X13.  When the downloader cannot be started, the fetch phase records
    the failure and returns: the job is failed with the message "Failed to
    invoke yt-dlp: " followed by the text of the exception, the error line
    is logged, no call is made on any process and no cleanup is run, and
    the control of the job is left without a process handle. *)
Theorem fetch_launch_failure
    (glob : filesystem -> string -> list string) (job_id : string)
    (compact : bool) (expected_pattern : option string) (env : fetch_env)
    (logged : bool) (exc : string) (w : world) (j : job) :
  fe_cancel_before env = false ->
  fe_launch env = inr exc ->
  w_jobs w !! job_id = Some j ->
  exists w',
    fetch_phase glob job_id compact expected_pattern env logged w
    = (Went_on FetchReturned logged, w')
    /\ w_journal w'
       = w_journal w
         ++ map (EStore job_id)
              (fetch_start_ops
               ++ [OpAppendLog ("ERROR: " +:+ "Failed to invoke yt-dlp: " +:+ exc);
                   OpMarkFailure ("Failed to invoke yt-dlp: " +:+ exc)])
    /\ w_jobs w' !! job_id
       = Some {| j_status := Failed; j_progress := 20%Q;
                 j_message := "Failed to invoke yt-dlp: " +:+ exc;
                 j_logs := j_logs j
                           ++ ["Running yt-dlp with explicit output template.";
                               "ERROR: " +:+ "Failed to invoke yt-dlp: " +:+ exc] |}
    /\ w_fs w' = w_fs w
    /\ w_controls w' !! job_id = with_process None <$> w_controls w !! job_id.
Proof.
  intros Hcancel Hlaunch Hj.
  unfold fetch_phase. rewrite Hcancel, Hlaunch.
  unfold _clear_job_process.
  run_store.
  rewrite set_controls_run. cbn beta iota zeta. rewrite ret_run.
  eexists. split; [reflexivity|].
  cbn [w_journal w_fs w_jobs w_controls run_ops].
  split; [reflexivity|]. split.
  - rewrite lookup_alter_eq, Hj. cbn. rewrite <- app_assoc. reflexivity.
  - split; [reflexivity|]. rewrite lookup_alter_eq. reflexivity.
Qed.

Lemma fetch_launch_failure_witness :
  exists w',
    fetch_phase no_glob "job-1" true None failed_launch false fetching_world
    = (Went_on FetchReturned false, w')
    /\ j_status <$> w_jobs w' !! "job-1" = Some Failed.
Proof.
  destruct (fetch_launch_failure no_glob "job-1" true None failed_launch false
              "[Errno 2] No such file or directory: 'yt-dlp'" fetching_world
              {| j_status := Processing; j_progress := 20%Q; j_message := "";
                 j_logs := ["Job queued.";
                            "Running yt-dlp with explicit output template."] |}
              eq_refl eq_refl eq_refl)
    as (w' & Hrun & _ & Hjob & _).
  exists w'. split; [exact Hrun|]. rewrite Hjob. reflexivity.
Defined.

(** X14.  When the loop over the child's output reads a line while the
    cancel flag is set, that line and every later line are dropped: after
    the store calls for the lines read before, the cancellation is
    acknowledged in the log (once, unless it was already), the child gets
    [terminate] and a bounded [wait] (and [kill] when the wait expires),
    the temporary fragments of the expected pattern are cleaned up, and
    [JobCancelled] is raised; the [finally] clause leaves the control
    without a process handle. *)
Theorem fetch_cancelled_while_streaming
    (glob : filesystem -> string -> list string) (job_id : string)
    (compact : bool) (expected_pattern : option string) (env : fetch_env)
    (logged : bool) (child : process) (before : list string) (raw : string)
    (rest : list (bool * string)) (w : world) :
  fe_cancel_before env = false ->
  fe_launch env = inl child ->
  fe_lines env = map (pair false) before ++ (true, raw) :: rest ->
  exists w',
    fetch_phase glob job_id compact expected_pattern env logged w
    = (Raised_JobCancelled true, w')
    /\ w_journal w'
       = w_journal w
         ++ map (EStore job_id)
              (fetch_start_ops
               ++ (stream_ops compact fresh_fetch before).1
               ++ acknowledge_ops logged)
         ++ map ECall (stream_cancel_calls child)
         ++ [ECleanup expected_pattern]
    /\ w_fs w' = _cleanup_temp_files glob expected_pattern (w_fs w)
    /\ w_controls w' !! job_id = with_process None <$> w_controls w !! job_id.
Proof.
  intros Hcancel Hlaunch Hlines.
  unfold fetch_phase. rewrite Hcancel, Hlaunch, Hlines.
  unfold _set_job_process, _clear_job_process.
  run_store.
  rewrite set_controls_run. cbn beta iota zeta.
  rewrite bind_run, stream_output_app, stream_output_cancelled.
  fold fresh_fetch.
  destruct (stream_ops compact fresh_fetch before) as [ops loc].
  cbn [fst snd].
  rewrite bind_run, set_controls_run. cbn beta iota zeta. rewrite ret_run.
  eexists. split; [reflexivity|].
  cbn [w_journal w_fs w_jobs w_controls run_ops].
  split.
  - unfold fetch_start_ops. rewrite ?map_app, <- ?app_assoc.
    cbn [map app]. reflexivity.
  - split; [reflexivity|]. rewrite !lookup_alter_eq.
    destruct (w_controls w !! job_id); reflexivity.
Qed.

Lemma fetch_cancelled_while_streaming_witness :
  exists w',
    fetch_phase no_glob "job-1" true (Some "/lib/Alpha.*") cancelled_fetch
                false fetching_world
    = (Raised_JobCancelled true, w')
    /\ List.filter (fun e => match e with ECall _ | ECleanup _ => true
                                        | _ => false end) (w_journal w')
       = [ECall (CallTerminate 11); ECall (CallWait 11);
          ECleanup (Some "/lib/Alpha.*")].
Proof.
  destruct (fetch_cancelled_while_streaming no_glob "job-1" true
              (Some "/lib/Alpha.*") cancelled_fetch false fetch_child
              ["[download]  12.0% of 10.00MiB"]
              "[download]  13.0% of 10.00MiB"
              [(false, "[download]  14.0% of 10.00MiB")]
              fetching_world eq_refl eq_refl eq_refl)
    as (w' & Hrun & Hjournal & _).
  exists w'. split; [exact Hrun|]. rewrite Hjournal. reflexivity.
Defined.

(** ** The end of a job *)

Lemma for_each_remove_run (l : list string) (w : world) :
  for_each l remove_quietly w
  = (tt, {| w_jobs := w_jobs w; w_controls := w_controls w;
            w_fs := fold_left (fun fs p => default fs (os_remove p fs)) l (w_fs w);
            w_journal := w_journal w |}).
Proof.
  revert w. induction l as [|p l IH]; intros w; cbn [for_each fold_left].
  - rewrite ret_run. destruct w; reflexivity.
  - rewrite bind_run. unfold remove_quietly at 1. cbn beta iota zeta.
    rewrite IH. reflexivity.
Qed.

Lemma remove_fold_frame (l : list string) (fs : filesystem) (p : string) :
  p ∉ l ->
  fs_nodes (fold_left (fun fs p => default fs (os_remove p fs)) l fs) !! p
  = fs_nodes fs !! p.
Proof.
  revert fs. induction l as [|q l IH]; intros fs Hp; cbn [fold_left];
    [reflexivity|].
  apply not_elem_of_cons in Hp as [Hpq Hp].
  rewrite IH by exact Hp.
  destruct (os_remove q fs) as [fs'|] eqn:Hrm; cbn [default from_option];
    [|reflexivity].
  apply (os_remove_frame q p fs fs' Hrm Hpq).
Qed.

Lemma cleanup_temp_files_frame (glob : filesystem -> string -> list string)
    (pattern : option string) (fs : filesystem) (p : string) :
  is_fragment p = false ->
  fs_nodes (_cleanup_temp_files glob pattern fs) !! p = fs_nodes fs !! p.
Proof.
  intros Hp. unfold _cleanup_temp_files.
  destruct pattern as [pat|]; [|reflexivity].
  destruct (negb (nonempty pat)); [reflexivity|].
  apply (cleanup_fold_frame (glob fs pat) fs p Hp).
Qed.

Lemma job_cancelled_handler_run
    (glob : filesystem -> string -> list string)
    (rmtree : string -> filesystem -> filesystem) (job_id : string)
    (expected_pattern : option string) (downloaded_candidates : list string)
    (playlist_temp_dir : option string) (w : world) :
  job_cancelled_handler glob rmtree job_id expected_pattern
    downloaded_candidates playlist_temp_dir w
  = (tt,
     {| w_jobs := alter (apply_ops [OpAppendLog "Job cancelled.";
                                    OpMarkCancelled "Job cancelled by user."])
                        job_id (w_jobs w);
        w_controls := w_controls w;
        w_fs :=
          (let fs1 := fold_left (fun fs p => default fs (os_remove p fs))
                        downloaded_candidates
                        (_cleanup_temp_files glob expected_pattern (w_fs w)) in
           if truthy playlist_temp_dir
              && isdir fs1 (default "" playlist_temp_dir)
           then rmtree (default "" playlist_temp_dir) fs1 else fs1);
        w_journal := w_journal w
                     ++ [ECleanup expected_pattern;
                         EStore job_id (OpAppendLog "Job cancelled.");
                         EStore job_id (OpMarkCancelled "Job cancelled by user.")] |}).
Proof.
  unfold job_cancelled_handler, _mark_job_cancelled, append_job_log.
  rewrite bind_run, cleanup_temp_files_run. cbn beta iota zeta.
  rewrite bind_run, for_each_remove_run. cbn beta iota zeta.
  cbn [w_jobs w_controls w_fs w_journal].
  rewrite bind_run. unfold _cleanup_playlist_dir.
  cbn [w_jobs w_controls w_fs w_journal].
  match goal with
  | |- context [if ?c then _ else _] => destruct c
  end; cbn beta iota zeta;
    rewrite bind_run, !store_call_run, run_ops_app;
    unfold run_ops; cbn [w_jobs w_controls w_fs w_journal app map];
    rewrite <- app_assoc; reflexivity.
Qed.

Lemma job_finally_run (job_id : string) (w : world) :
  job_finally job_id w
  = (tt, {| w_jobs := w_jobs w;
            w_controls := delete job_id
                            (alter (with_process None) job_id (w_controls w));
            w_fs := w_fs w; w_journal := w_journal w |}).
Proof.
  unfold job_finally, _clear_job_process, _unregister_job_control.
  rewrite bind_run, !set_controls_run. reflexivity.
Qed.

(** X15.  When a job ends by cancellation, the handler and the [finally]
    clause leave the record cancelled with the message "Job cancelled by
    user." and the last log line "Job cancelled.", and the control of the
    job unregistered; no call is made on any process.  When no playlist
    directory is in use, the only files removed are fragments and the
    downloaded candidates.  A later cancellation request is refused with
    409 and changes nothing. *)
Theorem cancelled_job_is_final
    (glob : filesystem -> string -> list string)
    (rmtree : string -> filesystem -> filesystem) (job_id : string)
    (expected_pattern : option string) (downloaded_candidates : list string)
    (playlist_temp_dir : option string) (w : world) (j : job) :
  w_jobs w !! job_id = Some j ->
  let w' := (job_finally job_id
               (job_cancelled_handler glob rmtree job_id expected_pattern
                  downloaded_candidates playlist_temp_dir w).2).2 in
  let j' := {| j_status := Cancelled; j_progress := j_progress j;
               j_message := "Job cancelled by user.";
               j_logs := j_logs j ++ ["Job cancelled."] |} in
  w_jobs w' !! job_id = Some j'
  /\ w_controls w' !! job_id = None
  /\ w_journal w'
     = w_journal w
       ++ [ECleanup expected_pattern;
           EStore job_id (OpAppendLog "Job cancelled.");
           EStore job_id (OpMarkCancelled "Job cancelled by user.")]
  /\ (playlist_temp_dir = None ->
      forall p, is_fragment p = false -> p ∉ downloaded_candidates ->
                fs_nodes (w_fs w') !! p = fs_nodes (w_fs w) !! p)
  /\ cancel_job job_id w'
     = ({| r_code := 409;
           r_message := "Job is not active and cannot be cancelled.";
           r_job := Some j' |}, w').
Proof.
  intros Hj. cbv zeta.
  rewrite job_cancelled_handler_run. cbn [snd].
  rewrite job_finally_run. cbn [snd w_jobs w_controls w_fs w_journal].
  assert (Hlookup :
    alter (apply_ops [OpAppendLog "Job cancelled.";
                      OpMarkCancelled "Job cancelled by user."]) job_id
          (w_jobs w) !! job_id
    = Some {| j_status := Cancelled; j_progress := j_progress j;
              j_message := "Job cancelled by user.";
              j_logs := j_logs j ++ ["Job cancelled."] |}).
  { rewrite lookup_alter_eq, Hj. reflexivity. }
  split; [exact Hlookup|].
  split; [apply lookup_delete_eq|].
  split; [reflexivity|].
  split.
  - intros -> p Hfrag Hp. cbn [truthy andb].
    rewrite remove_fold_frame by exact Hp.
    apply cleanup_temp_files_frame, Hfrag.
  - unfold cancel_job, jobs_repo_get. rewrite bind_run.
    cbn [w_jobs]. rewrite Hlookup. cbn [is_active j_status negb].
    rewrite ret_run. reflexivity.
Qed.

Lemma cancelled_job_is_final_witness :
  let w' := (job_finally "job-1"
               (job_cancelled_handler fragments_glob no_rmtree "job-1"
                  (Some "/lib/Alpha.*") [] None fetching_world).2).2 in
  j_status <$> w_jobs w' !! "job-1" = Some Cancelled
  /\ w_controls w' !! "job-1" = None
  /\ r_code (cancel_job "job-1" w').1 = 409.
Proof.
  cbv zeta.
  destruct (cancelled_job_is_final fragments_glob no_rmtree "job-1"
              (Some "/lib/Alpha.*") [] None fetching_world
              {| j_status := Processing; j_progress := 20%Q; j_message := "";
                 j_logs := ["Job queued.";
                            "Running yt-dlp with explicit output template."] |}
              eq_refl) as (Hj & Hc & _ & _ & Hcancel).
  split; [rewrite Hj; reflexivity|]. split; [exact Hc|].
  rewrite Hcancel. reflexivity.
Defined.

Lemma strip_delimited (c d : ascii) (l : list ascii) :
  py_isspace c = false -> py_isspace d = false ->
  strip (str (c :: l ++ [d])) = str (c :: l ++ [d]).
Proof.
  intros Hc Hd. unfold strip. rewrite chars_str. f_equal.
  cbn [lstrip_chars]. rewrite Hc.
  unfold rstrip_chars. cbn [rev]. rewrite rev_app_distr. cbn [rev app].
  cbn [lstrip_chars]. rewrite Hd.
  change (d :: rev l ++ [c]) with ((d :: rev l) ++ [c]).
  rewrite rev_app_distr. cbn [rev app]. rewrite rev_involutive. reflexivity.
Qed.

Lemma success_line_chars (target_path : string) :
  chars ("Success! Video saved as '" +:+ target_path +:+ "'.")
  = "S"%char :: (chars "uccess! Video saved as '" ++ chars target_path
                 ++ ["'"%char]) ++ ["."%char].
Proof.
  change ("Success! Video saved as '" +:+ target_path +:+ "'.")
    with (String "S" ("uccess! Video saved as '" +:+ (target_path +:+ "'."))).
  cbn [chars list_ascii_of_string].
  fold (chars ("uccess! Video saved as '" +:+ (target_path +:+ "'."))).
  rewrite !chars_app. rewrite <- !app_assoc. reflexivity.
Qed.

Lemma display_line_success (debug_mode : bool) (target_path : string) :
  display_line debug_mode ("Success! Video saved as '" +:+ target_path +:+ "'.")
  = Some ("Success! Video saved as '" +:+ target_path +:+ "'.").
Proof.
  unfold display_line. cbv zeta.
  assert (Hs : strip ("Success! Video saved as '" +:+ target_path +:+ "'.")
               = "Success! Video saved as '" +:+ target_path +:+ "'.").
  { rewrite <- (str_chars ("Success! Video saved as '" +:+ target_path +:+ "'.")).
    rewrite success_line_chars. apply strip_delimited; reflexivity. }
  rewrite Hs. rewrite nonempty_chars, success_line_chars. cbn [negb].
  destruct debug_mode; [reflexivity|].
  unfold startswith, contains.
  rewrite lower_chars, success_line_chars. reflexivity.
Qed.

(** X16.  The last statements of a successful job leave the record
    successful at progress 100, and the line "Success! Video saved as
    ..." is the last line a client sees, debug mode on or off (the line
    holds one of the essential phrases of the display filter). *)
Theorem success_is_displayed (job_id target_path : string)
    (debug_mode : bool) (w : world) (j : job) :
  w_jobs w !! job_id = Some j ->
  exists j',
    w_jobs (report_success job_id target_path w).2 !! job_id = Some j'
    /\ j_status j' = Success
    /\ j_progress j' = 100%Q
    /\ j_message j' = j_message j
    /\ _filter_logs_for_display (j_logs j') debug_mode
       = _filter_logs_for_display (j_logs j) debug_mode
         ++ ["Success! Video saved as '" +:+ target_path +:+ "'."].
Proof.
  intros Hj. unfold report_success, _mark_job_success.
  run_store. cbn [snd].
  eexists. split; [apply run_ops_lookup, Hj|].
  cbn. repeat split.
  rewrite filter_logs_app. cbn [_filter_logs_for_display].
  rewrite display_line_success. reflexivity.
Qed.

Lemma success_is_displayed_witness :
  exists j',
    w_jobs (report_success "job-1" "/lib/Alpha.mp4" fetching_world).2
      !! "job-1" = Some j'
    /\ j_status j' = Success
    /\ _filter_logs_for_display (j_logs j') false
       = ["Success! Video saved as '/lib/Alpha.mp4'."].
Proof.
  destruct (success_is_displayed "job-1" "/lib/Alpha.mp4" false fetching_world
              {| j_status := Processing; j_progress := 20%Q; j_message := "";
                 j_logs := ["Job queued.";
                            "Running yt-dlp with explicit output template."] |}
              eq_refl) as (j' & Hj & Hs & _ & _ & Hl).
  exists j'. split; [exact Hj|]. split; [exact Hs|]. rewrite Hl. reflexivity.
Defined.

(** ** The setup form *)

Lemma lstrip_chars_idem (l : list ascii) :
  lstrip_chars (lstrip_chars l) = lstrip_chars l.
Proof.
  induction l as [|c l IH]; cbn [lstrip_chars]; [reflexivity|].
  destruct (py_isspace c) eqn:Hc; [exact IH|].
  cbn [lstrip_chars]. rewrite Hc. reflexivity.
Qed.

Lemma lstrip_chars_id (c : ascii) (l : list ascii) :
  py_isspace c = false -> lstrip_chars (c :: l) = c :: l.
Proof. intros H. cbn [lstrip_chars]. rewrite H. reflexivity. Qed.

Lemma strip_chars_idem (l : list ascii) :
  rstrip_chars (lstrip_chars (rstrip_chars (lstrip_chars l)))
  = rstrip_chars (lstrip_chars l).
Proof.
  set (a := lstrip_chars l).
  assert (Hl : lstrip_chars (rstrip_chars a) = rstrip_chars a).
  { destruct (rstrip_chars a) as [|c b] eqn:Hb; [reflexivity|].
    destruct (rstrip_chars_prefix a) as [s Hs]. rewrite Hb in Hs.
    apply lstrip_chars_id. apply (lstrip_chars_head l c (b ++ s)).
    exact Hs. }
  rewrite Hl. unfold rstrip_chars. rewrite rev_involutive, lstrip_chars_idem.
  reflexivity.
Qed.

Lemma strip_idem (s : string) : strip (strip s) = strip s.
Proof.
  unfold strip. rewrite chars_str, strip_chars_idem. reflexivity.
Qed.

Section SetupFacts.

Variable expand_path : string -> string.
Variable py_repr : string -> string.

Lemma normalize_paths_loop_spec (lines paths : list string) :
  NoDup paths ->
  NoDup (normalize_paths_loop expand_path lines paths)
  /\ forall p, p ∈ normalize_paths_loop expand_path lines paths <->
       p ∈ paths
       \/ exists line, line ∈ lines /\ nonempty (strip line) = true
                       /\ p = expand_path (strip line).
Proof.
  revert paths. induction lines as [|line rest IH]; intros paths Hnd.
  - cbn [normalize_paths_loop]. split; [exact Hnd|].
    intros p. split; [auto|]. intros [H|(line & Hin & _)]; [exact H|].
    apply elem_of_nil in Hin. destruct Hin.
  - cbn [normalize_paths_loop].
    destruct (nonempty (strip line)) eqn:Hne; cbn [negb].
    + destruct (bool_decide (expand_path (strip line) ∈ paths)) eqn:Hin.
      * apply bool_decide_eq_true in Hin.
        destruct (IH paths Hnd) as [H1 H2]. split; [exact H1|].
        intros p. rewrite H2. split.
        -- intros [H|(l & Hl & Hn & Hp)]; [auto|].
           right. exists l. split; [right; exact Hl | auto].
        -- intros [H|(l & Hl & Hn & Hp)]; [auto|].
           apply elem_of_cons in Hl as [-> | Hl].
           ++ left. rewrite Hp. exact Hin.
           ++ right. exists l. auto.
      * apply bool_decide_eq_false in Hin.
        assert (Hnd' : NoDup (paths ++ [expand_path (strip line)])).
        { apply NoDup_app. split; [exact Hnd|]. split.
          - intros x Hx Hx'. apply list_elem_of_singleton in Hx'. subst x.
            exact (Hin Hx).
          - apply NoDup_singleton. }
        destruct (IH _ Hnd') as [H1 H2]. split; [exact H1|].
        intros p. rewrite H2, elem_of_app, list_elem_of_singleton. split.
        -- intros [[H| ->]|(l & Hl & Hn & Hp)]; [auto| |].
           ++ right. exists line. split; [left|]; auto.
           ++ right. exists l. split; [right; exact Hl | auto].
        -- intros [H|(l & Hl & Hn & Hp)]; [auto|].
           apply elem_of_cons in Hl as [-> | Hl].
           ++ left. right. exact Hp.
           ++ right. exists l. auto.
    + destruct (IH paths Hnd) as [H1 H2]. split; [exact H1|].
      intros p. rewrite H2. split.
      * intros [H|(l & Hl & Hn & Hp)]; [auto|].
        right. exists l. split; [right; exact Hl | auto].
      * intros [H|(l & Hl & Hn & Hp)]; [auto|].
        apply elem_of_cons in Hl as [-> | Hl]; [congruence|].
        right. exists l. auto.
Qed.

(** X17.  [normalize_paths] returns a list without duplicates that holds
    exactly the expanded forms of the trimmed non-blank lines of its
    argument. *)
Theorem normalize_paths_rule (raw_paths : string) :
  NoDup (normalize_paths expand_path raw_paths)
  /\ forall p, p ∈ normalize_paths expand_path raw_paths <->
       exists line, line ∈ splitlines raw_paths
                    /\ nonempty (strip line) = true
                    /\ p = expand_path (strip line).
Proof.
  unfold normalize_paths.
  destruct (normalize_paths_loop_spec (splitlines raw_paths) [] (NoDup_nil_2))
    as [H1 H2].
  split; [exact H1|]. intros p. rewrite H2. split.
  - intros [H|H]; [apply elem_of_nil in H; destruct H | exact H].
  - auto.
Qed.

Lemma split_override_line_stripped (separators : list string)
    (cleaned remote local : string) :
  _split_override_line_from separators cleaned = Some (remote, local) ->
  strip remote = remote /\ strip local = local.
Proof.
  induction separators as [|sep rest IH]; cbn [_split_override_line_from];
    [discriminate|].
  destruct (contains sep cleaned); [|exact IH].
  destruct (split_once_chars (chars sep) (chars cleaned)) as [a b].
  intros [= <- <-]. split; apply strip_idem.
Qed.

Lemma parse_override_lines_spec (lines : list string) (line_number : nat)
    (overrides : list override) (errors : list string) :
  Forall parsed_rule overrides ->
  let result := parse_override_lines py_repr line_number lines overrides errors in
  Forall parsed_rule result.1
  /\ (length result.1 + length result.2
      = length overrides + length errors
        + length (List.filter (fun line => nonempty (strip line)) lines))%nat.
Proof.
  cbv zeta. revert line_number overrides errors.
  induction lines as [|line rest IH]; intros n overrides errors Hov.
  - cbn. split; [exact Hov | lia].
  - cbn [parse_override_lines List.filter].
    destruct (nonempty (strip line)) eqn:Hne; cbn [negb]; [|apply IH, Hov].
    destruct (_split_override_line (strip line)) as [[remote local]|] eqn:Hs.
    + destruct (nonempty remote) eqn:Hr; cbn [negb orb].
      * destruct (nonempty local) eqn:Hl; cbn [negb].
        -- destruct (IH (S n) (overrides ++ [{| ov_remote := Some remote;
                                              ov_local := Some local |}])
                        errors) as [H1 H2].
           { apply Forall_app. split; [exact Hov|].
             apply Forall_cons. split; [|constructor].
             apply split_override_line_stripped in Hs as [Hs1 Hs2].
             exists remote, local. auto. }
           split; [exact H1|]. rewrite H2, length_app. cbn [length]. lia.
        -- destruct (IH (S n) overrides
                        (errors ++ ["Path override line " +:+ pretty n
                                    +:+ " is missing a remote or local path: "
                                    +:+ py_repr (strip line)]) Hov)
             as [H1 H2].
           split; [exact H1|]. rewrite H2, length_app. cbn [length]. lia.
      * destruct (IH (S n) overrides
                      (errors ++ ["Path override line " +:+ pretty n
                                  +:+ " is missing a remote or local path: "
                                  +:+ py_repr (strip line)]) Hov)
          as [H1 H2].
        split; [exact H1|]. rewrite H2, length_app. cbn [length]. lia.
    + destruct (IH (S n) overrides
                    (errors ++ ["Path override line " +:+ pretty n
                                +:+ " must use 'remote => local' format: "
                                +:+ py_repr (strip line)]) Hov)
        as [H1 H2].
      split; [exact H1|]. rewrite H2, length_app. cbn [length]. lia.
Qed.

(** X18.  Every rule [parse_path_overrides] returns has a remote and a
    local path that are not empty and carry no white space at either end;
    every non-blank line of the text gives either one rule or one error
    message, never both and never neither. *)
Theorem parse_path_overrides_rule (raw_overrides : string) :
  let result := parse_path_overrides py_repr raw_overrides in
  (forall item, item ∈ result.1 ->
     exists remote local,
       item = {| ov_remote := Some remote; ov_local := Some local |}
       /\ nonempty remote = true /\ nonempty local = true
       /\ strip remote = remote /\ strip local = local)
  /\ (length result.1 + length result.2
      = length (nonblank_lines raw_overrides))%nat.
Proof.
  cbv zeta. unfold parse_path_overrides, nonblank_lines.
  destruct (parse_override_lines_spec (splitlines raw_overrides) 1 [] []
              (Forall_nil_2 _)) as [H1 H2].
  split.
  - intros item Hin. rewrite Forall_forall in H1. exact (H1 item Hin).
  - rewrite H2. reflexivity.
Qed.

End SetupFacts.

(** *** The text form of the rules and back *)

Lemma not_linebreak_not_cr (c : ascii) :
  is_linebreak c = false -> Ascii.eqb c "013"%char = false.
Proof.
  intros H. destruct (Ascii.eqb_spec c "013"%char) as [->|]; [|reflexivity].
  discriminate H.
Qed.

Lemma splitlines_chars_run (l cur rest : list ascii) :
  forallb (fun c => negb (is_linebreak c)) l = true ->
  splitlines_chars cur (l ++ rest) = splitlines_chars (rev l ++ cur) rest.
Proof.
  revert cur. induction l as [|c l IH]; intros cur H; [reflexivity|].
  cbn [forallb] in H. apply andb_true_iff in H as [Hc Hl].
  apply negb_true_iff in Hc.
  cbn [app splitlines_chars]. rewrite (not_linebreak_not_cr c Hc), Hc.
  rewrite IH by exact Hl. cbn [rev]. rewrite <- app_assoc. reflexivity.
Qed.

Lemma splitlines_join (lines : list string) :
  Forall (fun line => nonempty line = true /\ single_line line = true) lines ->
  splitlines (join_lines lines) = lines.
Proof.
  unfold splitlines, join_lines. rewrite chars_str.
  induction lines as [|x lines IH]; intros H; [reflexivity|].
  apply Forall_cons in H as [[Hne Hsl] H].
  destruct lines as [|y lines].
  - cbn [map join_with].
    rewrite <- (app_nil_r (chars x)), splitlines_chars_run by exact Hsl.
    rewrite app_nil_r. cbn [splitlines_chars].
    destruct (rev (chars x)) as [|c r] eqn:Hr.
    + apply (f_equal (@rev ascii)) in Hr. rewrite rev_involutive in Hr.
      rewrite nonempty_chars, Hr in Hne. discriminate Hne.
    + rewrite <- Hr, rev_involutive, str_chars. reflexivity.
  - change (join_with ["010"%char] (map chars (x :: y :: lines)))
      with (chars x ++ "010"%char :: join_with ["010"%char] (map chars (y :: lines))).
    rewrite splitlines_chars_run by exact Hsl.
    rewrite app_nil_r.
    change (splitlines_chars (rev (chars x)) ("010"%char :: ?r))
      with (str (rev (rev (chars x))) :: splitlines_chars [] r).
    rewrite rev_involutive, str_chars, IH by exact H. reflexivity.
Qed.

Lemma trimmed_strip (s : string) : trimmed s = true -> strip s = s.
Proof.
  unfold trimmed, strip. intros H. apply andb_true_iff in H as [H1 H2].
  destruct (chars s) as [|c t] eqn:Hs; [discriminate H1|].
  apply negb_true_iff in H1. rewrite lstrip_chars_id by exact H1.
  unfold rstrip_chars.
  destruct (rev (c :: t)) as [|d u] eqn:Hr; [discriminate H2|].
  apply negb_true_iff in H2. rewrite lstrip_chars_id by exact H2.
  rewrite <- Hr, rev_involutive, <- Hs. apply str_chars.
Qed.

Lemma trimmed_nonempty (s : string) : trimmed s = true -> nonempty s = true.
Proof.
  unfold trimmed. rewrite nonempty_chars.
  destruct (chars s); [discriminate | reflexivity].
Qed.

Lemma override_line_chars (remote local : string) :
  chars (override_line {| ov_remote := Some remote; ov_local := Some local |})
  = chars remote ++ " "%char :: "="%char :: ">"%char :: " "%char :: chars local.
Proof.
  unfold override_line. cbn [ov_remote ov_local default from_option].
  change (id remote) with remote. change (id local) with local.
  rewrite !chars_app. reflexivity.
Qed.

Lemma trimmed_override_line (remote local : string) :
  trimmed remote = true -> trimmed local = true ->
  trimmed (override_line {| ov_remote := Some remote;
                            ov_local := Some local |}) = true.
Proof.
  unfold trimmed at 1 2. intros Hr Hl.
  apply andb_true_iff in Hr as [Hr _]. apply andb_true_iff in Hl as [_ Hl].
  unfold trimmed. rewrite override_line_chars.
  destruct (chars remote) as [|c t]; [discriminate Hr|].
  cbn [app]. rewrite Hr. cbn [andb].
  rewrite app_comm_cons, rev_app_distr. cbn [rev].
  destruct (rev (chars local)) as [|d u]; [discriminate Hl|].
  cbn [app]. exact Hl.
Qed.

Lemma contains_chars_app (sep a b : list ascii) :
  contains_chars sep (a ++ sep ++ b) = true.
Proof.
  induction a as [|c a IH].
  - cbn [app]. destruct (sep ++ b) eqn:E; cbn [contains_chars];
      rewrite <- E, prefix_chars_app; reflexivity.
  - cbn [app contains_chars]. rewrite IH. apply orb_true_r.
Qed.

Lemma split_once_arrow (r rest : list ascii) :
  contains_chars (chars "=>") r = false ->
  split_once_chars (chars "=>")
    (r ++ " "%char :: "="%char :: ">"%char :: rest)
  = (r ++ [" "%char], rest).
Proof.
  induction r as [|c r IH]; intros H.
  - reflexivity.
  - cbn [contains_chars] in H. apply orb_false_iff in H as [Hp Hc].
    cbn [app split_once_chars].
    assert (Hpre : prefix_chars (chars "=>")
                     (c :: r ++ " "%char :: "="%char :: ">"%char :: rest)
                   = false).
    { cbn [chars list_ascii_of_string prefix_chars] in Hp |- *.
      destruct (Ascii.eqb "=" c); [|reflexivity].
      destruct r as [|d r]; [reflexivity|].
      cbn [app]. destruct (Ascii.eqb ">" d); [discriminate Hp | reflexivity]. }
    rewrite Hpre, IH by exact Hc. reflexivity.
Qed.

Lemma strip_remote_part (remote : string) :
  trimmed remote = true -> strip (str (chars remote ++ [" "%char])) = remote.
Proof.
  unfold trimmed, strip. intros H. apply andb_true_iff in H as [H1 H2].
  rewrite chars_str.
  destruct (chars remote) as [|c t] eqn:Hs; [discriminate H1|].
  apply negb_true_iff in H1. cbn [app]. rewrite lstrip_chars_id by exact H1.
  unfold rstrip_chars.
  change (c :: t ++ [" "%char]) with ((c :: t) ++ [" "%char]).
  rewrite rev_app_distr. cbn [rev app lstrip_chars].
  change (py_isspace " ") with true. cbn iota. cbn [rev] in H2.
  destruct (rev t ++ [c]) as [|d u] eqn:Hr; [discriminate H2|].
  apply negb_true_iff in H2. rewrite lstrip_chars_id by exact H2.
  rewrite <- Hr. change (rev t ++ [c]) with (rev (c :: t)).
  rewrite rev_involutive, <- Hs. apply str_chars.
Qed.

Lemma strip_local_part (local : string) :
  trimmed local = true -> strip (str (" "%char :: chars local)) = local.
Proof.
  intros H. unfold strip. rewrite chars_str. cbn [lstrip_chars].
  change (py_isspace " ") with true. cbn iota.
  apply trimmed_strip in H. unfold strip in H. exact H.
Qed.

Lemma split_writable_line (remote local : string) :
  trimmed remote = true -> trimmed local = true ->
  contains "=>" remote = false ->
  _split_override_line
    (override_line {| ov_remote := Some remote; ov_local := Some local |})
  = Some (remote, local).
Proof.
  intros Hr Hl Hc. unfold _split_override_line.
  cbn [_split_override_line_from]. unfold contains.
  rewrite override_line_chars.
  change (chars remote ++ " "%char :: "="%char :: ">"%char :: " "%char :: chars local)
    with (chars remote ++ " "%char :: "="%char :: ">"%char
          :: (" "%char :: chars local)) at 2.
  rewrite (split_once_arrow (chars remote) (" "%char :: chars local) Hc).
  change (chars remote ++ " "%char :: "="%char :: ">"%char :: " "%char :: chars local)
    with (chars remote ++ [" "%char] ++ chars "=>" ++ " "%char :: chars local).
  rewrite app_assoc, contains_chars_app.
  rewrite strip_remote_part, strip_local_part by assumption. reflexivity.
Qed.

Lemma writable_rule_inv (item : override) :
  writable_rule item = true ->
  exists remote local,
    item = {| ov_remote := Some remote; ov_local := Some local |}
    /\ trimmed remote = true /\ trimmed local = true
    /\ single_line remote = true /\ single_line local = true
    /\ contains "=>" remote = false.
Proof.
  destruct item as [[remote|] [local|]]; try discriminate.
  unfold writable_rule. cbn [ov_remote ov_local]. intros H.
  apply andb_true_iff in H as [H H5]. apply andb_true_iff in H as [H H4].
  apply andb_true_iff in H as [H H3]. apply andb_true_iff in H as [H1 H2].
  apply negb_true_iff in H5.
  exists remote, local. repeat split; assumption.
Qed.

Section RoundTrip.

Variable py_repr : string -> string.

Lemma parse_writable_lines (overrides : list override) (line_number : nat)
    (acc : list override) (errors : list string) :
  Forall (fun item => writable_rule item = true) overrides ->
  parse_override_lines py_repr line_number (map override_line overrides)
    acc errors
  = (acc ++ overrides, errors).
Proof.
  revert line_number acc. induction overrides as [|item rest IH];
    intros n acc H.
  - cbn. rewrite app_nil_r. reflexivity.
  - apply Forall_cons in H as [Hw H].
    apply writable_rule_inv in Hw
      as (remote & local & -> & Hr & Hl & _ & _ & Hc).
    cbn [map parse_override_lines].
    rewrite (trimmed_strip _ (trimmed_override_line remote local Hr Hl)).
    rewrite (trimmed_nonempty _ (trimmed_override_line remote local Hr Hl)).
    cbn [negb].
    rewrite split_writable_line by assumption.
    rewrite (trimmed_nonempty remote), (trimmed_nonempty local) by assumption.
    cbn [negb orb]. rewrite IH by exact H.
    rewrite <- app_assoc. reflexivity.
Qed.

Lemma override_line_single (remote local : string) :
  single_line remote = true -> single_line local = true ->
  single_line (override_line {| ov_remote := Some remote;
                                ov_local := Some local |}) = true.
Proof.
  unfold single_line. intros Hr Hl. rewrite override_line_chars.
  rewrite forallb_app, Hr. cbn [forallb andb]. rewrite Hl. reflexivity.
Qed.

(** X19.  The text the setup page shows for the configured rules parses
    back to those rules, without any error, when every rule has a remote
    and a local path that are trimmed and on one line and the remote path
    holds no arrow. *)
Theorem overrides_text_round_trip (overrides : list override) :
  Forall (fun item => writable_rule item = true) overrides ->
  parse_path_overrides py_repr (overrides_text overrides) = (overrides, []).
Proof.
  intros H. unfold parse_path_overrides, overrides_text.
  rewrite splitlines_join.
  - apply (parse_writable_lines overrides 1 [] [] H).
  - apply Forall_map. eapply Forall_impl; [exact H|].
    intros item Hw. cbn beta.
    apply writable_rule_inv in Hw
      as (remote & local & -> & Hr & Hl & Hsr & Hsl & _).
    split.
    + apply trimmed_nonempty, trimmed_override_line; assumption.
    + apply override_line_single; assumption.
Qed.

End RoundTrip.

Lemma overrides_text_round_trip_witness :
  parse_path_overrides plain_repr
    (overrides_text [{| ov_remote := Some "/movies"; ov_local := Some "/mnt/a" |};
                     {| ov_remote := Some "D:\Films";
                        ov_local := Some "/mnt/b => c" |}])
  = ([{| ov_remote := Some "/movies"; ov_local := Some "/mnt/a" |};
      {| ov_remote := Some "D:\Films"; ov_local := Some "/mnt/b => c" |}], []).
Proof.
  apply overrides_text_round_trip.
  repeat (apply Forall_cons; split; [reflexivity|]). apply Forall_nil_2.
Defined.

(** *** [normalize_path_overrides] and the validation of the setup form *)

Lemma override_eqb_eq (a b : override) : override_eqb a b = true <-> a = b.
Proof.
  unfold override_eqb. rewrite andb_true_iff, !bool_decide_eq_true.
  destruct a, b; cbn. split; [intros [-> ->]; reflexivity|].
  intros [= -> ->]. split; reflexivity.
Qed.

Lemma existsb_override_eqb (record : override) (l : list override) :
  existsb (override_eqb record) l = true <-> record ∈ l.
Proof.
  rewrite existsb_exists. split.
  - intros (x & Hin & Heq). apply override_eqb_eq in Heq. subst x.
    apply list_elem_of_In. exact Hin.
  - intros Hin. exists record. split; [apply list_elem_of_In, Hin|].
    apply override_eqb_eq. reflexivity.
Qed.

Section NormalizeOverrides.

Variable expand_path : string -> string.

Lemma normalize_path_overrides_loop_spec (overrides normalized : list override) :
  NoDup normalized ->
  NoDup (normalize_path_overrides_loop expand_path overrides normalized)
  /\ forall record,
       record ∈ normalize_path_overrides_loop expand_path overrides normalized
       <-> record ∈ normalized
           \/ exists entry, entry ∈ overrides
                /\ _normalize_override_entry expand_path entry = Some record.
Proof.
  revert normalized. induction overrides as [|entry rest IH];
    intros normalized Hnd.
  - cbn [normalize_path_overrides_loop]. split; [exact Hnd|].
    intros record. split; [auto|]. intros [H|(e & Hin & _)]; [exact H|].
    apply elem_of_nil in Hin. destruct Hin.
  - cbn [normalize_path_overrides_loop].
    destruct (_normalize_override_entry expand_path entry) as [rec|] eqn:He.
    + destruct (existsb (override_eqb rec) normalized) eqn:Hin.
      * apply existsb_override_eqb in Hin.
        destruct (IH normalized Hnd) as [H1 H2]. split; [exact H1|].
        intros record. rewrite H2. split.
        -- intros [H|(e & Hl & Hn)]; [auto|].
           right. exists e. split; [right; exact Hl | exact Hn].
        -- intros [H|(e & Hl & Hn)]; [auto|].
           apply elem_of_cons in Hl as [-> | Hl].
           ++ left. rewrite He in Hn. injection Hn as <-. exact Hin.
           ++ right. exists e. auto.
      * assert (Hnin : rec ∉ normalized).
        { intros H. apply existsb_override_eqb in H. congruence. }
        assert (Hnd' : NoDup (normalized ++ [rec])).
        { apply NoDup_app. split; [exact Hnd|]. split.
          - intros x Hx Hx'. apply list_elem_of_singleton in Hx'. subst x.
            exact (Hnin Hx).
          - apply NoDup_singleton. }
        destruct (IH _ Hnd') as [H1 H2]. split; [exact H1|].
        intros record. rewrite H2, elem_of_app, list_elem_of_singleton. split.
        -- intros [[H| ->]|(e & Hl & Hn)]; [auto| |].
           ++ right. exists entry. split; [left | exact He].
           ++ right. exists e. split; [right; exact Hl | exact Hn].
        -- intros [H|(e & Hl & Hn)]; [auto|].
           apply elem_of_cons in Hl as [-> | Hl].
           ++ left. right. congruence.
           ++ right. exists e. auto.
    + destruct (IH normalized Hnd) as [H1 H2]. split; [exact H1|].
      intros record. rewrite H2. split.
      * intros [H|(e & Hl & Hn)]; [auto|].
        right. exists e. split; [right; exact Hl | exact Hn].
      * intros [H|(e & Hl & Hn)]; [auto|].
        apply elem_of_cons in Hl as [-> | Hl]; [congruence|].
        right. exists e. auto.
Qed.

Lemma normalize_override_entry_remote (entry record : override) :
  _normalize_override_entry expand_path entry = Some record ->
  exists remote,
    ov_remote record = Some remote /\ nonempty remote = true
    /\ ov_local record
       = Some (expand_path (strip (or_default (ov_local entry) ""))).
Proof.
  unfold _normalize_override_entry. cbv zeta.
  destruct (nonempty (strip (or_default (ov_remote entry) ""))) eqn:Hr;
    cbn [negb orb]; [|discriminate].
  destruct (nonempty (strip (or_default (ov_local entry) ""))); cbn [negb];
    [|discriminate].
  intros [= <-]. cbn [ov_remote ov_local].
  destruct (nonempty (rstrip_slashes (strip (or_default (ov_remote entry) ""))))
    eqn:Hs; eexists; split; try reflexivity; split; auto.
Qed.

(** X20.  [normalize_path_overrides] returns a list without duplicates
    that holds exactly the normalized forms of the entries whose remote
    and local paths are not blank; the remote path of every rule it
    returns is not empty. *)
Theorem normalize_path_overrides_rule (overrides : list override) :
  NoDup (normalize_path_overrides expand_path overrides)
  /\ (forall record,
        record ∈ normalize_path_overrides expand_path overrides <->
        exists entry, entry ∈ overrides
          /\ _normalize_override_entry expand_path entry = Some record)
  /\ (forall record,
        record ∈ normalize_path_overrides expand_path overrides ->
        exists remote, ov_remote record = Some remote
                       /\ nonempty remote = true)
  /\ (forall entry,
        entry ∈ overrides ->
        nonempty (strip (or_default (ov_remote entry) "")) = false
        \/ nonempty (strip (or_default (ov_local entry) "")) = false ->
        _normalize_override_entry expand_path entry = None).
Proof.
  unfold normalize_path_overrides.
  destruct (normalize_path_overrides_loop_spec overrides [] (NoDup_nil_2))
    as [H1 H2].
  assert (H3 : forall record,
             record ∈ normalize_path_overrides_loop expand_path overrides [] <->
             exists entry, entry ∈ overrides
               /\ _normalize_override_entry expand_path entry = Some record).
  { intros record. rewrite H2. split.
    - intros [H|H]; [apply elem_of_nil in H; destruct H | exact H].
    - auto. }
  split; [exact H1|]. split; [exact H3|]. split.
  - intros record Hin. apply H3 in Hin as (entry & _ & He).
    apply normalize_override_entry_remote in He as (remote & Hr & Hn & _).
    exists remote. auto.
  - intros entry _ H. unfold _normalize_override_entry. cbv zeta.
    destruct H as [-> | ->]; cbn [negb orb]; [reflexivity|].
    rewrite orb_true_r. reflexivity.
Qed.

End NormalizeOverrides.

Section SetupPostFacts.

Variable expand_path : string -> string.
Variable py_repr : string -> string.

Lemma rstrip_char_not_endswith (c : ascii) (l : list ascii) :
  prefix_chars [c] (rev (rstrip_char c l)) = false.
Proof.
  unfold rstrip_char. rewrite rev_involutive.
  destruct (rstrip_char_rev c (rev l)) as [|x r] eqn:H; [reflexivity|].
  apply rstrip_char_rev_head in H. cbn [prefix_chars].
  rewrite Ascii.eqb_sym, H. reflexivity.
Qed.

(** X21.  When the validation of the setup form reports no error, the
    configuration it builds counts as configured: the Radarr address
    starts with one of the two web schemes and does not end with a slash,
    the API key is not empty, there is at least one library path and no
    path is listed twice, and every line of the rules text was
    understood. *)
Theorem setup_accepts_only_configured (form : setup_form) :
  (setup_post_update expand_path py_repr form).2 = [] ->
  let cfg := (setup_post_update expand_path py_repr form).1 in
  is_configured cfg = true
  /\ has_http_scheme (radarr_url cfg) = true
  /\ endswith (radarr_url cfg) "/" = false
  /\ nonempty (radarr_api_key cfg) = true
  /\ file_paths cfg <> []
  /\ NoDup (file_paths cfg)
  /\ NoDup (path_overrides cfg)
  /\ (parse_path_overrides py_repr
        (or_default (f_path_overrides form) "")).2 = [].
Proof.
  unfold setup_post_update. cbv zeta.
  destruct (parse_path_overrides py_repr (or_default (f_path_overrides form) ""))
    as [override_entries override_errors].
  cbn [fst snd radarr_url radarr_api_key file_paths path_overrides].
  intros He. apply app_eq_nil in He as [-> He].
  apply app_eq_nil in He as [He1 He]. apply app_eq_nil in He as [He2 He3].
  set (url := str (rstrip_char "/" (chars (strip (or_default (f_radarr_url form) ""))))) in *.
  destruct (nonempty url) eqn:Hurl; cbn [negb] in He1; [|discriminate He1].
  destruct (has_http_scheme url) eqn:Hscheme; cbn [negb] in He1;
    [|discriminate He1].
  destruct (nonempty (strip (or_default (f_radarr_api_key form) ""))) eqn:Hkey;
    cbn [negb] in He2; [|discriminate He2].
  destruct (bool_decide (normalize_paths expand_path
                           (or_default (f_file_paths form) "") = [])) eqn:Hp;
    [discriminate He3|].
  apply bool_decide_eq_false in Hp.
  split.
  { unfold is_configured. cbn [radarr_url radarr_api_key file_paths].
    rewrite Hurl, Hkey, bool_decide_eq_true_2 by exact Hp. reflexivity. }
  split; [reflexivity|]. split.
  { unfold endswith, url. rewrite chars_str.
    apply (rstrip_char_not_endswith "/"). }
  split; [reflexivity|]. split; [exact Hp|]. split.
  { apply (normalize_paths_loop_spec expand_path), NoDup_nil_2. }
  split; [|reflexivity].
  apply (normalize_path_overrides_loop_spec expand_path), NoDup_nil_2.
Qed.

End SetupPostFacts.

Lemma setup_accepts_only_configured_witness :
  let cfg := (setup_post_update id plain_repr valid_form).1 in
  is_configured cfg = true
  /\ radarr_url cfg = "http://radarr:7878"
  /\ path_overrides cfg
     = [{| ov_remote := Some "/movies"; ov_local := Some "/mnt/a" |}].
Proof.
  cbv zeta.
  destruct (setup_accepts_only_configured id plain_repr valid_form eq_refl)
    as (Hc & _).
  split; [exact Hc|]. split; reflexivity.
Defined.

(** ** The YouTube search and its cache *)

Lemma fold_delete_lookup (keys : list (string * Z))
    (m : gmap (string * Z) (Q * list pydict)) (k : string * Z) :
  fold_left (fun (c : gmap (string * Z) (Q * list pydict)) stale_key =>
               delete stale_key c) keys m !! k
  = if bool_decide (k ∈ keys) then None else m !! k.
Proof.
  revert m. induction keys as [|a keys IH]; intros m; cbn [fold_left].
  - rewrite bool_decide_eq_false_2 by apply not_elem_of_nil. reflexivity.
  - rewrite IH. destruct (decide (k ∈ keys)) as [Hin|Hin].
    + rewrite !bool_decide_eq_true_2; [reflexivity | right; exact Hin | exact Hin].
    + rewrite (bool_decide_eq_false_2 _ Hin).
      destruct (decide (a = k)) as [->|Hne].
      * rewrite lookup_delete_eq, bool_decide_eq_true_2 by left. reflexivity.
      * rewrite lookup_delete_ne by exact Hne.
        rewrite bool_decide_eq_false_2; [reflexivity|].
        intros H. apply elem_of_cons in H as [H|H]; [congruence | exact (Hin H)].
Qed.

Lemma stale_keys_spec (now : Q) (m : gmap (string * Z) (Q * list pydict)) (k : string * Z) :
  k ∈ map fst (List.filter (is_stale now) (map_to_list m))
  <-> exists item, m !! k = Some item
                   /\ Qle_bool YOUTUBE_SEARCH_CACHE_TTL (now - fst item) = true.
Proof.
  rewrite list_elem_of_In, in_map_iff. split.
  - intros ([k' item] & <- & Hin). apply filter_In in Hin as [Hin Hst].
    apply list_elem_of_In, elem_of_map_to_list in Hin.
    exists item. split; [exact Hin | exact Hst].
  - intros (item & Hl & Hst). exists (k, item). split; [reflexivity|].
    apply filter_In. split; [|exact Hst].
    apply list_elem_of_In, elem_of_map_to_list. exact Hl.
Qed.

Lemma store_lookup (cache_key : string * Z) (now : Q) (results : list pydict)
    (cache : gmap (string * Z) (Q * list pydict)) (k : string * Z) :
  _store_youtube_results cache_key now results cache !! k
  = match <[cache_key := (now, results)]> cache !! k with
    | Some item =>
        if Qle_bool YOUTUBE_SEARCH_CACHE_TTL (now - fst item) then None
        else Some item
    | None => None
    end.
Proof.
  unfold _store_youtube_results. cbv zeta. rewrite fold_delete_lookup.
  destruct (<[cache_key := (now, results)]> cache !! k) as [item|] eqn:Hl.
  - destruct (Qle_bool YOUTUBE_SEARCH_CACHE_TTL (now - fst item)) eqn:Hst.
    + rewrite bool_decide_eq_true_2; [reflexivity|].
      apply stale_keys_spec. exists item. auto.
    + rewrite bool_decide_eq_false_2; [reflexivity|].
      intros H. apply stale_keys_spec in H as (item' & Hl' & Hst').
      congruence.
  - destruct (bool_decide _); reflexivity.
Qed.

Lemma not_stale_now (now : Q) :
  Qle_bool YOUTUBE_SEARCH_CACHE_TTL (now - now) = false.
Proof.
  destruct (Qle_bool YOUTUBE_SEARCH_CACHE_TTL (now - now)) eqn:H;
    [|reflexivity].
  apply Qle_bool_iff in H. unfold YOUTUBE_SEARCH_CACHE_TTL in H. lra.
Qed.

Lemma store_lookup_key (cache_key : string * Z) (now : Q)
    (results : list pydict) (cache : gmap (string * Z) (Q * list pydict)) :
  _store_youtube_results cache_key now results cache !! cache_key
  = Some (now, results).
Proof.
  rewrite store_lookup, lookup_insert_eq. cbn [fst].
  rewrite not_stale_now. reflexivity.
Qed.

Lemma stale_iff (now timestamp : Q) :
  Qle_bool YOUTUBE_SEARCH_CACHE_TTL (now - timestamp) = false
  <-> (now - timestamp < YOUTUBE_SEARCH_CACHE_TTL)%Q.
Proof.
  split.
  - intros H. apply Qnot_le_lt. intros Hle.
    apply Qle_bool_iff in Hle. congruence.
  - intros H. destruct (Qle_bool _ _) eqn:Hb; [|reflexivity].
    apply Qle_bool_iff in Hb. apply Qlt_not_le in H. contradiction.
Qed.

(** X22.  The cache of searches: results stored at a time [now] are
    returned for their key as long as less than 90 seconds have passed,
    and are not returned afterwards; storing also purges the cache, so
    that right after it every entry is fresh at [now], and the entries of
    other keys that were fresh are kept as they were. *)
Theorem search_cache_rule (cache_key : string * Z) (now : Q)
    (results : list pydict) (cache : gmap (string * Z) (Q * list pydict)) :
  let cache' := _store_youtube_results cache_key now results cache in
  (forall later,
     _get_cached_youtube_results cache_key later cache'
     = if negb (Qle_bool YOUTUBE_SEARCH_CACHE_TTL (later - now))
       then Some results else None)
  /\ (forall k item, cache' !! k = Some item -> fresh_at now item)
  /\ (forall k item, k <> cache_key -> cache !! k = Some item ->
        cache' !! k = if Qle_bool YOUTUBE_SEARCH_CACHE_TTL (now - fst item)
                      then None else Some item)
  /\ (forall k, k <> cache_key -> cache !! k = None -> cache' !! k = None).
Proof.
  cbv zeta. split; [|split; [|split]].
  - intros later. unfold _get_cached_youtube_results.
    rewrite store_lookup_key. reflexivity.
  - intros k item. rewrite store_lookup.
    destruct (<[cache_key := (now, results)]> cache !! k) as [item'|];
      [|discriminate].
    destruct (Qle_bool YOUTUBE_SEARCH_CACHE_TTL (now - fst item')) eqn:Hst;
      [discriminate|].
    intros [= <-]. apply stale_iff. exact Hst.
  - intros k item Hk Hl. rewrite store_lookup, lookup_insert_ne, Hl by congruence.
    reflexivity.
  - intros k Hk Hl. rewrite store_lookup, lookup_insert_ne, Hl by congruence.
    reflexivity.
Qed.

Section SearchFacts.

Variable extract : string -> search_failure + json.
Variable sanitize_info : pydict -> pydict.

Lemma normalised_has_url (entry normalised : pydict) :
  _normalise_youtube_result entry = Some normalised -> has_url normalised.
Proof.
  unfold _normalise_youtube_result. cbv zeta.
  match goal with
  | |- context [if negb (json_truthy ?u) then None else _] =>
      destruct (json_truthy u) eqn:Hu
  end; cbn [negb]; [|discriminate].
  intros [= <-]. eexists. split; [reflexivity | exact Hu].
Qed.

Lemma collect_results_spec (entries : list json) :
  (length (collect_results sanitize_info entries) <= length entries)%nat
  /\ Forall has_url (collect_results sanitize_info entries).
Proof.
  induction entries as [|e entries [IH1 IH2]].
  - split; [reflexivity | constructor].
  - destruct e as [|b|q|s|items|entry]; cbn [collect_results length];
      try (split; [lia | exact IH2]).
    destruct (_normalise_youtube_result (sanitize_info entry)) as [n|] eqn:Hn.
    + split; [cbn [length]; lia|].
      constructor; [exact (normalised_has_url _ _ Hn) | exact IH2].
    + split; [lia | exact IH2].
Qed.

Lemma store_keeps_cache_ok (cache_key : string * Z) (now : Q)
    (results : list pydict) (cache : gmap (string * Z) (Q * list pydict)) :
  cache_ok cache ->
  1 <= snd cache_key <= YOUTUBE_SEARCH_MAX_RESULTS ->
  Z.of_nat (length results) <= snd cache_key ->
  Forall has_url results ->
  cache_ok (_store_youtube_results cache_key now results cache).
Proof.
  intros Hok Hk Hlen Hurl k item. rewrite store_lookup.
  destruct (decide (cache_key = k)) as [<-|Hne].
  - rewrite lookup_insert_eq. cbn [fst].
    destruct (Qle_bool _ _); [discriminate|]. intros [= <-]. auto.
  - rewrite lookup_insert_ne by exact Hne.
    destruct (cache !! k) as [item'|] eqn:Hl; [|discriminate].
    destruct (Qle_bool _ _); [discriminate|]. intros [= <-].
    exact (Hok k item' Hl).
Qed.

(** X23.  The searches keep the cache well formed, and a search never
    returns more results than asked for, nor more than 20; every result
    carries a usable address under the key "url".  A blank query gives no
    result, sends nothing to the extractor and leaves the cache as it
    was. *)
Theorem search_results_bounded (query : string) (limit : Z) (now : Q)
    (st st' : search_state) (answer : string + list pydict) :
  cache_ok (yt_cache st) ->
  _search_youtube extract sanitize_info query limit now st = (answer, st') ->
  cache_ok (yt_cache st')
  /\ (forall results, answer = inr results ->
        Z.of_nat (length results) <= snd (search_key query limit)
        /\ (length results <= 20)%nat
        /\ Forall has_url results)
  /\ (nonempty (strip query) = false -> answer = inr [] /\ st' = st).
Proof.
  intros Hok. unfold _search_youtube, search_key. cbv zeta. cbn [snd].
  destruct (nonempty (strip query)) eqn:Hq; cbn [negb].
  2:{ intros [= <- <-]. split; [exact Hok|]. split; [|auto].
      intros results [= <-]. cbn [length].
      unfold YOUTUBE_SEARCH_MAX_RESULTS. repeat split; try lia. constructor. }
  set (max_results := Z.max 1 (Z.min (if limit =? 0 then 1 else limit)
                                     YOUTUBE_SEARCH_MAX_RESULTS)).
  assert (Hmax : 1 <= max_results <= YOUTUBE_SEARCH_MAX_RESULTS).
  { unfold max_results, YOUTUBE_SEARCH_MAX_RESULTS. lia. }
  assert (Hfresh : forall playlist,
    let results := collect_results sanitize_info
                     (take (Z.to_nat max_results)
                           (_iter_youtube_entries playlist)) in
    Z.of_nat (length results) <= max_results /\ Forall has_url results).
  { intros playlist. cbv zeta.
    destruct (collect_results_spec
                (take (Z.to_nat max_results) (_iter_youtube_entries playlist)))
      as [H1 H2].
    rewrite length_take in H1. split; [lia | exact H2]. }
  assert (Hmiss : forall st0,
    match extract ("ytsearch" +:+ pretty max_results +:+ ":" +:+ strip query) with
    | inl (DownloaderError exc) =>
        (inl ("YouTube search failed: " +:+ exc), st0)
    | inl (OtherError exc) =>
        (inl ("Failed to initialise YouTube search: " +:+ exc), st0)
    | inr playlist =>
        (inr (collect_results sanitize_info
                (take (Z.to_nat max_results) (_iter_youtube_entries playlist))),
         {| yt_cache :=
              _store_youtube_results (lower (strip query), max_results) now
                (collect_results sanitize_info
                   (take (Z.to_nat max_results)
                         (_iter_youtube_entries playlist)))
                (yt_cache st);
            yt_queries := yt_queries st
                          ++ ["ytsearch" +:+ pretty max_results +:+ ":"
                              +:+ strip query] |})
    end = (answer, st') ->
    yt_cache st0 = yt_cache st ->
    cache_ok (yt_cache st')
    /\ (forall results, answer = inr results ->
          Z.of_nat (length results) <= max_results
          /\ (length results <= 20)%nat
          /\ Forall has_url results)
    /\ (true = false -> answer = inr [] /\ st' = st)).
  { intros st0 Hrun Hst0.
    destruct (extract _) as [[exc|exc]|playlist];
      injection Hrun as <- <-.
    - rewrite Hst0. split; [exact Hok|]. split; discriminate.
    - rewrite Hst0. split; [exact Hok|]. split; discriminate.
    - destruct (Hfresh playlist) as [H1 H2]. cbn [yt_cache]. split.
      + apply store_keeps_cache_ok; auto.
      + split; [|discriminate]. intros results [= <-].
        unfold YOUTUBE_SEARCH_MAX_RESULTS in Hmax.
        repeat split; [exact H1 | lia | exact H2]. }
  unfold _get_cached_youtube_results.
  destruct (yt_cache st !! (lower (strip query), max_results))
    as [[timestamp items]|] eqn:Hl.
  - destruct (negb (Qle_bool YOUTUBE_SEARCH_CACHE_TTL (now - timestamp))).
    + intros [= <- <-]. split; [exact Hok|]. split; [|discriminate].
      intros results [= <-].
      destruct (Hok _ _ Hl) as (H0 & H1 & H2). cbn [fst snd] in H0, H1, H2.
      unfold YOUTUBE_SEARCH_MAX_RESULTS in H0.
      repeat split; [exact H1 | lia | exact H2].
    + intros Hrun. exact (Hmiss _ Hrun eq_refl).
  - intros Hrun. exact (Hmiss _ Hrun eq_refl).
Qed.

(** X24.  A search that went to the extractor is answered from the cache
    when it is repeated within 90 seconds: the same query up to letter
    case and surrounding white space, with a limit that clamps to the
    same number, gets the same results, and neither the cache nor the
    list of queries sent to the extractor changes. *)
Theorem repeated_search_hits_cache (query query' : string) (limit limit' : Z)
    (now later : Q) (st st' : search_state) (results : list pydict) :
  nonempty (strip query) = true ->
  _get_cached_youtube_results (search_key query limit) now (yt_cache st) = None ->
  _search_youtube extract sanitize_info query limit now st = (inr results, st') ->
  search_key query' limit' = search_key query limit ->
  (later - now < YOUTUBE_SEARCH_CACHE_TTL)%Q ->
  _search_youtube extract sanitize_info query' limit' later st'
  = (inr results, st')
  /\ yt_queries st'
     = yt_queries st
       ++ ["ytsearch" +:+ pretty (snd (search_key query limit)) +:+ ":"
           +:+ strip query].
Proof.
  intros Hq Hmiss Hrun Hkey Hfresh.
  assert (Hq' : nonempty (strip query') = true).
  { unfold search_key in Hkey. injection Hkey as Hlow _.
    apply (f_equal chars) in Hlow. rewrite !lower_chars in Hlow.
    rewrite nonempty_chars in Hq |- *.
    destruct (chars (strip query')); [|reflexivity].
    destruct (chars (strip query)); [discriminate Hq | discriminate Hlow]. }
  unfold _search_youtube in Hrun. cbv zeta in Hrun.
  rewrite Hq in Hrun. cbn [negb] in Hrun.
  fold (search_key query limit) in Hrun. rewrite Hmiss in Hrun.
  destruct (extract _) as [[exc|exc]|playlist]; try discriminate Hrun.
  injection Hrun as <- <-.
  split; [|reflexivity].
  unfold _search_youtube. cbv zeta. rewrite Hq'. cbn [negb].
  fold (search_key query' limit'). rewrite Hkey.
  cbn [yt_cache]. unfold _get_cached_youtube_results at 1.
  rewrite store_lookup_key.
  apply stale_iff in Hfresh. rewrite Hfresh. reflexivity.
Qed.

End SearchFacts.

Lemma search_results_bounded_witness :
  cache_ok (yt_cache (_search_youtube fixed_extract id "Alpha" 50 100
                        empty_search).2)
  /\ forall results,
       (_search_youtube fixed_extract id "Alpha" 50 100 empty_search).1
         = inr results ->
       (length results <= 20)%nat.
Proof.
  assert (H0 : cache_ok (yt_cache empty_search)).
  { intros k item H. unfold empty_search in H. cbn [yt_cache] in H.
    rewrite lookup_empty in H. discriminate H. }
  destruct (search_results_bounded fixed_extract id "Alpha" 50 100
              empty_search
              (_search_youtube fixed_extract id "Alpha" 50 100 empty_search).2
              (_search_youtube fixed_extract id "Alpha" 50 100 empty_search).1
              H0 eq_refl) as (H1 & H2 & _).
  split; [exact H1|]. intros results Hr. apply (H2 results Hr).
Defined.

Lemma repeated_search_hits_cache_witness :
  exists results st',
    _search_youtube fixed_extract id "  Alpha Trailer " 0 100 empty_search
    = (inr results, st')
    /\ _search_youtube fixed_extract id "alpha trailer" 1 (150) st'
       = (inr results, st')
    /\ yt_queries st' = ["ytsearch1:Alpha Trailer"].
Proof.
  destruct (repeated_search_hits_cache fixed_extract id
              "  Alpha Trailer " "alpha trailer" 0 1 100 150 empty_search
              (_search_youtube fixed_extract id "  Alpha Trailer " 0 100
                 empty_search).2
              (collect_results id
                 (take 1 (_iter_youtube_entries one_video)))
              eq_refl eq_refl eq_refl eq_refl eq_refl) as [H1 H2].
  do 2 eexists. split; [reflexivity|]. split; [exact H1 | exact H2].
Defined.

(** ** [resolve_movie_path]: the folder returned and the flag [created] *)

Lemma makedirs_fold_spec (dirs : list string) (m : gmap string node) (q : string) :
  let m' := foldr (fun d m => match m !! d with
                              | Some _ => m
                              | None => <[d := Dir]> m
                              end) m dirs in
  (m' !! q = m !! q \/ (m !! q = None /\ m' !! q = Some Dir))
  /\ (q ∈ dirs -> m' !! q <> None).
Proof.
  cbv zeta. induction dirs as [|d dirs [IH1 IH2]]; cbn [foldr].
  - split; [left; reflexivity|]. intros H. apply elem_of_nil in H. destruct H.
  - set (m' := foldr _ m dirs) in *.
    destruct (m' !! d) as [n|] eqn:Hd.
    + split; [exact IH1|]. intros H. apply elem_of_cons in H as [->|H].
      * congruence.
      * exact (IH2 H).
    + split.
      * destruct (decide (d = q)) as [->|Hne].
        -- rewrite lookup_insert_eq. right. split; [|reflexivity].
           destruct IH1 as [IH1|[IH1 _]]; congruence.
        -- rewrite lookup_insert_ne by exact Hne. exact IH1.
      * intros H. destruct (decide (d = q)) as [->|Hne].
        -- rewrite lookup_insert_eq. discriminate.
        -- rewrite lookup_insert_ne by exact Hne.
           apply elem_of_cons in H as [->|H]; [congruence | exact (IH2 H)].
Qed.

Lemma makedirs_spec (p : string) (fs fs' : filesystem) :
  makedirs p fs = Some fs' ->
  isdir fs' p = true
  /\ fs_denied fs' = fs_denied fs
  /\ forall q n, fs_nodes fs !! q = Some n -> fs_nodes fs' !! q = Some n.
Proof.
  unfold makedirs.
  destruct (negb (nonempty p) || bool_decide (p ∈ fs_denied fs)); [discriminate|].
  intros H.
  assert (Hp : fs_nodes fs !! p = None \/ fs_nodes fs !! p = Some Dir).
  { destruct (fs_nodes fs !! p) as [[c|]|]; [discriminate H | auto | auto]. }
  assert (Hfs : fs' = {| fs_nodes :=
                           foldr (fun d m => match m !! d with
                                             | Some _ => m
                                             | None => <[d := Dir]> m
                                             end)
                                 (fs_nodes fs) (p :: ancestors (String.length p) p);
                         fs_denied := fs_denied fs |}).
  { destruct (fs_nodes fs !! p) as [[c|]|]; [discriminate H | |];
      injection H as <-; reflexivity. }
  subst fs'. cbn [fs_nodes fs_denied]. split; [|split; [reflexivity|]].
  - unfold isdir. cbn [fs_nodes].
    destruct (makedirs_fold_spec (p :: ancestors (String.length p) p)
                (fs_nodes fs) p) as [H1 H2].
    specialize (H2 ltac:(left)).
    destruct H1 as [H1|[_ H1]].
    + rewrite H1 in H2 |- *. destruct Hp as [Hp|Hp]; rewrite Hp in *;
        [congruence | reflexivity].
    + rewrite H1. reflexivity.
  - intros q n Hq.
    destruct (makedirs_fold_spec (p :: ancestors (String.length p) p)
                (fs_nodes fs) q) as [[H1|[H1 _]] _]; congruence.
Qed.

Lemma ensure_candidate_cases (create : bool) (c : string) (b : option string)
    (st st' : resolver_state) (r : option string) :
  ensure_candidate create c b st = (r, st') ->
  (r = None /\ st' = st)
  \/ (r = Some c /\ st' = st /\ isdir (rs_fs st) c = true)
  \/ (r = Some c /\ create = true /\ isdir (rs_fs st) c = false
      /\ exists fs', makedirs c (rs_fs st) = Some fs'
                     /\ st' = {| rs_fs := fs'; rs_created := true |}).
Proof.
  unfold ensure_candidate.
  destruct (isdir (rs_fs st) c) eqn:Hd.
  { intros [= <- <-]. right. left. auto. }
  destruct create; cbn [negb]; [|intros [= <- <-]; left; auto].
  match goal with |- context [if ?g then _ else _] => destruct g end;
    [intros [= <- <-]; left; auto|].
  destruct (makedirs c (rs_fs st)) as [fs'|] eqn:Hm;
    [|intros [= <- <-]; left; auto].
  intros [= <- <-]. right. right. repeat split. exists fs'. auto.
Qed.

Lemma first_resolved_cases (create : bool) (l : list attempt)
    (st st' : resolver_state) (r : option string) :
  first_resolved (ensure_candidate create) l st = (r, st') ->
  (st' = st /\ forall p, r = Some p -> isdir (rs_fs st) p = true)
  \/ (create = true
      /\ exists p fs', r = Some p /\ isdir (rs_fs st) p = false
           /\ makedirs p (rs_fs st) = Some fs'
           /\ st' = {| rs_fs := fs'; rs_created := true |}).
Proof.
  revert st. induction l as [|[c b] l IH]; intros st; cbn [first_resolved].
  - intros [= <- <-]. left. split; [reflexivity | discriminate].
  - destruct (ensure_candidate create c b st) as [r1 st1] eqn:He.
    apply ensure_candidate_cases in He
      as [[-> ->]|[(-> & -> & Hd)|(-> & Hc & Hd & fs' & Hm & ->)]].
    + cbn [truthy]. apply IH.
    + destruct (truthy (Some c)); [|apply IH].
      intros [= <- <-]. left. split; [reflexivity|].
      intros p [= <-]. exact Hd.
    + rewrite (makedirs_nonempty c _ _ Hm : truthy (Some c) = true).
      intros [= <- <-]. right. split; [exact Hc|].
      exists c, fs'. auto.
Qed.

(** X25.  Whatever the configuration and the state of the disk, the path
    [resolve_movie_path] returns is a directory when it returns; the flag
    [created] is accurate (unset: the disk is as it was; set: creation was
    allowed, the path returned did not exist before and is the one that
    [os.makedirs] made); without a result nothing is created; and no
    entry that existed is removed or changed. *)
Theorem resolve_movie_path_result (original_path : option string)
    (cfg : config) (create_if_missing : bool) (fs : filesystem) :
  let res := resolve_movie_path original_path cfg create_if_missing fs in
  let resolved := res.1.1 in
  let created := res.1.2 in
  let fs' := res.2 in
  (forall p, resolved = Some p -> isdir fs' p = true)
  /\ (created = false -> fs' = fs)
  /\ (created = true ->
      create_if_missing = true
      /\ exists p, resolved = Some p /\ isdir fs p = false
                   /\ makedirs p fs = Some fs')
  /\ (resolved = None -> created = false)
  /\ (forall q n, fs_nodes fs !! q = Some n -> fs_nodes fs' !! q = Some n).
Proof.
  cbv zeta.
  assert (Htriv : forall res,
    res = ((None, false), fs) ->
    (forall p, res.1.1 = Some p -> isdir res.2 p = true)
    /\ (res.1.2 = false -> res.2 = fs)
    /\ (res.1.2 = true ->
        create_if_missing = true
        /\ exists p, res.1.1 = Some p /\ isdir fs p = false
                     /\ makedirs p fs = Some res.2)
    /\ (res.1.1 = None -> res.1.2 = false)
    /\ (forall q n, fs_nodes fs !! q = Some n -> fs_nodes res.2 !! q = Some n)).
  { intros res ->. cbn [fst snd]. repeat split; try discriminate; auto. }
  destruct original_path as [original|]; [|apply Htriv; reflexivity].
  destruct (nonempty original) eqn:Hne.
  2:{ apply Htriv. unfold resolve_movie_path. cbn [truthy]. rewrite Hne.
      reflexivity. }
  rewrite (resolve_movie_path_attempts original cfg create_if_missing fs Hne).
  destruct (first_resolved (ensure_candidate create_if_missing)
              (all_attempts original cfg) {| rs_fs := fs; rs_created := false |})
    as [r st'] eqn:Hf.
  cbn [fst snd].
  apply first_resolved_cases in Hf
    as [[-> Hd]|(Hc & p & fs' & -> & Hd & Hm & ->)]; cbn [rs_fs rs_created] in *.
  - repeat split; try discriminate; auto.
  - destruct (makedirs_spec p fs fs' Hm) as (H1 & _ & H3).
    split; [intros q [= <-]; exact H1|].
    split; [discriminate|].
    split; [intros _; split; [exact Hc|]; exists p; auto|].
    split; [discriminate | exact H3].
Qed.

(** ** Standalone downloads *)

(** X26.  [_select_standalone_library_path] returns the first configured
    library path whose trimmed form is not empty and is a directory, and
    returns it trimmed; it returns nothing exactly when no configured
    path qualifies. *)
Theorem select_standalone_library_path_rule (cfg : config) (fs : filesystem) :
  match _select_standalone_library_path cfg fs with
  | Some p =>
      isdir fs p = true /\ nonempty p = true
      /\ exists before entry after,
           file_paths cfg = before ++ entry :: after
           /\ p = strip entry
           /\ Forall (fun e => nonempty (strip e) && isdir fs (strip e) = false)
                     before
  | None =>
      Forall (fun e => nonempty (strip e) && isdir fs (strip e) = false)
             (file_paths cfg)
  end.
Proof.
  unfold _select_standalone_library_path.
  induction (file_paths cfg) as [|entry rest IH]; cbn [select_standalone_from].
  - constructor.
  - destruct (nonempty (strip entry)) eqn:Hne; cbn [negb].
    + destruct (isdir fs (strip entry)) eqn:Hd.
      * split; [exact Hd|]. split; [exact Hne|].
        exists [], entry, rest. repeat split. constructor.
      * destruct (select_standalone_from rest fs) as [p|].
        -- destruct IH as (H1 & H2 & before & e & after & -> & -> & Hb).
           split; [exact H1|]. split; [exact H2|].
           exists (entry :: before), e, after. repeat split.
           constructor; [rewrite Hne, Hd; reflexivity | exact Hb].
        -- constructor; [rewrite Hne, Hd; reflexivity | exact IH].
    + destruct (select_standalone_from rest fs) as [p|].
      * destruct IH as (H1 & H2 & before & e & after & -> & -> & Hb).
        split; [exact H1|]. split; [exact H2|].
        exists (entry :: before), e, after. repeat split.
        constructor; [rewrite Hne; reflexivity | exact Hb].
      * constructor; [rewrite Hne; reflexivity | exact IH].
Qed.

Lemma suffixed_inj (base : string) (m m' : nat) :
  suffixed base m = suffixed base m' -> m = m'.
Proof.
  intros H. apply (f_equal chars) in H. rewrite !chars_suffixed in H.
  do 2 apply app_inv_head in H.
  change (chars ")") with [")"%char] in H.
  assert (H' : chars (pretty m) ++ ")"%char :: [] = chars (pretty m') ++ ")"%char :: [])
    by exact H.
  apply digits_delimited in H'; [|reflexivity|apply pretty_nat_digits..].
  apply chars_inj in H'. exact (pretty_nat_inj _ _ H').
Qed.

Lemma suffixed_first_char (base : string) (m m' : nat) :
  startswith (suffixed base m) "/" = startswith (suffixed base m') "/".
Proof.
  unfold startswith. rewrite !chars_suffixed.
  destruct (chars base); reflexivity.
Qed.

Lemma candidate_path_inj (standalone_base_path base : string) (m m' : nat) :
  path_join standalone_base_path (suffixed base m)
  = path_join standalone_base_path (suffixed base m') -> m = m'.
Proof.
  unfold path_join. rewrite (suffixed_first_char base m m').
  destruct (startswith (suffixed base m') "/"); [apply suffixed_inj|].
  destruct (negb (nonempty standalone_base_path)
            || endswith standalone_base_path "/");
    intros H; apply (f_equal chars) in H; rewrite !chars_app in H;
    repeat apply app_inv_head in H; apply chars_inj in H;
    exact (suffixed_inj _ _ _ H).
Qed.

Lemma standalone_name_loop_search (fuel : nat) (fs : filesystem)
    (standalone_base_path base : string) (n : nat) :
  standalone_name_loop fuel fs standalone_base_path base n
  = option_map
      (fun k => (path_join standalone_base_path (suffixed base k),
                 suffixed base k))
      (first_free (fun k => isfile fs (path_join standalone_base_path
                                                 (suffixed base k)))
                  fuel n).
Proof.
  revert n. induction fuel as [|fuel IH]; intros n; [reflexivity|].
  cbn [standalone_name_loop first_free].
  unfold path_present, isdir, isfile.
  destruct (fs_nodes fs !! path_join standalone_base_path (suffixed base n))
    as [[c|]|]; cbn [negb orb]; [apply IH | reflexivity | reflexivity].
Qed.

Lemma isfile_not_isdir (fs : filesystem) (p : string) :
  isdir fs p = true -> isfile fs p = false.
Proof.
  unfold isdir, isfile. destruct (fs_nodes fs !! p) as [[c|]|]; congruence.
Qed.

(** X27.  The search for the standalone folder always ends.  The folder
    chosen is never an existing regular file: it bears the name wanted
    unless a regular file has it, and then the name with the least suffix
    [(k)], [k] from 1, that no regular file has.  If the folder exists it
    is used as it is and nothing is created; otherwise it is created and
    the flag says so; if the creation fails the disk is left as it was. *)
Theorem standalone_folder_rule (standalone_base_path name : string)
    (fs : filesystem) :
  exists res fs',
    standalone_folder (S (fs_size fs)) standalone_base_path name fs
      = Some (res, fs')
    /\ match res with
       | StandaloneReady p n created_new =>
           isdir fs' p = true
           /\ isfile fs p = false
           /\ p = path_join standalone_base_path n
           /\ (created_new = false -> fs' = fs)
           /\ (created_new = true ->
               isdir fs p = false /\ makedirs p fs = Some fs')
           /\ ((isfile fs (path_join standalone_base_path name) = false
                /\ n = name)
               \/ (isfile fs (path_join standalone_base_path name) = true
                   /\ exists k, (1 <= k)%nat /\ n = suffixed name k
                        /\ forall m, (1 <= m < k)%nat ->
                             isfile fs (path_join standalone_base_path
                                                  (suffixed name m)) = true))
       | StandaloneFailed p =>
           fs' = fs /\ makedirs p fs = None /\ isfile fs p = false
       end.
Proof.
  unfold standalone_folder. cbv zeta.
  assert (Hfinish : forall p n,
    isfile fs p = false ->
    p = path_join standalone_base_path n ->
    ((isfile fs (path_join standalone_base_path name) = false /\ n = name)
     \/ (isfile fs (path_join standalone_base_path name) = true
         /\ exists k, (1 <= k)%nat /\ n = suffixed name k
              /\ forall m, (1 <= m < k)%nat ->
                   isfile fs (path_join standalone_base_path
                                        (suffixed name m)) = true)) ->
    exists res fs',
      (if negb (isdir fs p) then
         match makedirs p fs with
         | None => Some (StandaloneFailed p, fs)
         | Some fs' => Some (StandaloneReady p n true, fs')
         end
       else Some (StandaloneReady p n false, fs)) = Some (res, fs')
      /\ match res with
         | StandaloneReady p n created_new =>
             isdir fs' p = true
             /\ isfile fs p = false
             /\ p = path_join standalone_base_path n
             /\ (created_new = false -> fs' = fs)
             /\ (created_new = true ->
                 isdir fs p = false /\ makedirs p fs = Some fs')
             /\ ((isfile fs (path_join standalone_base_path name) = false
                  /\ n = name)
                 \/ (isfile fs (path_join standalone_base_path name) = true
                     /\ exists k, (1 <= k)%nat /\ n = suffixed name k
                          /\ forall m, (1 <= m < k)%nat ->
                               isfile fs (path_join standalone_base_path
                                                    (suffixed name m)) = true))
         | StandaloneFailed p =>
             fs' = fs /\ makedirs p fs = None /\ isfile fs p = false
         end).
  { intros p n Hfile Hp Hname.
    destruct (isdir fs p) eqn:Hd; cbn [negb].
    - eexists _, _. split; [reflexivity|].
      repeat split; auto; discriminate.
    - destruct (makedirs p fs) as [fs'|] eqn:Hm.
      + eexists _, _. split; [reflexivity|].
        destruct (makedirs_spec p fs fs' Hm) as (H1 & _).
        repeat split; auto; discriminate.
      + eexists _, _. split; [reflexivity|]. repeat split; auto. }
  destruct (isfile fs (path_join standalone_base_path name)) eqn:Hfile.
  - rewrite standalone_name_loop_search.
    set (busy := fun k => isfile fs (path_join standalone_base_path
                                               (suffixed name k))).
    destruct (first_free_total
                (fun m (a : string * node) =>
                   String.eqb a.1 (path_join standalone_base_path
                                             (suffixed name m)))
                (map_to_list (fs_nodes fs)) busy) as [k Hk].
    + intros m m' a H1 H2. apply String.eqb_eq in H1, H2.
      apply (candidate_path_inj standalone_base_path name). congruence.
    + intros m Hb. unfold busy, isfile in Hb.
      destruct (fs_nodes fs !! path_join standalone_base_path (suffixed name m))
        as [n|] eqn:Hl; [|discriminate Hb].
      exists (path_join standalone_base_path (suffixed name m), n).
      split; [apply elem_of_map_to_list; exact Hl | apply String.eqb_refl].
    + unfold fs_size. rewrite Hk. cbn [option_map].
      apply first_free_some in Hk as (Hrange & Hfree & Hbusy).
      apply Hfinish; [exact Hfree | reflexivity|].
      right. split; [reflexivity|]. exists k. split; [lia|].
      split; [reflexivity|]. intros m Hm. apply Hbusy. lia.
  - apply Hfinish; [exact Hfile | reflexivity|]. left. auto.
Qed.

(** ** The settings of a job as the worker reads them *)

Lemma known_value_fixed (values : list string) (x d : string) :
  Forall (fun v => nonempty v = true /\ lower (strip v) = v) values ->
  x ∈ values ->
  lower (strip (or_default (Some x) d)) = x.
Proof.
  intros Hall Hin. rewrite Forall_forall in Hall.
  destruct (Hall x Hin) as [Hne Hfix].
  unfold or_default. rewrite Hne. exact Hfix.
Qed.

Lemma playlist_modes_fixed :
  Forall (fun v => nonempty v = true /\ lower (strip v) = v)
         ALLOWED_PLAYLIST_MODES.
Proof. repeat constructor. Qed.

Lemma name_modes_fixed :
  Forall (fun v => nonempty v = true /\ lower (strip v) = v)
         ["youtube"; "custom"].
Proof. repeat constructor. Qed.

Lemma extra_types_fixed :
  Forall (fun v => nonempty v = true /\ lower (strip v) = v)
         allowed_extra_types.
Proof. repeat constructor. Qed.

Lemma trimmed_name_fixed (x : string) :
  strip x = x -> strip (or_default (Some x) "") = x.
Proof.
  intros H. unfold or_default. destruct (nonempty x) eqn:Hne; [exact H|].
  destruct x; [reflexivity | discriminate Hne].
Qed.

Lemma read_job_settings_range (payload : job_payload) :
  settings_in_range (read_job_settings payload).1
  /\ (length (read_job_settings payload).2 <= 3)%nat.
Proof.
  unfold read_job_settings. cbv zeta.
  set (pm := lower (strip (or_default (pl_playlist_mode payload)
                                      (if pl_merge_playlist payload
                                       then "merge" else "single")))).
  set (nm := lower (strip (or_default (pl_standalone_name_mode payload)
                                      "youtube"))).
  set (cn := strip (or_default (pl_standalone_custom_name payload) "")).
  set (et := lower (strip (or_default (pl_extraType payload) "trailer"))).
  set (en := strip (or_default (pl_extra_name payload) "")).
  assert (Hcn : strip cn = cn) by apply strip_idem.
  assert (Hen : strip en = en) by apply strip_idem.
  clearbody pm nm cn et en.
  assert (Hnm : (if negb (bool_decide (nm ∈ ["youtube"; "custom"]))
                 then "youtube" else nm) ∈ ["youtube"; "custom"]).
  { destruct (bool_decide (nm ∈ ["youtube"; "custom"])) eqn:H; cbn [negb].
    - apply bool_decide_eq_true in H. exact H.
    - repeat constructor. }
  set (nm' := if negb (bool_decide (nm ∈ ["youtube"; "custom"]))
              then "youtube" else nm) in *.
  clearbody nm'. clear nm.
  assert (Hyt : "youtube" ∈ ["youtube"; "custom"]) by repeat constructor.
  assert (Hsingle : "single" ∈ ALLOWED_PLAYLIST_MODES) by repeat constructor.
  assert (Hother : "other" ∈ allowed_extra_types) by repeat constructor.
  destruct (bool_decide (pm ∈ ALLOWED_PLAYLIST_MODES)) eqn:H1;
    [apply bool_decide_eq_true in H1|];
    (destruct (bool_decide (et ∈ allowed_extra_types)) eqn:H3;
     [apply bool_decide_eq_true in H3|]);
    cbn [negb];
    destruct (pl_standalone payload) eqn:Hst; cbn [negb andb].
  all: try (destruct (String.eqb_spec nm' "custom") as [Hc|Hc];
            cbn [negb andb];
            [destruct (nonempty cn) eqn:Hne; cbn [negb andb]|]).
  all: destruct (pl_extra payload) eqn:Hex; cbn [negb andb].
  all: unfold settings_in_range;
    cbn [fst snd app length
         s_playlist_mode s_merge_playlist s_standalone s_standalone_name_mode
         s_standalone_custom_name s_extra_type s_extra s_extra_name].
  all: (split; [|lia]).
  all: repeat match goal with |- _ /\ _ => split end.
  all: try assumption; try reflexivity; try discriminate.
  all: try (intros; congruence).
  all: try (intros; split; reflexivity).
Qed.

Lemma settings_in_range_fixed (s : job_settings) :
  settings_in_range s -> read_job_settings (written_back s) = (s, []).
Proof.
  destruct s as [pm mp st nm cn et ex en].
  unfold settings_in_range, written_back, read_job_settings.
  cbn [s_playlist_mode s_merge_playlist s_standalone s_standalone_name_mode
       s_standalone_custom_name s_extra_type s_extra s_extra_name
       pl_playlist_mode pl_merge_playlist pl_standalone
       pl_standalone_name_mode pl_standalone_custom_name pl_extraType
       pl_extra pl_extra_name].
  intros (Hpm & Hmp & Hnm & Hst & Hc & Hcn & Het & Hex & Hen & Hens).
  cbv zeta.
  rewrite (known_value_fixed _ pm _ playlist_modes_fixed Hpm).
  rewrite (known_value_fixed _ nm _ name_modes_fixed Hnm).
  rewrite (known_value_fixed _ et _ extra_types_fixed Het).
  rewrite (trimmed_name_fixed cn Hcn), (trimmed_name_fixed en Hens).
  rewrite !bool_decide_eq_true_2 by assumption. cbn [negb].
  rewrite <- Hmp.
  destruct st; cbn [negb andb].
  - assert (Hcustom : String.eqb nm "custom" && negb (nonempty cn) = false).
    { destruct (String.eqb_spec nm "custom") as [E|E]; [|reflexivity].
      rewrite (Hc E). reflexivity. }
    rewrite Hcustom, andb_false_r.
    destruct ex; [discriminate (Hex eq_refl)|].
    rewrite (Hen eq_refl). reflexivity.
  - destruct (Hst eq_refl) as [-> ->]. rewrite andb_true_r.
    destruct ex; [reflexivity|]. rewrite (Hen eq_refl). reflexivity.
Qed.

(** X28.  Whatever the payload holds, the settings the worker goes on
    with are in range: the playlist mode is "single" or "merge" and the
    merge flag is set exactly for "merge"; the name mode of a standalone
    download is "youtube" or "custom", and "custom" only for a standalone
    download with a name; the extra type is one of the eight known types;
    an extra is never kept for a standalone download, and without an
    extra there is no extra name; at most three lines are logged.  What
    the worker writes back into the payload reads back unchanged, without
    any line logged. *)
Theorem read_job_settings_in_range (payload : job_payload) :
  let s := (read_job_settings payload).1 in
  s_playlist_mode s ∈ ALLOWED_PLAYLIST_MODES
  /\ s_merge_playlist s = bool_decide (s_playlist_mode s = "merge")
  /\ s_standalone_name_mode s ∈ ["youtube"; "custom"]
  /\ (s_standalone_name_mode s = "custom" ->
      s_standalone s = true /\ nonempty (s_standalone_custom_name s) = true)
  /\ s_extra_type s ∈ allowed_extra_types
  /\ (s_extra s = true -> s_standalone s = false)
  /\ (s_extra s = false -> s_extra_name s = "")
  /\ (length (read_job_settings payload).2 <= 3)%nat
  /\ read_job_settings (written_back s) = (s, []).
Proof.
  cbv zeta. destruct (read_job_settings_range payload) as [Hr Hl].
  pose proof (settings_in_range_fixed _ Hr) as Hfix.
  destruct Hr as (Hpm & Hmp & Hnm & Hst & Hc & Hcn & Het & Hex & Hen & Hens).
  split; [exact Hpm|]. split.
  { rewrite Hmp.
    destruct (String.eqb_spec (s_playlist_mode (read_job_settings payload).1)
                              "merge") as [E|E].
    - rewrite bool_decide_eq_true_2 by exact E. reflexivity.
    - rewrite bool_decide_eq_false_2 by exact E. reflexivity. }
  split; [exact Hnm|]. split.
  { intros E. split; [|exact (Hc E)].
    destruct (s_standalone (read_job_settings payload).1); [reflexivity|].
    destruct (Hst eq_refl) as [E' _]. rewrite E' in E. discriminate E. }
  split; [exact Het|]. split; [exact Hex|]. split; [exact Hen|].
  split; [exact Hl | exact Hfix].
Qed.

(** ** The metadata phase only writes log lines *)





Section OnlyLogs.

Variable job_id : string.














Section Report.

Variable json_loads : string -> option json.
Variable py_str : json -> string.
Variable _resolve_requested_format : pydict -> format_summary.



End Report.

End OnlyLogs.


(** ** [resolve_movie_by_metadata] *)

Section MovieLookupFacts.

Variable py_str : json -> string.





End MovieLookupFacts.

